(** * httppipelining: the response parser and the pipelining probe

    A shallow embedding of [httppipelining.go] (package [httppipelining]):
    [parseStatus], the default prober [optionsProber], the [Prober]
    interface, [Probe], [Supported], [Dial] and [Available], together
    with the parts of the Go standard library they call ([bufio.Reader],
    [bufio.Writer], [fmt.Sscanf], [strconv.ParseInt], [bytes.ToLower],
    [bytes.HasPrefix], [net.JoinHostPort]), and of the version of
    [Probe] and of the default prober on [textproto.Pipeline] that the
    repository also holds.

    Go [int] and [uint] are the 64-bit types of the usual platforms. *)

From Stdlib Require Import ZArith NArith List Bool Lia String Permutation.
From Stdlib Require Import Strings.Byte.
Import ListNotations.

Local Open Scope Z_scope.

(** ** Bytes, runes and errors *)

Definition b2z (b : byte) : Z := Z.of_N (Byte.to_N b).

Definition bytes (s : string) : list byte := list_byte_of_string s.

Definition CR : byte := "013"%byte.
Definition LF : byte := "010"%byte.
Definition CRLF : list byte := [CR; LF].

Definition rune := Z.

(** Go's [error] values that the program can meet.  [err == io.EOF] is
    identity with the sentinel, here the constructor [io_EOF]. *)
Inductive error : Type :=
| io_EOF
| io_ErrUnexpectedEOF
| io_ErrShortWrite
| bufio_ErrBufferFull
| bufio_ErrNegativeCount
| strconv_ErrSyntax
| strconv_ErrRange
| errorString (msg : string)
| malformedRequest (e : error) (id : N)
| otherError (code : N).

Definition isEOF (e : error) : bool :=
  match e with io_EOF => true | _ => false end.

(** A call either returns or panics. *)
Inductive Result (A : Type) : Type :=
| Ret (a : A)
| Panic (msg : string).
Arguments Ret {A} a.
Arguments Panic {A} msg.

Definition bind {A B : Type} (m : Result A) (k : A -> Result B) : Result B :=
  match m with
  | Ret a => k a
  | Panic msg => Panic msg
  end.

Notation "x <- m ;; k" := (bind m (fun x => k))
  (at level 61, m at next level, right associativity).
Notation "' p <- m ;; k" := (bind m (fun p => k))
  (at level 61, p pattern, m at next level, right associativity).

(** ** unicode/utf8: decoding a string into runes

    [fmt] reads its input rune by rune; an invalid or truncated encoding
    yields [RuneError] and consumes one byte. *)
Module utf8.

Definition RuneError : rune := 65533.

Definition between (lo hi : Z) (b : byte) : bool :=
  (lo <=? b2z b) && (b2z b <=? hi).

Definition low6 (b : byte) : Z := Z.land (b2z b) 63.

Fixpoint decodeRunes (bs : list byte) : list rune :=
  match bs with
  | [] => []
  | b0 :: t =>
    let x := b2z b0 in
    if x <? 128 then x :: decodeRunes t
    else if (194 <=? x) && (x <=? 223) then
      match t with
      | b1 :: t1 =>
        if between 128 191 b1
        then Z.lor (Z.shiftl (Z.land x 31) 6) (low6 b1) :: decodeRunes t1
        else RuneError :: decodeRunes t
      | [] => [RuneError]
      end
    else if (224 <=? x) && (x <=? 239) then
      let lo := if x =? 224 then 160 else 128 in
      let hi := if x =? 237 then 159 else 191 in
      match t with
      | b1 :: (b2 :: t2) as t1 =>
        if between lo hi b1 && between 128 191 b2
        then Z.lor (Z.shiftl (Z.land x 15) 12)
               (Z.lor (Z.shiftl (low6 b1) 6) (low6 b2)) :: decodeRunes t2
        else RuneError :: decodeRunes t
      | _ => RuneError :: decodeRunes t
      end
    else if (240 <=? x) && (x <=? 244) then
      let lo := if x =? 240 then 144 else 128 in
      let hi := if x =? 244 then 143 else 191 in
      match t with
      | b1 :: (b2 :: (b3 :: t3) as t2) as t1 =>
        if between lo hi b1 && between 128 191 b2 && between 128 191 b3
        then Z.lor (Z.shiftl (Z.land x 7) 18)
               (Z.lor (Z.shiftl (low6 b1) 12)
                  (Z.lor (Z.shiftl (low6 b2) 6) (low6 b3))) :: decodeRunes t3
        else RuneError :: decodeRunes t
      | _ => RuneError :: decodeRunes t
      end
    else RuneError :: decodeRunes t
  end.

End utf8.

(** ** strconv.ParseInt(s, 10, 64) *)
Module strconv.

Definition maxUint64 : Z := 18446744073709551615.
Definition cutoff10 : Z := maxUint64 / 10 + 1.

(** The digit loop of [ParseUint] for base 10: an underscore or any
    other non-digit is a syntax error, an overflow a range error. *)
Fixpoint parseUintLoop (n : Z) (s : list rune) : error + Z :=
  match s with
  | [] => inr n
  | c :: t =>
    if (48 <=? c) && (c <=? 57) then
      if cutoff10 <=? n then inl strconv_ErrRange
      else
        let n1 := n * 10 + (c - 48) in
        if maxUint64 <? n1 then inl strconv_ErrRange
        else parseUintLoop n1 t
    else inl strconv_ErrSyntax
  end.

Definition ParseUint (s : list rune) : error + Z :=
  match s with
  | [] => inl strconv_ErrSyntax
  | _ => parseUintLoop 0 s
  end.

Definition ParseInt (s : list rune) : error + Z :=
  match s with
  | [] => inl strconv_ErrSyntax
  | c :: t =>
    let neg := c =? 45 in
    let s' := if (c =? 43) || (c =? 45) then t else s in
    match ParseUint s' with
    | inl strconv_ErrRange => inl strconv_ErrRange
    | inl e => inl e
    | inr un =>
      let cutoff := 2 ^ 63 in
      if negb neg && (cutoff <=? un) then inl strconv_ErrRange
      else if neg && (cutoff <? un) then inl strconv_ErrRange
      else inr (if neg then - un else un)
    end
  end.

End strconv.

(** ** fmt.Sscanf

    [Sscanf(str, format, &v)] with one [*int] operand, for formats made
    of literal characters, white space and the verb [%d] (the two formats
    of this program; a width or another verb is answered with
    [errUnmodelled]).  The scanner state [ss] is the list of runes still
    to be read: [getRune] takes the head, [UnreadRune] puts it back.
    Errors are the panics that [errorHandler] turns into the returned
    [err]. *)
Module fmt.

Definition input := list rune.

Definition errUnmodelled : error := errorString "format outside the model".

(** The table [space] of fmt/scan.go. *)
Definition space : list (Z * Z) :=
  [ (9, 13); (32, 32); (133, 133); (160, 160); (5760, 5760);
    (8192, 8202); (8232, 8233); (8239, 8239); (8287, 8287);
    (12288, 12288) ].

Fixpoint inRanges (rx : Z) (rngs : list (Z * Z)) : bool :=
  match rngs with
  | [] => false
  | (lo, hi) :: t =>
    if rx <? lo then false
    else if rx <=? hi then true
    else inRanges rx t
  end.

Definition isSpace (r : rune) : bool :=
  if 65536 <=? r then false else inRanges r space.

Definition indexRune (ok : list rune) (r : rune) : bool :=
  existsb (Z.eqb r) ok.

Definition sign : list rune := [43; 45].
Definition decimalDigits : list rune :=
  [48; 49; 50; 51; 52; 53; 54; 55; 56; 57].

(** [hugeWid]: without a width, no more than [1 << 30] runes are read. *)
Definition hugeWid : Z := 2 ^ 30.

Fixpoint limit (n : Z) (s : input) : input :=
  match s with
  | [] => []
  | r :: t => if n <=? 0 then [] else r :: limit (n - 1) t
  end.

Definition peek (ok : list rune) (s : input) : bool :=
  match s with
  | [] => false
  | r :: _ => indexRune ok r
  end.

(** [ss.SkipSpace] with [nlIsSpace = false]. *)
Fixpoint SkipSpace (s : input) : error + input :=
  match s with
  | [] => inr []
  | r :: t =>
    if (r =? 13) && peek [10] t then SkipSpace t
    else if r =? 10 then inl (errorString "unexpected newline")
    else if isSpace r then SkipSpace t
    else inr s
  end.

(** [ss.accept]: a rune of [ok] is moved to the token buffer. *)
Definition accept (ok : list rune) (tok : list rune) (s : input)
  : bool * list rune * input :=
  match s with
  | [] => (false, tok, s)
  | r :: t => if indexRune ok r then (true, tok ++ [r], t) else (false, tok, s)
  end.

Fixpoint acceptAll (ok : list rune) (tok : list rune) (s : input)
  : list rune * input :=
  match s with
  | [] => (tok, s)
  | r :: t => if indexRune ok r then acceptAll ok (tok ++ [r]) t else (tok, s)
  end.

(** [ss.scanNumber(digits, false)]. *)
Definition scanNumber (digits : list rune) (tok : list rune) (s : input)
  : error + (list rune * input) :=
  match s with
  | [] => inl io_EOF
  | _ =>
    match accept digits tok s with
    | (false, _, _) => inl (errorString "expected integer")
    | (true, tok1, s1) => inr (acceptAll digits tok1 s1)
    end
  end.

(** [ss.scanInt('d', 64)]. *)
Definition scanInt (s : input) : error + (Z * input) :=
  match SkipSpace s with
  | inl e => inl e
  | inr [] => inl io_EOF
  | inr s1 =>
    let '(_, tok, s2) := accept sign [] s1 in
    match scanNumber decimalDigits tok s2 with
    | inl e => inl e
    | inr (tok', s3) =>
      match strconv.ParseInt tok' with
      | inl e => inl e
      | inr i => inr (i, s3)
      end
    end
  end.

(** Input runes that are spaces other than newline are passed over. *)
Fixpoint skipBlanks (s : input) : input :=
  match s with
  | [] => []
  | r :: t => if isSpace r && negb (r =? 10) then skipBlanks t else s
  end.

(** One newline of the format: spaces, then a newline or the end of input. *)
Definition matchNewline (s : input) : error + input :=
  match skipBlanks s with
  | [] => inr []
  | r :: t =>
    if r =? 10 then inr t
    else inl (errorString "newline in format does not match input")
  end.

Fixpoint matchNewlines (newlines : nat) (s : input) : error + input :=
  match newlines with
  | O => inr s
  | S j =>
    match matchNewline s with
    | inl e => inl e
    | inr s1 => matchNewlines j s1
    end
  end.

(** The input side of a run of white space in the format, as in
    [ss.advance]: [newlines] newlines were in the run, and
    [trailingSpace] tells that spaces followed the last of them. *)
Definition matchSpaces (newlines : nat) (trailingSpace : bool) (s : input)
  : error + input :=
  match matchNewlines newlines s with
  | inl e => inl e
  | inr s1 =>
    if trailingSpace then
      match newlines, s1 with
      | O, r :: _ =>
        if negb (isSpace r)
        then inl (errorString "expected space in input to match format")
        else if r =? 10
        then inl (errorString "newline in input does not match format")
        else inr (skipBlanks s1)
      | _, _ => inr (skipBlanks s1)
      end
    else inr s1
  end.

Definition settle (pend : option (nat * bool)) (s : input) : error + input :=
  match pend with
  | None => inr s
  | Some (newlines, trailingSpace) => matchSpaces newlines trailingSpace s
  end.

(** [ss.advance]: the number of format characters passed, or [-1] when a
    literal does not match.  [pend] carries the run of white space of the
    format that is being collected. *)
Fixpoint advance (format : list rune) (pend : option (nat * bool)) (i : Z)
    (s : input) : error + (Z * input) :=
  match format with
  | [] =>
    match settle pend s with
    | inl e => inl e
    | inr s1 => inr (i, s1)
    end
  | fmtc :: rest =>
    if isSpace fmtc then
      let '(newlines, trailingSpace) :=
        match pend with None => (O, false) | Some p => p end in
      advance rest
        (Some (if fmtc =? 10 then (S newlines, false) else (newlines, true)))
        (i + 1) s
    else
      match settle pend s with
      | inl e => inl e
      | inr s1 =>
        if fmtc =? 37 then
          match rest with
          | [] => inl (errorString "missing verb: % at end of format string")
          | nextc :: rest2 =>
            if nextc =? 37 then
              match s1 with
              | [] => inl io_ErrUnexpectedEOF
              | inputc :: t =>
                if fmtc =? inputc then advance rest2 None (i + 2) t
                else inr (-1, s1)
              end
            else inr (i, s1)
          end
        else
          match s1 with
          | [] => inl io_ErrUnexpectedEOF
          | inputc :: t =>
            if fmtc =? inputc then advance rest None (i + 1) t
            else inr (-1, s1)
          end
      end
  end.

(** [ss.doScanf] for [nargs] operands of type [*int]: the number of
    operands processed, their values, and the error. *)
Fixpoint doScanf (fuel : nat) (format : list rune) (nargs : nat)
    (vals : list Z) (s : input) : Z * list Z * option error :=
  let numProcessed := Z.of_nat (List.length vals) in
  let finish :=
    if (List.length vals <? nargs)%nat
    then (numProcessed, vals, Some (errorString "too many operands"))
    else (numProcessed, vals, None) in
  match fuel, format with
  | O, _ => (numProcessed, vals, Some errUnmodelled)
  | _, [] => finish
  | S fuel', c0 :: _ =>
    match advance format None 0 s with
    | inl e => (numProcessed, vals, Some e)
    | inr (w, s1) =>
      if 0 <? w then doScanf fuel' (skipn (Z.to_nat w) format) nargs vals s1
      else if negb (c0 =? 37) then
        if w <? 0
        then (numProcessed, vals,
              Some (errorString "input does not match format"))
        else finish
      else
        match format with
        | _ :: c :: rest =>
          if negb (c =? 100) then (numProcessed, vals, Some errUnmodelled)
          else
            match SkipSpace s1 with
            | inl e => (numProcessed, vals, Some e)
            | inr s2 =>
              if (nargs <=? List.length vals)%nat
              then (numProcessed, vals,
                    Some (errorString "too few operands for format '%d'"))
              else
                match scanInt s2 with
                | inl e => (numProcessed, vals, Some e)
                | inr (v, s3) => doScanf fuel' rest nargs (vals ++ [v]) s3
                end
            end
        | _ => (numProcessed, vals, Some errUnmodelled)
        end
    end
  end.

(** [fmt.Sscanf(str, format, &v)]: [n], the value stored in [v] (0 when
    none was), and [err]. *)
Definition Sscanf (str : list byte) (format : list byte)
  : Z * Z * option error :=
  let fr := utf8.decodeRunes format in
  let '(n, vals, err) :=
    doScanf (S (List.length fr)) fr 1 []
      (limit hugeWid (utf8.decodeRunes str)) in
  (n, hd 0 vals, err).

End fmt.

(** ** bytes *)
Module Bytes.

(** [bytes.ToLower] on ASCII letters.  On a line with bytes above 127 Go
    also lower-cases the other letters of Unicode and re-encodes an
    invalid byte as U+FFFD; no such rune becomes or ceases to be one of
    the ASCII characters that [HasPrefix] and the scanner below tell
    apart, so the program does not observe the difference. *)
Definition toLower (b : byte) : byte :=
  if (65 <=? b2z b) && (b2z b <=? 90)
  then match Byte.of_N (Byte.to_N b + 32) with Some c => c | None => b end
  else b.

Definition ToLower (s : list byte) : list byte := map toLower s.

Fixpoint HasPrefix (s prefix : list byte) : bool :=
  match prefix, s with
  | [], _ => true
  | p :: prefix', c :: s' => Byte.eqb c p && HasPrefix s' prefix'
  | _ :: _, [] => false
  end.

Fixpoint IndexByte (s : list byte) (c : byte) : option nat :=
  match s with
  | [] => None
  | b :: t =>
    if Byte.eqb b c then Some O
    else match IndexByte t c with Some i => Some (S i) | None => None end
  end.

End Bytes.

(** ** io

    The write side of a connection is a [Sink]: the bytes written so
    far, and, for a sink that breaks, the number of bytes it still
    takes and the error it then reports.  An [io.ReadWriter] is a sink
    together with the bytes that the peer delivers before it closes the
    stream; [Probe] reads only after its flush, so these are the peer's
    answer to the whole burst of requests. *)
Module io.

Record Sink : Type := {
  written : list byte;
  failure : option (nat * error)
}.

Definition Write (p : list byte) (k : Sink) : nat * option error * Sink :=
  match failure k with
  | None =>
    (List.length p, None,
     {| written := written k ++ p; failure := None |})
  | Some (room, e) =>
    if (List.length p <=? room)%nat
    then (List.length p, None,
          {| written := written k ++ p;
             failure := Some ((room - List.length p)%nat, e) |})
    else (room, Some e,
          {| written := written k ++ firstn room p;
             failure := Some (O, e) |})
  end.

Record ReadWriter : Type := {
  incoming : list byte;
  sink : Sink
}.

End io.

(** ** bufio

    A [Reader] is the sequence of bytes that it will still deliver
    (buffered or not) before the underlying stream ends; the stream
    reports its end with [io.EOF] once all bytes were delivered.  The
    buffer holds [defaultBufSize] bytes, which bounds the line that
    [ReadSlice] can return. *)
Module bufio.

Definition defaultBufSize : nat := 4096.

Definition Reader := list byte.

(** [Reader.ReadString(delim)]: the bytes up to and including the first
    [delim]; without one, all the bytes and [io.EOF]. *)
Definition ReadString (delim : byte) (r : Reader)
  : list byte * option error * Reader :=
  match Bytes.IndexByte r delim with
  | Some i => (firstn (S i) r, None, skipn (S i) r)
  | None => (r, Some io_EOF, [])
  end.

(** [Reader.ReadSlice(delim)]: as [ReadString] while the line fits the
    buffer; [ErrBufferFull] with the full buffer when it fills without a
    [delim]. *)
Definition ReadSlice (delim : byte) (r : Reader)
  : list byte * option error * Reader :=
  match Bytes.IndexByte (firstn defaultBufSize r) delim with
  | Some i => (firstn (S i) r, None, skipn (S i) r)
  | None =>
    if (defaultBufSize <=? List.length r)%nat
    then (firstn defaultBufSize r, Some bufio_ErrBufferFull,
          skipn defaultBufSize r)
    else (r, Some io_EOF, [])
  end.

(** [Reader.Discard(n)]: the number of bytes skipped and the error. *)
Definition Discard (n : Z) (r : Reader) : Z * option error * Reader :=
  if n <? 0 then (0, Some bufio_ErrNegativeCount, r)
  else if n =? 0 then (0, None, r)
  else if n <=? Z.of_nat (List.length r)
  then (n, None, skipn (Z.to_nat n) r)
  else (Z.of_nat (List.length r), Some io_EOF, []).

(** [bufio.Writer]: [buf] is [b.buf[0:b.n]], [err] the sticky error. *)
Record Writer : Type := {
  buf : list byte;
  err : option error;
  wr : io.Sink
}.

Definition NewWriter (w : io.Sink) : Writer :=
  {| buf := []; err := None; wr := w |}.

Definition NewReader (rd : list byte) : Reader := rd.

Definition Available (b : Writer) : nat :=
  (defaultBufSize - List.length (buf b))%nat.

Definition Buffered (b : Writer) : nat := List.length (buf b).

(** [Writer.Flush]. *)
Definition Flush (b : Writer) : option error * Writer :=
  match err b with
  | Some e => (Some e, b)
  | None =>
    match buf b with
    | [] => (None, b)
    | _ =>
      let '(n, e, w') := io.Write (buf b) (wr b) in
      let e' :=
        match e with
        | None => if (n <? Buffered b)%nat then Some io_ErrShortWrite else None
        | Some _ => e
        end in
      match e' with
      | Some e1 =>
        (Some e1, {| buf := skipn n (buf b); err := Some e1; wr := w' |})
      | None => (None, {| buf := []; err := None; wr := w' |})
      end
    end
  end.

(** The loop of [Writer.Write]: while [p] does not fit and no error is
    pending, write a large [p] directly or fill and flush the buffer. *)
Fixpoint writeLoop (fuel : nat) (p : list byte) (nn : nat) (b : Writer)
  : Result (list byte * nat * Writer) :=
  if (Available b <? List.length p)%nat
     && match err b with None => true | Some _ => false end
  then
    match fuel with
    | O => Panic "out of fuel"
    | S fuel' =>
      if (Buffered b =? 0)%nat then
        let '(n, e, w') := io.Write p (wr b) in
        writeLoop fuel' (skipn n p) (nn + n)%nat
          {| buf := buf b; err := e; wr := w' |}
      else
        let n := Nat.min (Available b) (List.length p) in
        let b1 := {| buf := buf b ++ firstn n p; err := err b; wr := wr b |} in
        writeLoop fuel' (skipn n p) (nn + n)%nat (snd (Flush b1))
    end
  else Ret (p, nn, b).

(** [Writer.Write(p)]: the number of bytes taken and the error. *)
Definition Write (p : list byte) (b : Writer)
  : Result (nat * option error * Writer) :=
  '(p1, nn, b1) <- writeLoop 3 p O b ;;
  match err b1 with
  | Some e => Ret (nn, Some e, b1)
  | None =>
    let n := Nat.min (Available b1) (List.length p1) in
    Ret ((nn + n)%nat, None,
         {| buf := buf b1 ++ firstn n p1; err := None; wr := wr b1 |})
  end.

End bufio.

(** ** parseStatus *)

Definition contentLengthPrefix : list byte := bytes "content-length:".

Definition byteC : byte := "C"%byte.
Definition bytec : byte := "c"%byte.

(** The header loop of [parseStatus]: the body length announced by the
    header block, or the error that ends the parse.  [fuel] bounds the
    number of lines; every line takes a byte, so the length of the
    stream plus one is enough. *)
Fixpoint readHeaders (fuel : nat) (contentLength : Z) (lengthFound : bool)
    (r : bufio.Reader) : Result ((error + Z) * bufio.Reader) :=
  match fuel with
  | O => Panic "out of fuel"
  | S fuel' =>
    let '(line, err, r1) := bufio.ReadSlice LF r in
    match err with
    | Some e => Ret (inl e, r1)
    | None =>
      match line with
      | [] => Panic "index out of range"
      | line0 :: _ =>
        if (List.length line =? 2)%nat && Byte.eqb line0 CR
           && Byte.eqb (nth 1 line LF) LF
        then Ret (inr contentLength, r1)
        else if lengthFound
                || (negb (Byte.eqb line0 byteC) && negb (Byte.eqb line0 bytec))
        then readHeaders fuel' contentLength lengthFound r1
        else
          let lower := Bytes.ToLower line in
          if Bytes.HasPrefix lower contentLengthPrefix then
            let value := skipn (List.length contentLengthPrefix) lower in
            match fmt.Sscanf value (bytes "%d" ++ CRLF) with
            | (_, _, Some e) => Ret (inl e, r1)
            | (n, v, None) =>
              if negb (n =? 1)
              then Ret (inl (errorString "no content length"), r1)
              else readHeaders fuel' v true r1
            end
          else readHeaders fuel' contentLength lengthFound r1
      end
    end
  end.

(** [parseStatus(r)]: the status, the error, and the reader afterwards. *)
Definition parseStatus (r : bufio.Reader)
  : Result (Z * option error * bufio.Reader) :=
  let '(line, err, r1) := bufio.ReadString LF r in
  match err with
  | Some e => Ret (0, Some e, r1)
  | None =>
    match fmt.Sscanf line (bytes "HTTP/1.1 %d") with
    | (_, _, Some e) => Ret (0, Some e, r1)
    | (n, status, None) =>
      if negb (n =? 1)
      then Ret (0, Some (errorString "malformed status line"), r1)
      else
        '(res, r2) <- readHeaders (S (List.length r1)) 0 false r1 ;;
        match res with
        | inl e => Ret (0, Some e, r2)
        | inr contentLength =>
          match bufio.Discard contentLength r2 with
          | (_, Some e, r3) => Ret (0, Some e, r3)
          | (_, None, r3) => Ret (status, None, r3)
          end
        end
    end
  end.

(** ** The default prober *)

Record optionsProber : Type := { host : list byte }.

Definition request (target : string) (p : optionsProber) : list byte :=
  bytes "OPTIONS " ++ bytes target ++ bytes " HTTP/1.1" ++ CRLF
  ++ bytes "Host: " ++ host p ++ CRLF ++ CRLF.

Module OptionsProber.

Definition NumRequests (p : optionsProber) : N := 2%N.

(** [fmt.Fprintf(w, ...)] formats the request and hands it to [w.Write]
    in one call. *)
Definition WriteRequest (p : optionsProber) (id : N) (w : bufio.Writer)
  : Result (option error * bufio.Writer) :=
  match id with
  | 0%N =>
    '(_, err, w1) <- bufio.Write (request "*" p) w ;;
    Ret (err, w1)
  | 1%N =>
    '(_, err, w1) <- bufio.Write (request "." p) w ;;
    Ret (err, w1)
  | _ => Panic "invalid id"
  end.

Definition ReadRequest (p : optionsProber) (id : N) (r : bufio.Reader)
  : Result (bool * option error * bufio.Reader) :=
  if (2 <=? id)%N then Panic "invalid id"
  else
    '(code, err, r1) <- parseStatus r ;;
    match err with
    | Some e =>
      if isEOF e then Ret (false, None, r1)
      else Ret (false, Some (malformedRequest e id), r1)
    | None =>
      let expected :=
        match id with
        | 0%N => code =? 200
        | 1%N => code =? 400
        | _ => false
        end in
      Ret (expected, None, r1)
    end.

End OptionsProber.

(** ** Prober and Probe *)

Record Prober : Type := {
  NumRequests : N;
  WriteRequest : N -> bufio.Writer -> Result (option error * bufio.Writer);
  ReadRequest :
    N -> bufio.Reader -> Result (bool * option error * bufio.Reader)
}.

Definition optionsProber_Prober (p : optionsProber) : Prober :=
  {| NumRequests := OptionsProber.NumRequests p;
     WriteRequest := OptionsProber.WriteRequest p;
     ReadRequest := OptionsProber.ReadRequest p |}.

(** The calls that [Probe] makes, in the order in which they happen. *)
Inductive call : Type :=
| CallWriteRequest (id : N)
| CallFlush
| CallReadRequest (id : N).

(** [struct write { id uint; err error }]. *)
Definition write : Type := (N * option error)%type.

(** The writer goroutine's loop [for id := uint(0); id < n; id++], with
    [k] requests left from [id] on; the channel [writes] has room for
    all [n] results, so the loop never waits. *)
Fixpoint writeRequests (p : Prober) (k : nat) (id : N) (bw : bufio.Writer)
    (log : list call) : Result (list write * bufio.Writer * list call) :=
  match k with
  | O => Ret ([], bw, log)
  | S k' =>
    '(err, bw1) <- WriteRequest p id bw ;;
    '(ws, bw2, log2) <-
      writeRequests p k' (N.succ id) bw1 (log ++ [CallWriteRequest id]) ;;
    Ret ((id, err) :: ws, bw2, log2)
  end.

(** The loop [for w := range writes] of [Probe]. *)
Fixpoint readRequests (p : Prober) (writes : list write) (available : bool)
    (br : bufio.Reader) (log : list call)
  : Result (bool * option error * bufio.Reader * list call) :=
  match writes with
  | [] => Ret (available, None, br, log)
  | (id, werr) :: rest =>
    match werr with
    | Some e => Ret (false, Some e, br, log)
    | None =>
      '(expected, err, br1) <- ReadRequest p id br ;;
      match err with
      | Some e => Ret (false, Some e, br1, log ++ [CallReadRequest id])
      | None =>
        readRequests p rest (available && expected) br1
          (log ++ [CallReadRequest id])
      end
    end
  end.

(** What one run of [Probe] leaves behind: its two results, the calls
    it made, the writer and the reader. *)
Record run : Type := {
  available : bool;
  err : option error;
  calls : list call;
  bw : bufio.Writer;
  br : bufio.Reader
}.

(** [Probe(rw, p)].  The main goroutine receives from [flush] before it
    does anything else, and the writer goroutine sends on [flush] after
    its last [WriteRequest]: the writes, the flush and the reads happen
    one after the other. *)
Definition ProbeRun (rw : io.ReadWriter) (p : Prober) : Result run :=
  let n := NumRequests p in
  '(writes, bw1, log1) <-
    writeRequests p (N.to_nat n) 0%N (bufio.NewWriter (io.sink rw)) [] ;;
  let '(ferr, bw2) := bufio.Flush bw1 in
  let log2 := log1 ++ [CallFlush] in
  let br0 := bufio.NewReader (io.incoming rw) in
  match ferr with
  | Some e =>
    Ret {| available := false; err := Some e; calls := log2;
           bw := bw2; br := br0 |}
  | None =>
    '(a, e, br1, log3) <- readRequests p writes true br0 log2 ;;
    Ret {| available := a; err := e; calls := log3; bw := bw2; br := br1 |}
  end.

Definition Probe (rw : io.ReadWriter) (p : Prober)
  : Result (bool * option error) :=
  r <- ProbeRun rw p ;; Ret (available r, err r).

(** [Supported(rw, host)]. *)
Definition Supported (rw : io.ReadWriter) (h : list byte)
  : Result (bool * option error) :=
  match h with
  | [] => Panic "host is empty"
  | _ => Probe rw (optionsProber_Prober {| host := h |})
  end.

(** ** Vocabulary of the statements *)

(** A line: bytes without a newline, then the newline. *)
Definition noLF (l : list byte) : bool :=
  forallb (fun b => negb (Byte.eqb b LF)) l.

Definition isLine (line : list byte) : bool :=
  match Bytes.IndexByte line LF with
  | Some i => (S i =? List.length line)%nat
  | None => false
  end.

(** A line that [ReadSlice] can return: it fits the reader's buffer. *)
Definition fits (line : list byte) : bool :=
  (List.length line <=? bufio.defaultBufSize)%nat.

(** The words of a response. *)
Definition isDigit (b : byte) : bool := (48 <=? b2z b) && (b2z b <=? 57).

(** Optional white space: a space or a horizontal tab. *)
Definition isBlank (b : byte) : bool :=
  Byte.eqb b " "%byte || Byte.eqb b "009"%byte.

(** The number that a string of decimal digits denotes. *)
Fixpoint digitsValue (n : Z) (ds : list byte) : Z :=
  match ds with
  | [] => n
  | d :: t => digitsValue (n * 10 + (b2z d - 48)) t
  end.

(** The largest Go [int]. *)
Definition maxInt : Z := 2 ^ 63 - 1.

(** The scan of a number stops at the end of the input or at a rune that
    is not a digit. *)
Definition stops (s : fmt.input) : bool :=
  match s with
  | [] => true
  | r :: _ => negb (fmt.indexRune fmt.decimalDigits r)
  end.

(** The runes of the two formats, and of the literal "HTTP/1.1". *)
Definition valueFormat : list rune := [37; 100; 13; 10].
Definition statusFormat : list rune :=
  [72; 84; 84; 80; 47; 49; 46; 49; 32; 37; 100].

Definition statusLiteral : list rune := [72; 84; 84; 80; 47; 49; 46; 49].

Definition isAscii (b : byte) : bool := b2z b <? 128.

(** The status line [HTTP/1.1 ddd reason], and a Content-Length field
    with optional white space around its value. *)
Definition statusLine (code reason : list byte) : list byte :=
  bytes "HTTP/1.1 " ++ code ++ " "%byte :: reason ++ CRLF.

Definition lengthLine (name pad1 digits pad2 : list byte) : list byte :=
  name ++ ":"%byte :: pad1 ++ digits ++ pad2 ++ CRLF.

Definition isCRLF (line : list byte) : bool :=
  match line with
  | [a; b] => Byte.eqb a CR && Byte.eqb b LF
  | _ => false
  end.

(** The lines that [parseStatus] takes for a Content-Length field. *)
Definition isContentLength (line : list byte) : bool :=
  Bytes.HasPrefix (Bytes.ToLower line) contentLengthPrefix.

(** A header line: a line other than the empty line that ends the
    header block. *)
Definition headerLine (line : list byte) : bool :=
  isLine line && negb (isCRLF line).

Definition otherHeader (line : list byte) : bool :=
  headerLine line && negb (isContentLength line).

Fixpoint eqBytes (a b : list byte) : bool :=
  match a, b with
  | [], [] => true
  | x :: a', y :: b' => Byte.eqb x y && eqBytes a' b'
  | _, _ => false
  end.

(** A response that announces the length of its body: the three digits
    of the status code and the reason phrase; the header fields before
    the Content-Length field, line by line; that field, its name in any
    spelling of case, with the white space around its digits; the header
    lines after it; the body. *)
Record response : Type := {
  code : byte * byte * byte;
  reason : list byte;
  fields : list (list byte);
  lengthName : list byte;
  lengthPad : list byte * list byte;
  lengthDigits : list byte;
  trailing : list (list byte);
  body : list byte
}.

Definition codeDigits (r : response) : list byte :=
  let '(a, b, c) := code r in [a; b; c].

Definition statusOf (r : response) : Z := digitsValue 0 (codeDigits r).

Definition lengthField (r : response) : list byte :=
  lengthLine (lengthName r) (fst (lengthPad r)) (lengthDigits r)
    (snd (lengthPad r)).

Definition encode (r : response) : list byte :=
  statusLine (codeDigits r) (reason r)
  ++ List.concat (fields r) ++ lengthField r ++ List.concat (trailing r)
  ++ CRLF ++ body r.

Definition notEmpty (l : list byte) : bool :=
  match l with [] => false | _ => true end.

(** The grammar of the response, and the body as long as announced. *)
Definition wellFormed (r : response) : bool :=
  forallb isDigit (codeDigits r) && noLF (reason r)
  && forallb otherHeader (fields r)
  && eqBytes (Bytes.ToLower (lengthName r)) (bytes "content-length")
  && forallb isBlank (fst (lengthPad r)) && forallb isBlank (snd (lengthPad r))
  && notEmpty (lengthDigits r) && forallb isDigit (lengthDigits r)
  && (digitsValue 0 (lengthDigits r) <=? maxInt)
  && forallb headerLine (trailing r)
  && (Z.of_nat (List.length (body r)) =? digitsValue 0 (lengthDigits r)).

(** No header line is longer than the buffer of the reader. *)
Definition fitsBuffer (r : response) : bool :=
  forallb fits (fields r) && fits (lengthField r) && forallb fits (trailing r).

(** A writer without a pending error on a sink that takes every byte. *)
Definition healthy (b : bufio.Writer) : Prop :=
  bufio.err b = None /\ io.failure (bufio.wr b) = None.

(** The status that the default prober expects for a request. *)
Definition expectedStatus (id : N) (status : Z) : bool :=
  match id with
  | 0%N => status =? 200
  | 1%N => status =? 400
  | _ => false
  end.

(** What [parseStatus] returned, without the reader. *)
Definition returned (x : Result (Z * option error * bufio.Reader))
  : option (Z * option error) :=
  match x with
  | Ret (status, e, _) => Some (status, e)
  | Panic _ => None
  end.

(** ** Example streams *)

(** The two responses of [Test_parseStatus]. *)
Definition response200 : response :=
  {| code := ("2"%byte, "0"%byte, "0"%byte);
     reason := bytes "OK";
     fields := [bytes "Server: Apache" ++ CRLF];
     lengthName := bytes "Content-Length";
     lengthPad := ([" "%byte], []);
     lengthDigits := bytes "0";
     trailing := [];
     body := [] |}.

Definition response400 : response :=
  {| code := ("4"%byte, "0"%byte, "0"%byte);
     reason := bytes "Bad Request";
     fields := [bytes "Server: Apache" ++ CRLF];
     lengthName := bytes "Content-Length";
     lengthPad := ([" "%byte], []);
     lengthDigits := bytes "4";
     trailing := [];
     body := bytes "body" |}.

(** A response with a header line of 4105 bytes. *)
Definition responseLongLine : response :=
  {| code := ("2"%byte, "0"%byte, "0"%byte);
     reason := bytes "OK";
     fields := [bytes "X-Pad: " ++ repeat "a"%byte 4096 ++ CRLF];
     lengthName := bytes "Content-Length";
     lengthPad := ([" "%byte], []);
     lengthDigits := bytes "0";
     trailing := [];
     body := [] |}.

(** A connection whose peer sends [s] and then closes, on a sink that
    takes every byte; the same on a sink that takes none. *)
Definition connection (s : list byte) : io.ReadWriter :=
  {| io.incoming := s;
     io.sink := {| io.written := []; io.failure := None |} |}.

Definition brokenConnection (s : list byte) (e : error) : io.ReadWriter :=
  {| io.incoming := s;
     io.sink := {| io.written := []; io.failure := Some (O, e) |} |}.

Definition exampleHost : optionsProber := {| host := bytes "example.com" |}.

(** The value of a Content-Length line, as [parseStatus] cuts it out. *)
Definition lengthValue (line : list byte) : list byte :=
  skipn (List.length contentLengthPrefix) (Bytes.ToLower line).

(** Header lines that the loop of [parseStatus] passes without an
    error: they fit the buffer, and the first Content-Length field among
    them, when none was found before, scans as an integer. *)
Fixpoint passes (found : bool) (ls : list (list byte)) : bool :=
  match ls with
  | [] => true
  | l :: ls' =>
    headerLine l && fits l &&
    (if found || negb (isContentLength l) then passes found ls'
     else
       match fmt.Sscanf (lengthValue l) (bytes "%d" ++ CRLF) with
       | (1, _, None) => passes true ls'
       | _ => false
       end)
  end.

(** The header lines of a response, and all its lines. *)
Definition headerLines (r : response) : list (list byte) :=
  fields r ++ lengthField r :: trailing r.

Definition linesOf (r : response) : list (list byte) :=
  statusLine (codeDigits r) (reason r) :: headerLines r ++ [CRLF].

(** ** Vocabulary for the runs of [Probe] *)

(** The identifiers [0, 1, ..., k-1]. *)
Definition upto (k : nat) : list N := map N.of_nat (seq 0 k).

(** For each write of [ws], in order, the write had no error and the
    call of [ReadRequest] for its id, on the reader that the call before
    it left, returned without error: [es] are the [expected] results and
    [br'] is the reader after the last call. *)
Inductive served (p : Prober)
  : list write -> bufio.Reader -> list bool -> bufio.Reader -> Prop :=
| served_nil (br : bufio.Reader) : served p [] br [] br
| served_cons (id : N) (ws : list write) (br br1 br2 : bufio.Reader)
    (e : bool) (es : list bool) :
    ReadRequest p id br = Ret (e, None, br1) ->
    served p ws br1 es br2 ->
    served p ((id, None) :: ws) br (e :: es) br2.

(** The results of the writer goroutine of [Probe]. *)
Definition writerGoroutine (rw : io.ReadWriter) (p : Prober)
  : Result (list write * bufio.Writer * list call) :=
  writeRequests p (N.to_nat (NumRequests p)) 0%N
    (bufio.NewWriter (io.sink rw)) [].

Definition callsOf (x : Result run) : list call :=
  match x with
  | Ret r => calls r
  | Panic _ => []
  end.

(** A prober without requests; a call of its methods would panic. *)
Definition idleProber : Prober :=
  {| NumRequests := 0%N;
     WriteRequest := fun _ _ => Panic "no request to write";
     ReadRequest := fun _ _ => Panic "no response to read" |}.


(** ** The version of Probe on textproto.Pipeline

    The other [Probe] of the repository starts [n] goroutines.  Each
    takes the next id of the pipeline, waits for its turn to write
    ([StartRequest]), calls [WriteRequest] and, when that returned no
    error, waits for its turn to read ([StartResponse]), calls
    [ReadRequest] and sends its result on the channel [results]; the
    main goroutine receives [n] results and returns at the first error.
    A state holds the writer and the reader, the two sequencers of the
    pipeline, the ids whose write failed (their goroutines never take
    their turn to read), the results that are computed and not yet
    sent, and the channel.  [NumRequests] returns an [int] there; the
    prober is taken with the same number of requests. *)
Module Pipelined.

(** [struct result { id uint; ok bool; err error }]. *)
Definition result : Type := (N * bool * option error)%type.

Record state : Type := {
  bw : bufio.Writer;
  br : bufio.Reader;
  requests : N;
  responses : N;
  failed : list N;
  finished : list result;
  results : list result
}.

Definition start (rw : io.ReadWriter) : state :=
  {| bw := bufio.NewWriter (io.sink rw);
     br := bufio.NewReader (io.incoming rw);
     requests := 0; responses := 0; failed := [];
     finished := []; results := [] |}.

(** A goroutine writes its request, reads its response, or sends its
    result. *)
Inductive step (p : Prober) : state -> state -> Prop :=
| step_write (st : state) (e : option error) (bw' : bufio.Writer) :
    (requests st < NumRequests p)%N ->
    WriteRequest p (requests st) (bw st) = Ret (e, bw') ->
    step p st
      {| bw := bw'; br := br st;
         requests := N.succ (requests st); responses := responses st;
         failed := match e with
                   | Some _ => requests st :: failed st
                   | None => failed st
                   end;
         finished := match e with
                     | Some _ => (requests st, false, e) :: finished st
                     | None => finished st
                     end;
         results := results st |}
| step_read (st : state) (ok : bool) (e : option error) (br' : bufio.Reader) :
    (responses st < requests st)%N ->
    ~ In (responses st) (failed st) ->
    ReadRequest p (responses st) (br st) = Ret (ok, e, br') ->
    step p st
      {| bw := bw st; br := br';
         requests := requests st; responses := N.succ (responses st);
         failed := failed st;
         finished := (responses st, ok, e) :: finished st;
         results := results st |}
| step_send (st : state) (d1 d2 : list result) (r : result) :
    finished st = d1 ++ r :: d2 ->
    step p st
      {| bw := bw st; br := br st;
         requests := requests st; responses := responses st;
         failed := failed st;
         finished := d1 ++ d2;
         results := results st ++ [r] |}.

Inductive reaches (p : Prober) : state -> state -> Prop :=
| reaches_refl (st : state) : reaches p st st
| reaches_step (st1 st2 st3 : state) :
    reaches p st1 st2 -> step p st2 st3 -> reaches p st1 st3.

(** The loop of the main goroutine over the first [k] results; [None]
    while it waits for a result. *)
Fixpoint collect (k : nat) (available : bool) (rs : list result)
  : option (bool * option error) :=
  match k with
  | O => Some (available, None)
  | S k' =>
    match rs with
    | [] => None
    | (_, _, Some e) :: _ => Some (false, Some e)
    | (_, ok, None) :: rs' => collect k' (available && ok) rs'
    end
  end.

(** [Probe(rw, p)] can return [out]. *)
Definition Probe (rw : io.ReadWriter) (p : Prober)
    (out : bool * option error) : Prop :=
  exists st, reaches p (start rw) st
    /\ collect (N.to_nat (NumRequests p)) true (results st) = Some out.

End Pipelined.

(** The calls of [WriteRequest] for [ids], one after the other from the
    writer [w], when none of them returns an error: the writer after
    the last. *)
Fixpoint runWrites (p : Prober) (ids : list N) (w : bufio.Writer)
  : option bufio.Writer :=
  match ids with
  | [] => Some w
  | id :: ids' =>
    match WriteRequest p id w with
    | Ret (None, w1) => runWrites p ids' w1
    | _ => None
    end
  end.

(** The same for [ReadRequest]: the [expected] results and the reader
    after the last call. *)
Fixpoint runReads (p : Prober) (ids : list N) (r : bufio.Reader)
  : option (list bool * bufio.Reader) :=
  match ids with
  | [] => Some ([], r)
  | id :: ids' =>
    match ReadRequest p id r with
    | Ret (e, None, r1) =>
      match runReads p ids' r1 with
      | Some (es, r2) => Some (e :: es, r2)
      | None => None
      end
    | _ => None
    end
  end.

(** The conjunction of the [expected] results. *)
Definition all (es : list bool) : bool := forallb (fun b => b) es.

(** The results that the goroutines send when nothing fails. *)
Definition resultsOf (ids : list N) (es : list bool) : list Pipelined.result :=
  map (fun x => (fst x, snd x, @None error)) (combine ids es).

Definition okOf (r : Pipelined.result) : bool := snd (fst r).
Definition errOf (r : Pipelined.result) : option error := snd r.

(** What holds of every state that the pipelined version reaches when no
    call fails: the writes [0 .. i-1] and the reads [0 .. j-1] were made
    in order, no write failed, and the results computed so far are those
    of the reads. *)
Definition sound (rw : io.ReadWriter) (p : Prober) (st : Pipelined.state)
  : Prop :=
  exists (i j : nat) (esj : list bool),
    Pipelined.requests st = N.of_nat i
    /\ Pipelined.responses st = N.of_nat j
    /\ (j <= i <= N.to_nat (NumRequests p))%nat
    /\ Pipelined.failed st = []
    /\ runWrites p (upto i) (bufio.NewWriter (io.sink rw))
       = Some (Pipelined.bw st)
    /\ runReads p (upto j) (io.incoming rw) = Some (esj, Pipelined.br st)
    /\ Permutation (Pipelined.finished st ++ Pipelined.results st)
         (resultsOf (upto j) esj).

(** The states of the run in which the goroutines write one after the
    other and then each reads and sends at once. *)
Definition afterWrites (rw : io.ReadWriter) (k : nat) (w : bufio.Writer)
  : Pipelined.state :=
  {| Pipelined.bw := w; Pipelined.br := io.incoming rw;
     Pipelined.requests := N.of_nat k; Pipelined.responses := 0;
     Pipelined.failed := []; Pipelined.finished := [];
     Pipelined.results := [] |}.

Definition afterReads (rw : io.ReadWriter) (p : Prober) (wN : bufio.Writer)
    (j : nat) (esj : list bool) (r : bufio.Reader) : Pipelined.state :=
  {| Pipelined.bw := wN; Pipelined.br := r;
     Pipelined.requests := NumRequests p; Pipelined.responses := N.of_nat j;
     Pipelined.failed := []; Pipelined.finished := [];
     Pipelined.results := resultsOf (upto j) esj |}.

(** ** Dial and Available

    [url.Parse], [net.Dial] and [tls.Dial] belong to the world outside
    the program: a [World] gives their results.  Of the parsed URL
    [Dial] reads [Scheme], [Hostname()] and [Port()]; a connection is an
    [io.ReadWriter]. *)
Module url.

Record URL : Type := {
  Scheme : list byte;
  Hostname : list byte;
  Port : list byte
}.

End url.

Module net.

(** [net.JoinHostPort]: a host with a colon in it, a literal IPv6
    address, is put in brackets. *)
Definition JoinHostPort (host port : list byte) : list byte :=
  match Bytes.IndexByte host ":"%byte with
  | Some _ => bytes "[" ++ host ++ bytes "]:" ++ port
  | None => host ++ bytes ":" ++ port
  end.

End net.

Record World : Type := {
  url_Parse : list byte -> error + url.URL;
  net_Dial : list byte -> list byte -> error + io.ReadWriter;
  tls_Dial : list byte -> list byte -> error + io.ReadWriter
}.

(** The port of the URL, or the port of the scheme when it names none. *)
Definition portOr (port : list byte) (byDefault : string) : list byte :=
  match port with
  | [] => bytes byDefault
  | _ => port
  end.

(** [Dial(rawurl)]: the connection, the host name and the error.  With
    an error the connection is [None]: no caller looks at the connection
    that comes with an error. *)
Definition Dial (w : World) (rawurl : list byte)
  : option io.ReadWriter * list byte * option error :=
  match url_Parse w rawurl with
  | inl e => (None, [], Some e)
  | inr u =>
    let host := url.Hostname u in
    let port := url.Port u in
    if eqBytes (url.Scheme u) (bytes "http") then
      let addr := net.JoinHostPort host (portOr port "80") in
      match net_Dial w (bytes "tcp") addr with
      | inl e => (None, host, Some e)
      | inr conn => (Some conn, host, None)
      end
    else if eqBytes (url.Scheme u) (bytes "https") then
      let addr := net.JoinHostPort host (portOr port "443") in
      match tls_Dial w (bytes "tcp") addr with
      | inl e => (None, host, Some e)
      | inr conn => (Some conn, host, None)
      end
    else
      (None, host,
       Some (errorString
               ("unsupported scheme: " ++ string_of_list_byte (url.Scheme u))))
  end.

(** [Available(rawurl)].  The deferred [conn.Close()] changes nothing
    of what is returned. *)
Definition Available (w : World) (rawurl : list byte)
  : Result (bool * option error) :=
  match Dial w rawurl with
  | (_, _, Some e) => Ret (false, Some e)
  | (Some conn, h, None) => Supported conn h
  | (None, _, None) => Panic "invalid memory address or nil pointer dereference"
  end.

(** The default prober of the version on [textproto.Pipeline]: its
    [WriteRequest] does not look at the result of [fmt.Fprintf] and
    returns the error of [w.Flush()]; [NumRequests] and [ReadRequest]
    are as above. *)
Module PipelinedProber.

Definition WriteRequest (p : optionsProber) (id : N) (w : bufio.Writer)
  : Result (option error * bufio.Writer) :=
  match id with
  | 0%N =>
    '(_, _, w1) <- bufio.Write (request "*" p) w ;;
    Ret (bufio.Flush w1)
  | 1%N =>
    '(_, _, w1) <- bufio.Write (request "." p) w ;;
    Ret (bufio.Flush w1)
  | _ => Panic "invalid id"
  end.

End PipelinedProber.


(** ** Vocabulary for the bytes on the wire *)

(** The bytes of [p] that the sink [k] takes, and the error with which
    it refuses [p] when it has no room for all of it. *)
Definition taken (k : io.Sink) (p : list byte) : list byte :=
  match io.failure k with
  | None => p
  | Some (room, _) => firstn room p
  end.

Definition refused (k : io.Sink) (p : list byte) : option error :=
  match io.failure k with
  | Some (room, e) => if (room <? List.length p)%nat then Some e else None
  | None => None
  end.

(** The sink [k] after it took [sent]. *)
Definition fed (k : io.Sink) (sent : list byte) : io.Sink :=
  {| io.written := io.written k ++ sent;
     io.failure :=
       match io.failure k with
       | None => None
       | Some (room, e) => Some ((room - List.length sent)%nat, e)
       end |}.

(** A writer on the sink [k] to which the bytes [t] were written.
    Either no write of the sink failed: a part [sent] of [t] is on the
    wire and the rest is in the buffer.  Or the sink refused: it took
    what it could of [t], and the writer keeps the error. *)
Definition carries (k : io.Sink) (t : list byte) (b : bufio.Writer) : Prop :=
  (bufio.err b = None
   /\ exists sent, t = sent ++ bufio.buf b /\ refused k sent = None
        /\ bufio.wr b = fed k sent)
  \/ (exists e, bufio.err b = Some e /\ refused k t = Some e
        /\ io.written (bufio.wr b) = io.written k ++ taken k t).

(** The two requests of the default prober, one after the other. *)
Definition requests (p : optionsProber) : list byte :=
  request "*" p ++ request "." p.

(** ** Vocabulary for the errors of the parser *)

(** The messages of the errors of [fmt.Sscanf], and the errors that the
    two calls of [parseStatus] can return: the input of both is a line
    with its newline. *)
Definition scanMessages : list string :=
  [ "input does not match format";
    "expected space in input to match format";
    "newline in input does not match format";
    "unexpected newline";
    "expected integer";
    "newline in format does not match input" ]%string.

Definition scanError (e : error) : bool :=
  match e with
  | io_EOF | strconv_ErrRange => true
  | errorString msg => existsb (String.eqb msg) scanMessages
  | _ => false
  end.

(** The errors of [parseStatus]. *)
Definition parseError (e : error) : bool :=
  match e with
  | io_EOF | bufio_ErrBufferFull | bufio_ErrNegativeCount => true
  | _ => scanError e
  end.

(** The sign that the scanner takes before the digits of a number: none,
    [+] or [-]. *)
Definition isSignOpt (sg : list byte) : bool :=
  match sg with
  | [] => true
  | [b] => Byte.eqb b "+"%byte || Byte.eqb b "-"%byte
  | _ => false
  end.

(** The text after the digits of a number does not go on with a digit. *)
Definition stopsAt (tail : list byte) : bool :=
  match tail with
  | [] => true
  | b :: _ => negb (isDigit b)
  end.

(** A Content-Length field with any text [v] after the colon. *)
Definition fieldLine (name v : list byte) : list byte :=
  name ++ ":"%byte :: v ++ [LF].

(** A visible ASCII character. *)
Definition isVisible (b : byte) : bool := (33 <=? b2z b) && (b2z b <=? 126).

(** ** Further examples *)

(** A prober that finds every response as expected although its read
    fails. *)
Definition carelessProber : Prober :=
  {| NumRequests := 1%N;
     WriteRequest := fun _ w => Ret (None, w);
     ReadRequest := fun _ r => Ret (true, Some io_ErrUnexpectedEOF, r) |}.


(** A world with a server on the local system: every URL parses to
    [http://:8080], which names no host, and the dial to [:8080] gives
    a connection. *)
Definition localWorld : World :=
  {| url_Parse := fun _ =>
       inr {| url.Scheme := bytes "http"; url.Hostname := [];
              url.Port := bytes "8080" |};
     net_Dial := fun _ addr =>
       if eqBytes addr (bytes ":8080")
       then inr (connection [])
       else inl (otherError 111);
     tls_Dial := fun _ _ => inl (otherError 111) |}.

(** * Properties *)

(** ** Lists of bytes *)

Lemma byte_eqb_eq (a b : byte) : Byte.eqb a b = true <-> a = b.
Proof.
  split.
  - apply Byte.byte_dec_bl.
  - apply Byte.byte_dec_lb.
Qed.

Lemma byte_eqb_refl (a : byte) : Byte.eqb a a = true.
Proof. now apply byte_eqb_eq. Qed.

Lemma byte_eqb_neq (a b : byte) : Byte.eqb a b = false <-> a <> b.
Proof.
  destruct (Byte.eqb a b) eqn:E.
  - apply byte_eqb_eq in E. split; [discriminate | contradiction].
  - split; [|reflexivity]. intros _ H. apply byte_eqb_eq in H. congruence.
Qed.

Lemma IndexByte_app_found (s rest : list byte) (c : byte) (i : nat) :
  Bytes.IndexByte s c = Some i -> Bytes.IndexByte (s ++ rest) c = Some i.
Proof.
  revert i. induction s as [|b t IH]; simpl; intros i H; [discriminate|].
  destruct (Byte.eqb b c); [assumption|].
  destruct (Bytes.IndexByte t c) as [j|] eqn:E; [|discriminate].
  now rewrite (IH j eq_refl).
Qed.

Lemma IndexByte_lt (s : list byte) (c : byte) (i : nat) :
  Bytes.IndexByte s c = Some i -> (i < List.length s)%nat.
Proof.
  revert i. induction s as [|b t IH]; simpl; intros i H; [discriminate|].
  destruct (Byte.eqb b c).
  - injection H as <-. lia.
  - destruct (Bytes.IndexByte t c) as [j|]; [|discriminate].
    injection H as <-. specialize (IH j eq_refl). lia.
Qed.

Lemma IndexByte_firstn (s : list byte) (c : byte) (i n : nat) :
  Bytes.IndexByte s c = Some i -> (i < n)%nat ->
  Bytes.IndexByte (firstn n s) c = Some i.
Proof.
  revert i n. induction s as [|b t IH]; simpl; intros i n H Hn; [discriminate|].
  destruct n as [|n]; [lia|]. simpl.
  destruct (Byte.eqb b c); [assumption|].
  destruct (Bytes.IndexByte t c) as [j|] eqn:E; [|discriminate].
  injection H as <-. rewrite (IH j n eq_refl); [reflexivity | lia].
Qed.

Lemma IndexByte_none_app (s rest : list byte) (c : byte) :
  Bytes.IndexByte s c = None ->
  Bytes.IndexByte (s ++ rest) c =
  match Bytes.IndexByte rest c with
  | Some i => Some (List.length s + i)%nat
  | None => None
  end.
Proof.
  induction s as [|b t IH]; simpl; intros H.
  - now destruct (Bytes.IndexByte rest c).
  - destruct (Byte.eqb b c); [discriminate|].
    destruct (Bytes.IndexByte t c) as [j|]; [discriminate|].
    rewrite (IH eq_refl). now destruct (Bytes.IndexByte rest c).
Qed.

Lemma noLF_IndexByte (l : list byte) :
  noLF l = true <-> Bytes.IndexByte l LF = None.
Proof.
  induction l as [|b t IH]; simpl; [tauto|].
  destruct (Byte.eqb b LF); simpl.
  - split; discriminate.
  - rewrite IH. destruct (Bytes.IndexByte t LF); split; congruence.
Qed.

Lemma isLine_split (line : list byte) :
  isLine line = true <-> exists l, line = l ++ [LF] /\ noLF l = true.
Proof.
  unfold isLine. split.
  - induction line as [|b t IH]; simpl; [discriminate|].
    destruct (Byte.eqb b LF) eqn:E.
    + intros H. apply Nat.eqb_eq in H. destruct t; [|discriminate].
      apply byte_eqb_eq in E. subst b. now exists [].
    + destruct (Bytes.IndexByte t LF) as [j|] eqn:Ej; [|discriminate].
      intros H. destruct (IH H) as (l & -> & Hl).
      exists (b :: l). simpl. now rewrite E.
  - intros (l & -> & Hl). apply noLF_IndexByte in Hl.
    rewrite (IndexByte_none_app _ _ _ Hl).
    replace (Bytes.IndexByte [LF] LF) with (Some O) by reflexivity.
    rewrite length_app. apply Nat.eqb_eq. simpl. lia.
Qed.

Lemma firstn_app_exact {A : Type} (l rest : list A) :
  firstn (List.length l) (l ++ rest) = l.
Proof.
  rewrite firstn_app, Nat.sub_diag, firstn_all, firstn_O. apply app_nil_r.
Qed.

Lemma skipn_app_exact {A : Type} (l rest : list A) :
  skipn (List.length l) (l ++ rest) = rest.
Proof.
  rewrite skipn_app, Nat.sub_diag, skipn_all. reflexivity.
Qed.

(** ** bufio.Reader on a stream that starts with a line *)

Lemma ReadString_line (line rest : list byte) :
  isLine line = true ->
  bufio.ReadString LF (line ++ rest) = (line, None, rest).
Proof.
  unfold isLine, bufio.ReadString. intros H.
  destruct (Bytes.IndexByte line LF) as [i|] eqn:E; [|discriminate].
  apply Nat.eqb_eq in H.
  rewrite (IndexByte_app_found _ rest _ _ E), H.
  now rewrite firstn_app_exact, skipn_app_exact.
Qed.

Lemma ReadString_noLF (s : list byte) :
  noLF s = true -> bufio.ReadString LF s = (s, Some io_EOF, []).
Proof.
  unfold bufio.ReadString. intros H. apply noLF_IndexByte in H. now rewrite H.
Qed.

Lemma ReadSlice_line (line rest : list byte) :
  isLine line = true -> fits line = true ->
  bufio.ReadSlice LF (line ++ rest) = (line, None, rest).
Proof.
  unfold isLine, fits, bufio.ReadSlice. intros H Hf.
  destruct (Bytes.IndexByte line LF) as [i|] eqn:E; [|discriminate].
  apply Nat.eqb_eq in H. apply Nat.leb_le in Hf.
  rewrite (IndexByte_firstn (line ++ rest) LF i bufio.defaultBufSize).
  - rewrite H. now rewrite firstn_app_exact, skipn_app_exact.
  - now apply IndexByte_app_found.
  - lia.
Qed.

Lemma ReadSlice_noLF (s : list byte) :
  noLF s = true -> (List.length s < bufio.defaultBufSize)%nat ->
  bufio.ReadSlice LF s = (s, Some io_EOF, []).
Proof.
  unfold bufio.ReadSlice. intros H Hlen.
  rewrite firstn_all2 by lia.
  apply noLF_IndexByte in H. rewrite H.
  destruct (Nat.leb_spec bufio.defaultBufSize (List.length s)); [lia|reflexivity].
Qed.

(** ** The scanner on digits and white space *)
Ltac zcases :=
  repeat match goal with
  | |- context [?a <? ?b] => destruct (Z.ltb_spec a b)
  | |- context [?a <=? ?b] => destruct (Z.leb_spec a b)
  | |- context [?a =? ?b] => destruct (Z.eqb_spec a b)
  end.

Lemma isSpace_spec (r : rune) :
  fmt.isSpace r = true <->
  (9 <= r <= 13 \/ r = 32 \/ r = 133 \/ r = 160 \/ r = 5760 \/
   8192 <= r <= 8202 \/ 8232 <= r <= 8233 \/ r = 8239 \/ r = 8287 \/
   r = 12288).
Proof.
  unfold fmt.isSpace, fmt.space. cbn [fmt.inRanges].
  zcases; split; intros; try discriminate; try reflexivity; lia.
Qed.

Lemma isSpace_false (r : rune) : 33 <= r <= 127 -> fmt.isSpace r = false.
Proof.
  intros H. destruct (fmt.isSpace r) eqn:E; [|reflexivity].
  apply isSpace_spec in E. lia.
Qed.

Lemma indexRune_In (ok : list rune) (r : rune) :
  fmt.indexRune ok r = true <-> In r ok.
Proof.
  unfold fmt.indexRune. rewrite existsb_exists. split.
  - intros (x & Hx & E). apply Z.eqb_eq in E. now subst.
  - intros H. exists r. split; [assumption | apply Z.eqb_refl].
Qed.

Lemma indexRune_digits (r : rune) :
  fmt.indexRune fmt.decimalDigits r = true <-> 48 <= r <= 57.
Proof.
  rewrite indexRune_In. unfold fmt.decimalDigits. cbn [In]. lia.
Qed.

Lemma indexRune_sign (r : rune) :
  fmt.indexRune fmt.sign r = true <-> (r = 43 \/ r = 45).
Proof.
  rewrite indexRune_In. unfold fmt.sign. cbn [In]. lia.
Qed.

Lemma isDigit_range (b : byte) : isDigit b = true <-> 48 <= b2z b <= 57.
Proof. unfold isDigit. rewrite andb_true_iff, !Z.leb_le. tauto. Qed.

Lemma isBlank_range (b : byte) : isBlank b = true -> b2z b = 32 \/ b2z b = 9.
Proof.
  unfold isBlank. rewrite orb_true_iff, !byte_eqb_eq.
  intros [-> | ->]; [left | right]; reflexivity.
Qed.

Lemma SkipSpace_blanks (ows : list byte) (s : fmt.input) :
  forallb isBlank ows = true ->
  fmt.SkipSpace (map b2z ows ++ s) = fmt.SkipSpace s.
Proof.
  induction ows as [|b t IH]; [reflexivity|].
  cbn [forallb map app]. rewrite andb_true_iff. intros [Hb Ht].
  apply isBlank_range in Hb. cbn [fmt.SkipSpace].
  assert (Hs : fmt.isSpace (b2z b) = true) by (apply isSpace_spec; lia).
  rewrite Hs.
  destruct (Z.eqb_spec (b2z b) 13); [lia|].
  destruct (Z.eqb_spec (b2z b) 10); [lia|].
  cbn [andb]. now apply IH.
Qed.

Lemma SkipSpace_stop (r : rune) (s : fmt.input) :
  fmt.isSpace r = false -> fmt.SkipSpace (r :: s) = inr (r :: s).
Proof.
  intros H. cbn [fmt.SkipSpace]. rewrite H.
  destruct (Z.eqb_spec r 13); [subst; discriminate|].
  destruct (Z.eqb_spec r 10); [subst; discriminate|].
  reflexivity.
Qed.

Lemma acceptAll_digits (ds : list byte) (tok : list rune) (s : fmt.input) :
  forallb isDigit ds = true -> stops s = true ->
  fmt.acceptAll fmt.decimalDigits tok (map b2z ds ++ s) = (tok ++ map b2z ds, s).
Proof.
  revert tok. induction ds as [|d t IH]; intros tok Hd Hs.
  - cbn [map app]. rewrite app_nil_r. destruct s as [|r s]; [reflexivity|].
    cbn [stops] in Hs. cbn [fmt.acceptAll].
    apply negb_true_iff in Hs. now rewrite Hs.
  - cbn [forallb] in Hd. apply andb_true_iff in Hd as [Hd Ht].
    apply isDigit_range in Hd. cbn [map app fmt.acceptAll].
    assert (E : fmt.indexRune fmt.decimalDigits (b2z d) = true)
      by (apply indexRune_digits; lia).
    rewrite E, IH by assumption. now rewrite <- app_assoc.
Qed.

Lemma digitsValue_ge (ds : list byte) (n : Z) :
  forallb isDigit ds = true -> 0 <= n -> n <= digitsValue n ds.
Proof.
  revert n. induction ds as [|d t IH]; intros n Hd Hn; cbn [digitsValue]; [lia|].
  cbn [forallb] in Hd. apply andb_true_iff in Hd as [Hd Ht].
  apply isDigit_range in Hd.
  specialize (IH (n * 10 + (b2z d - 48)) Ht). lia.
Qed.

Lemma parseUintLoop_digits (ds : list byte) (n : Z) :
  forallb isDigit ds = true -> 0 <= n ->
  digitsValue n ds <= strconv.maxUint64 ->
  strconv.parseUintLoop n (map b2z ds) = inr (digitsValue n ds).
Proof.
  revert n. induction ds as [|d t IH]; intros n Hd Hn Hv; [reflexivity|].
  cbn [forallb] in Hd. apply andb_true_iff in Hd as [Hd Ht].
  apply isDigit_range in Hd. cbn [digitsValue] in *.
  pose proof (digitsValue_ge t (n * 10 + (b2z d - 48)) Ht ltac:(lia)) as Hge.
  assert (Hc : strconv.cutoff10 = 1844674407370955162) by reflexivity.
  assert (Hm : strconv.maxUint64 = 18446744073709551615) by reflexivity.
  cbn [map strconv.parseUintLoop]. rewrite Hc, Hm in *.
  destruct (Z.leb_spec 48 (b2z d)); [|lia].
  destruct (Z.leb_spec (b2z d) 57); [|lia].
  cbn [andb].
  destruct (Z.leb_spec 1844674407370955162 n); [lia|].
  destruct (Z.ltb_spec 18446744073709551615 (n * 10 + (b2z d - 48))); [lia|].
  apply IH; [assumption | lia | assumption].
Qed.

Lemma ParseInt_digits (ds : list byte) :
  ds <> [] -> forallb isDigit ds = true -> digitsValue 0 ds <= maxInt ->
  strconv.ParseInt (map b2z ds) = inr (digitsValue 0 ds).
Proof.
  intros Hne Hd Hv. destruct ds as [|d t]; [congruence|].
  pose proof Hd as Hd0. cbn [forallb] in Hd0.
  apply andb_true_iff in Hd0 as [Hd0 _]. apply isDigit_range in Hd0.
  unfold maxInt in Hv.
  unfold strconv.ParseInt. cbn [map].
  destruct (Z.eqb_spec (b2z d) 43); [lia|].
  destruct (Z.eqb_spec (b2z d) 45); [lia|].
  cbn [orb]. unfold strconv.ParseUint.
  change (b2z d :: map b2z t) with (map b2z (d :: t)).
  rewrite parseUintLoop_digits; [| assumption | lia | unfold strconv.maxUint64; lia].
  cbn [negb andb].
  destruct (Z.leb_spec (2 ^ 63) (digitsValue 0 (d :: t))); [lia|].
  reflexivity.
Qed.

Lemma scanInt_digits (ows ds : list byte) (s : fmt.input) :
  forallb isBlank ows = true ->
  ds <> [] -> forallb isDigit ds = true -> digitsValue 0 ds <= maxInt ->
  stops s = true ->
  fmt.scanInt (map b2z ows ++ map b2z ds ++ s) = inr (digitsValue 0 ds, s).
Proof.
  intros Ho Hne Hd Hv Hs. unfold fmt.scanInt.
  rewrite SkipSpace_blanks by assumption.
  destruct ds as [|d t]; [congruence|].
  pose proof Hd as Hd0. cbn [forallb] in Hd0.
  apply andb_true_iff in Hd0 as [Hd0 Ht]. apply isDigit_range in Hd0.
  cbn [map app]. rewrite SkipSpace_stop by (apply isSpace_false; lia).
  unfold fmt.accept at 1.
  assert (E1 : fmt.indexRune fmt.sign (b2z d) = false).
  { destruct (fmt.indexRune fmt.sign (b2z d)) eqn:E; [|reflexivity].
    apply indexRune_sign in E. lia. }
  rewrite E1. unfold fmt.scanNumber, fmt.accept.
  assert (E2 : fmt.indexRune fmt.decimalDigits (b2z d) = true)
    by (apply indexRune_digits; lia).
  rewrite E2. rewrite acceptAll_digits by assumption.
  cbn [app]. change (b2z d :: map b2z t) with (map b2z (d :: t)).
  now rewrite ParseInt_digits.
Qed.

Lemma skipBlanks_blanks (ows : list byte) (s : fmt.input) :
  forallb isBlank ows = true ->
  fmt.skipBlanks (map b2z ows ++ s) = fmt.skipBlanks s.
Proof.
  induction ows as [|b t IH]; [reflexivity|].
  cbn [forallb map app]. rewrite andb_true_iff. intros [Hb Ht].
  apply isBlank_range in Hb. cbn [fmt.skipBlanks].
  assert (Hs : fmt.isSpace (b2z b) = true) by (apply isSpace_spec; lia).
  rewrite Hs. destruct (Z.eqb_spec (b2z b) 10); [lia|].
  cbn [negb andb]. now apply IH.
Qed.

Lemma stops_blanks_CRLF (ows : list byte) :
  forallb isBlank ows = true -> stops (map b2z ows ++ [13; 10]) = true.
Proof.
  destruct ows as [|b t]; [reflexivity|].
  cbn [forallb map app stops]. rewrite andb_true_iff. intros [Hb _].
  apply isBlank_range in Hb. apply negb_true_iff.
  destruct (fmt.indexRune fmt.decimalDigits (b2z b)) eqn:E; [|reflexivity].
  apply indexRune_digits in E. lia.
Qed.

(** One turn of the loop of [doScanf], and [advance] on the formats of
    the program. *)
Lemma doScanf_step (fuel : nat) (c0 : rune) (rest : list rune) (nargs : nat)
    (vals : list Z) (s : fmt.input) :
  fmt.doScanf (S fuel) (c0 :: rest) nargs vals s =
  let numProcessed := Z.of_nat (List.length vals) in
  let finish :=
    if (List.length vals <? nargs)%nat
    then (numProcessed, vals, Some (errorString "too many operands"))
    else (numProcessed, vals, None) in
  match fmt.advance (c0 :: rest) None 0 s with
  | inl e => (numProcessed, vals, Some e)
  | inr (w, s1) =>
    if 0 <? w
    then fmt.doScanf fuel (skipn (Z.to_nat w) (c0 :: rest)) nargs vals s1
    else if negb (c0 =? 37) then
      if w <? 0
      then (numProcessed, vals,
            Some (errorString "input does not match format"))
      else finish
    else
      match rest with
      | c :: rest' =>
        if negb (c =? 100) then (numProcessed, vals, Some fmt.errUnmodelled)
        else
          match fmt.SkipSpace s1 with
          | inl e => (numProcessed, vals, Some e)
          | inr s2 =>
            if (nargs <=? List.length vals)%nat
            then (numProcessed, vals,
                  Some (errorString "too few operands for format '%d'"))
            else
              match fmt.scanInt s2 with
              | inl e => (numProcessed, vals, Some e)
              | inr (v, s3) => fmt.doScanf fuel rest' nargs (vals ++ [v]) s3
              end
          end
      | _ => (numProcessed, vals, Some fmt.errUnmodelled)
      end
  end.
Proof. reflexivity. Qed.

Lemma advance_verb (rest : list rune) (s : fmt.input) :
  fmt.advance (37 :: 100 :: rest) None 0 s = inr (0, s).
Proof. reflexivity. Qed.

Lemma advance_newline (s : fmt.input) :
  fmt.advance [13; 10] None 0 s =
  match fmt.matchSpaces 1 false s with
  | inl e => inl e
  | inr s1 => inr (2, s1)
  end.
Proof. reflexivity. Qed.

Lemma advance_status (s : fmt.input) :
  fmt.advance statusFormat None 0 (statusLiteral ++ s) =
  match fmt.matchSpaces 0 true s with
  | inl e => inl e
  | inr s1 => inr (9, s1)
  end.
Proof. reflexivity. Qed.

Lemma doScanf_verb (fuel : nat) (rest : list rune) (nargs : nat)
    (vals : list Z) (s : fmt.input) :
  fmt.doScanf (S fuel) (37 :: 100 :: rest) nargs vals s =
  match fmt.SkipSpace s with
  | inl e => (Z.of_nat (List.length vals), vals, Some e)
  | inr s2 =>
    if (nargs <=? List.length vals)%nat
    then (Z.of_nat (List.length vals), vals,
          Some (errorString "too few operands for format '%d'"))
    else
      match fmt.scanInt s2 with
      | inl e => (Z.of_nat (List.length vals), vals, Some e)
      | inr (v, s3) => fmt.doScanf fuel rest nargs (vals ++ [v]) s3
      end
  end.
Proof. rewrite doScanf_step, advance_verb. reflexivity. Qed.

Lemma doScanf_value_eq (s : fmt.input) :
  fmt.doScanf 5 valueFormat 1 [] s =
  match fmt.SkipSpace s with
  | inl e => (0, [], Some e)
  | inr s2 =>
    match fmt.scanInt s2 with
    | inl e => (0, [], Some e)
    | inr (v, s3) =>
      match fmt.matchSpaces 1 false s3 with
      | inl e => (1, [v], Some e)
      | inr _ => (1, [v], None)
      end
    end
  end.
Proof.
  unfold valueFormat. rewrite doScanf_verb.
  destruct (fmt.SkipSpace s) as [e|s2]; [reflexivity|].
  cbn [List.length Nat.leb].
  destruct (fmt.scanInt s2) as [e|[v s3]]; [reflexivity|].
  rewrite doScanf_step, advance_newline.
  destruct (fmt.matchSpaces 1 false s3); reflexivity.
Qed.

Lemma doScanf_status_eq (s : fmt.input) :
  fmt.doScanf 12 statusFormat 1 [] (statusLiteral ++ s) =
  match fmt.matchSpaces 0 true s with
  | inl e => (0, [], Some e)
  | inr s1 =>
    match fmt.SkipSpace s1 with
    | inl e => (0, [], Some e)
    | inr s2 =>
      match fmt.scanInt s2 with
      | inl e => (0, [], Some e)
      | inr (v, _) => (1, [v], None)
      end
    end
  end.
Proof.
  unfold statusFormat. rewrite doScanf_step, advance_status.
  destruct (fmt.matchSpaces 0 true s) as [e|s1]; [reflexivity|].
  change (fmt.doScanf 11 [37; 100] 1 [] s1 = match fmt.SkipSpace s1 with
    | inl e => (0, [], Some e)
    | inr s2 => match fmt.scanInt s2 with
                | inl e => (0, [], Some e)
                | inr (v, _) => (1, [v], None)
                end
    end).
  rewrite doScanf_verb.
  destruct (fmt.SkipSpace s1) as [e|s2]; [reflexivity|].
  cbn [List.length Nat.leb].
  destruct (fmt.scanInt s2) as [e|[v s3]]; reflexivity.
Qed.

(** A status line that does not start with the literal of the format. *)
Lemma matchSpaces_blank_digits (ds : list byte) (s : fmt.input) :
  ds <> [] -> forallb isDigit ds = true ->
  fmt.matchSpaces 0 true (32 :: map b2z ds ++ s) = inr (map b2z ds ++ s).
Proof.
  intros Hne Hd. destruct ds as [|d t]; [congruence|].
  cbn [forallb] in Hd. apply andb_true_iff in Hd as [Hd _].
  apply isDigit_range in Hd.
  unfold fmt.matchSpaces. cbn [fmt.matchNewlines].
  replace (fmt.isSpace 32) with true by reflexivity.
  replace (32 =? 10) with false by reflexivity. cbn [negb].
  cbn [fmt.skipBlanks map app].
  replace (fmt.isSpace 32) with true by reflexivity.
  replace (32 =? 10) with false by reflexivity. cbn [negb andb].
  now rewrite isSpace_false by lia.
Qed.

Lemma matchSpaces_newline (ows : list byte) :
  forallb isBlank ows = true ->
  fmt.matchSpaces 1 false (map b2z ows ++ [13; 10]) = inr [].
Proof.
  intros Ho. unfold fmt.matchSpaces. cbn [fmt.matchNewlines].
  unfold fmt.matchNewline. rewrite skipBlanks_blanks by assumption.
  reflexivity.
Qed.

Lemma doScanf_value (ows1 ds ows2 : list byte) :
  forallb isBlank ows1 = true -> forallb isBlank ows2 = true ->
  ds <> [] -> forallb isDigit ds = true -> digitsValue 0 ds <= maxInt ->
  fmt.doScanf 5 valueFormat 1 []
    (map b2z ows1 ++ map b2z ds ++ map b2z ows2 ++ [13; 10])
  = (1, [digitsValue 0 ds], None).
Proof.
  intros H1 H2 Hne Hd Hv. rewrite doScanf_value_eq.
  rewrite SkipSpace_blanks by assumption.
  destruct ds as [|d t] eqn:Eds; [congruence|]. rewrite <- Eds in *.
  assert (Hd0 : 48 <= b2z d <= 57).
  { rewrite Eds in Hd. cbn [forallb] in Hd.
    apply andb_true_iff in Hd as [Hd _]. now apply isDigit_range. }
  assert (Hs : fmt.SkipSpace (map b2z ds ++ map b2z ows2 ++ [13; 10])
               = inr (map b2z ds ++ map b2z ows2 ++ [13; 10])).
  { rewrite Eds. cbn [map app]. apply SkipSpace_stop, isSpace_false. lia. }
  rewrite Hs.
  pose proof (scanInt_digits [] ds (map b2z ows2 ++ [13; 10]) eq_refl Hne Hd Hv
                (stops_blanks_CRLF ows2 H2)) as Hi.
  cbn [map app] in Hi. rewrite Hi.
  now rewrite matchSpaces_newline.
Qed.

Lemma doScanf_status (ds : list byte) (s : fmt.input) :
  ds <> [] -> forallb isDigit ds = true -> digitsValue 0 ds <= maxInt ->
  stops s = true ->
  fmt.doScanf 12 statusFormat 1 [] (statusLiteral ++ 32 :: map b2z ds ++ s)
  = (1, [digitsValue 0 ds], None).
Proof.
  intros Hne Hd Hv Hs. rewrite doScanf_status_eq.
  rewrite matchSpaces_blank_digits by assumption.
  destruct ds as [|d t] eqn:Eds; [congruence|]. rewrite <- Eds in *.
  assert (Hd0 : 48 <= b2z d <= 57).
  { rewrite Eds in Hd. cbn [forallb] in Hd.
    apply andb_true_iff in Hd as [Hd _]. now apply isDigit_range. }
  assert (Hk : fmt.SkipSpace (map b2z ds ++ s) = inr (map b2z ds ++ s)).
  { rewrite Eds. cbn [map app]. apply SkipSpace_stop, isSpace_false. lia. }
  rewrite Hk.
  pose proof (scanInt_digits [] ds s eq_refl Hne Hd Hv Hs) as Hi.
  cbn [map app] in Hi. now rewrite Hi.
Qed.

(** ** Strings of ASCII characters under the scanner *)

Lemma decodeRunes_ascii (l rest : list byte) :
  forallb isAscii l = true ->
  utf8.decodeRunes (l ++ rest) = map b2z l ++ utf8.decodeRunes rest.
Proof.
  induction l as [|b t IH]; [reflexivity|].
  cbn [forallb]. rewrite andb_true_iff. intros [Hb Ht].
  unfold isAscii in Hb. cbn [app map utf8.decodeRunes].
  rewrite Hb. now rewrite IH.
Qed.

Lemma decodeRunes_ascii_all (l : list byte) :
  forallb isAscii l = true -> utf8.decodeRunes l = map b2z l.
Proof.
  intros H. rewrite <- (app_nil_r l) at 1.
  rewrite decodeRunes_ascii by assumption. apply app_nil_r.
Qed.

Lemma limit_app (pre s : fmt.input) (n : Z) :
  Z.of_nat (List.length pre) <= n ->
  fmt.limit n (pre ++ s) = pre ++ fmt.limit (n - Z.of_nat (List.length pre)) s.
Proof.
  revert n. induction pre as [|r t IH]; intros n Hn.
  - cbn [app List.length]. now rewrite Z.sub_0_r.
  - cbn [app List.length fmt.limit] in *.
    destruct (Z.leb_spec n 0); [lia|].
    rewrite IH by lia. do 3 f_equal. lia.
Qed.

Lemma limit_all (s : fmt.input) (n : Z) :
  Z.of_nat (List.length s) <= n -> fmt.limit n s = s.
Proof.
  intros H. rewrite <- (app_nil_r s) at 1.
  rewrite limit_app by assumption. cbn [fmt.limit]. apply app_nil_r.
Qed.

Lemma isDigit_isAscii (ds : list byte) :
  forallb isDigit ds = true -> forallb isAscii ds = true.
Proof.
  rewrite !forallb_forall. intros H b Hb. specialize (H b Hb).
  apply isDigit_range in H. unfold isAscii. apply Z.ltb_lt. lia.
Qed.

Lemma isBlank_isAscii (l : list byte) :
  forallb isBlank l = true -> forallb isAscii l = true.
Proof.
  rewrite !forallb_forall. intros H b Hb. specialize (H b Hb).
  apply isBlank_range in H. unfold isAscii. apply Z.ltb_lt. lia.
Qed.

Lemma forallb_app_intro {A : Type} (f : A -> bool) (l1 l2 : list A) :
  forallb f l1 = true -> forallb f l2 = true -> forallb f (l1 ++ l2) = true.
Proof. intros H1 H2. rewrite forallb_app, H1, H2. reflexivity. Qed.

(** The status line of a response gives its three-digit code. *)
Lemma Sscanf_statusLine (d1 d2 d3 : byte) (reason : list byte) :
  isDigit d1 = true -> isDigit d2 = true -> isDigit d3 = true ->
  fmt.Sscanf (statusLine [d1; d2; d3] reason) (bytes "HTTP/1.1 %d")
  = (1, digitsValue 0 [d1; d2; d3], None).
Proof.
  intros H1 H2 H3. unfold fmt.Sscanf, statusLine.
  change (utf8.decodeRunes (bytes "HTTP/1.1 %d")) with statusFormat.
  change (S (List.length statusFormat)) with 12%nat.
  change (bytes "HTTP/1.1 " ++ [d1; d2; d3] ++ " "%byte :: reason ++ CRLF)
    with ((bytes "HTTP/1.1 " ++ [d1; d2; d3] ++ [" "%byte])
            ++ reason ++ CRLF).
  assert (Hd : forallb isDigit [d1; d2; d3] = true)
    by (cbn [forallb]; now rewrite H1, H2, H3).
  rewrite decodeRunes_ascii.
  2:{ apply forallb_app_intro; [reflexivity|].
      apply forallb_app_intro; [now apply isDigit_isAscii | reflexivity]. }
  rewrite limit_app by (cbn; unfold fmt.hugeWid; lia).
  match goal with
  | |- context [fmt.limit ?a ?b] => generalize (fmt.limit a b)
  end.
  intros X.
  change (map b2z (bytes "HTTP/1.1 " ++ [d1; d2; d3] ++ [" "%byte]) ++ X)
    with (statusLiteral ++ 32 :: map b2z [d1; d2; d3] ++ 32 :: X).
  rewrite doScanf_status; [reflexivity | discriminate | assumption | | reflexivity].
  apply isDigit_range in H1, H2, H3. unfold maxInt. cbn [digitsValue]. lia.
Qed.

(** ** Lower case and the Content-Length prefix *)

Lemma toLower_LF (b : byte) : Byte.eqb (Bytes.toLower b) LF = Byte.eqb b LF.
Proof. destruct b; reflexivity. Qed.

Lemma toLower_c (b : byte) :
  Bytes.toLower b = bytec -> b = byteC \/ b = bytec.
Proof. destruct b; intros H; try discriminate H; auto. Qed.

Lemma toLower_fixed (b : byte) :
  isDigit b || isBlank b || Byte.eqb b CR || Byte.eqb b LF = true ->
  Bytes.toLower b = b.
Proof. destruct b; intros H; try discriminate H; reflexivity. Qed.

Lemma ToLower_fixed (l : list byte) :
  forallb (fun b => isDigit b || isBlank b || Byte.eqb b CR || Byte.eqb b LF) l
  = true ->
  Bytes.ToLower l = l.
Proof.
  induction l as [|b t IH]; [reflexivity|].
  cbn [forallb]. rewrite andb_true_iff. intros [Hb Ht].
  unfold Bytes.ToLower in *. cbn [map].
  now rewrite toLower_fixed, IH.
Qed.

Lemma noLF_ToLower (l : list byte) : noLF (Bytes.ToLower l) = noLF l.
Proof.
  unfold noLF, Bytes.ToLower.
  induction l as [|b t IH]; [reflexivity|].
  cbn [map forallb]. now rewrite toLower_LF, IH.
Qed.

Lemma HasPrefix_app (p rest : list byte) : Bytes.HasPrefix (p ++ rest) p = true.
Proof.
  induction p as [|b t IH]; [now destruct rest|].
  cbn [app Bytes.HasPrefix]. now rewrite byte_eqb_refl, IH.
Qed.

Lemma HasPrefix_length (s p : list byte) :
  Bytes.HasPrefix s p = true -> (List.length p <= List.length s)%nat.
Proof.
  revert s. induction p as [|b t IH]; intros s H; cbn [List.length]; [lia|].
  destruct s as [|c s]; [discriminate|]. cbn [Bytes.HasPrefix] in H.
  apply andb_true_iff in H as [_ H]. specialize (IH s H).
  cbn [List.length]. lia.
Qed.

Lemma isContentLength_first (line : list byte) :
  isContentLength line = true ->
  exists a t, line = a :: t /\ (a = byteC \/ a = bytec).
Proof.
  unfold isContentLength. destruct line as [|a t]; [discriminate|].
  unfold Bytes.ToLower. cbn [map]. intros H.
  change contentLengthPrefix with (bytec :: bytes "ontent-length:") in H.
  cbn [Bytes.HasPrefix] in H. apply andb_true_iff in H as [H _].
  apply byte_eqb_eq in H. exists a, t. split; [reflexivity|].
  now apply toLower_c.
Qed.

Lemma isCRLF_inv (line : list byte) : isCRLF line = true -> line = CRLF.
Proof.
  destruct line as [|a [|b [|c t]]]; try discriminate.
  cbn [isCRLF]. rewrite andb_true_iff, !byte_eqb_eq. now intros [-> ->].
Qed.

(** The test of [parseStatus] for the end of the header block. *)
Lemma blank_test (a : byte) (t : list byte) :
  (List.length (a :: t) =? 2)%nat && Byte.eqb a CR
    && Byte.eqb (nth 1 (a :: t) LF) LF
  = isCRLF (a :: t).
Proof.
  destruct t as [|b [|c t]]; cbn [List.length nth isCRLF Nat.eqb].
  - now rewrite andb_false_l.
  - reflexivity.
  - now rewrite andb_false_l.
Qed.

Lemma isLine_nonempty (line : list byte) :
  isLine line = true -> exists a t, line = a :: t.
Proof. destruct line as [|a t]; [discriminate | eauto]. Qed.

(** ** The header loop, line by line *)

Lemma readHeaders_blank (fuel : nat) (cl : Z) (found : bool)
    (rest : list byte) :
  readHeaders (S fuel) cl found (CRLF ++ rest) = Ret (inr cl, rest).
Proof.
  cbn [readHeaders].
  rewrite (ReadSlice_line CRLF rest) by reflexivity.
  reflexivity.
Qed.

Lemma readHeaders_skip (fuel : nat) (cl : Z) (found : bool)
    (line rest : list byte) :
  headerLine line = true -> fits line = true ->
  found || negb (isContentLength line) = true ->
  readHeaders (S fuel) cl found (line ++ rest) = readHeaders fuel cl found rest.
Proof.
  unfold headerLine. rewrite andb_true_iff, negb_true_iff.
  intros [Hl Hb] Hf Hs. cbn [readHeaders].
  rewrite ReadSlice_line by assumption.
  destruct (isLine_nonempty line Hl) as (a & t & ->).
  rewrite blank_test, Hb.
  destruct found; [reflexivity|]. cbn [orb] in *.
  apply negb_true_iff in Hs. unfold isContentLength in Hs. rewrite Hs.
  now destruct (negb (Byte.eqb a byteC) && negb (Byte.eqb a bytec)).
Qed.

Lemma readHeaders_length (fuel : nat) (cl : Z) (line rest : list byte) :
  isLine line = true -> fits line = true -> isContentLength line = true ->
  readHeaders (S fuel) cl false (line ++ rest) =
  match fmt.Sscanf (skipn (List.length contentLengthPrefix) (Bytes.ToLower line))
          (bytes "%d" ++ CRLF) with
  | (_, _, Some e) => Ret (inl e, rest)
  | (n, v, None) =>
    if negb (n =? 1) then Ret (inl (errorString "no content length"), rest)
    else readHeaders fuel v true rest
  end.
Proof.
  intros Hl Hf Hc. cbn [readHeaders].
  rewrite ReadSlice_line by assumption.
  destruct (isContentLength_first line Hc) as (a & t & -> & Ha).
  rewrite blank_test.
  assert (Hb : isCRLF (a :: t) = false).
  { destruct (isCRLF (a :: t)) eqn:E; [|reflexivity].
    apply isCRLF_inv in E. rewrite E in Hc. discriminate Hc. }
  rewrite Hb. cbn [orb].
  assert (Hn : negb (Byte.eqb a byteC) && negb (Byte.eqb a bytec) = false).
  { destruct Ha as [-> | ->]; reflexivity. }
  rewrite Hn. unfold isContentLength in Hc. rewrite Hc. reflexivity.
Qed.

(** More fuel does not change a result. *)
Lemma readHeaders_fuel (fuel : nat) :
  forall (cl : Z) (found : bool) (r : bufio.Reader) x,
  readHeaders fuel cl found r = Ret x ->
  forall fuel', (fuel <= fuel')%nat -> readHeaders fuel' cl found r = Ret x.
Proof.
  induction fuel as [|fuel IH]; intros cl found r x H fuel' Hle;
    [discriminate|].
  destruct fuel' as [|fuel']; [lia|].
  cbn [readHeaders] in *.
  destruct (bufio.ReadSlice LF r) as [[line e] r1].
  destruct e; [assumption|].
  destruct line as [|a t]; [assumption|].
  destruct ((List.length (a :: t) =? 2)%nat && Byte.eqb a CR
            && Byte.eqb (nth 1 (a :: t) LF) LF); [assumption|].
  destruct (found || negb (Byte.eqb a byteC) && negb (Byte.eqb a bytec)).
  - apply IH; [assumption | lia].
  - destruct (Bytes.HasPrefix (Bytes.ToLower (a :: t)) contentLengthPrefix).
    + destruct (fmt.Sscanf _ _) as [[n v] [e|]]; [assumption|].
      destruct (negb (n =? 1)); [assumption|].
      apply IH; [assumption | lia].
    + apply IH; [assumption | lia].
Qed.

Lemma ReadSlice_shorter (r : bufio.Reader) line r1 :
  bufio.ReadSlice LF r = (line, None, r1) ->
  line <> [] /\ (List.length r1 < List.length r)%nat.
Proof.
  unfold bufio.ReadSlice.
  destruct (Bytes.IndexByte (firstn bufio.defaultBufSize r) LF) as [i|] eqn:E.
  - intros H. injection H as <- <-.
    apply IndexByte_lt in E. rewrite length_firstn in E.
    destruct r as [|b r]; [cbn in E; lia|].
    split; [discriminate|]. rewrite length_skipn. cbn [List.length]. lia.
  - destruct (bufio.defaultBufSize <=? List.length r)%nat; discriminate.
Qed.

(** The fuel that [parseStatus] gives is enough: the loop ends. *)
Lemma readHeaders_total (fuel : nat) :
  forall (cl : Z) (found : bool) (r : bufio.Reader),
  (List.length r < fuel)%nat -> exists x, readHeaders fuel cl found r = Ret x.
Proof.
  induction fuel as [|fuel IH]; intros cl found r Hlen; [lia|].
  cbn [readHeaders].
  destruct (bufio.ReadSlice LF r) as [[line e] r1] eqn:E.
  destruct e; [eauto|].
  apply ReadSlice_shorter in E as [Hne Hlt].
  destruct line as [|a t]; [congruence|].
  destruct ((List.length (a :: t) =? 2)%nat && Byte.eqb a CR
            && Byte.eqb (nth 1 (a :: t) LF) LF); [eauto|].
  destruct (found || negb (Byte.eqb a byteC) && negb (Byte.eqb a bytec)).
  - apply IH. lia.
  - destruct (Bytes.HasPrefix (Bytes.ToLower (a :: t)) contentLengthPrefix).
    + destruct (fmt.Sscanf _ _) as [[n v] [e|]]; [eauto|].
      destruct (negb (n =? 1)); [eauto|]. apply IH. lia.
    + apply IH. lia.
Qed.

(** ** The lines of a response *)

Lemma eqBytes_eq (a b : list byte) : eqBytes a b = true -> a = b.
Proof.
  revert b. induction a as [|x a IH]; intros [|y b] H; try discriminate H;
    [reflexivity|].
  cbn [eqBytes] in H. apply andb_true_iff in H as [Hx H].
  apply byte_eqb_eq in Hx. subst. f_equal. now apply IH.
Qed.

Lemma noLF_app (a b : list byte) : noLF (a ++ b) = noLF a && noLF b.
Proof. apply forallb_app. Qed.

Lemma noLF_digits (ds : list byte) : forallb isDigit ds = true -> noLF ds = true.
Proof.
  unfold noLF. rewrite !forallb_forall. intros H b Hb.
  specialize (H b Hb). apply isDigit_range in H.
  apply negb_true_iff, byte_eqb_neq. intros ->. cbn in H. lia.
Qed.

Lemma noLF_blanks (l : list byte) : forallb isBlank l = true -> noLF l = true.
Proof.
  unfold noLF. rewrite !forallb_forall. intros H b Hb.
  specialize (H b Hb). apply isBlank_range in H.
  apply negb_true_iff, byte_eqb_neq. intros ->. cbn in H. lia.
Qed.

Lemma isLine_intro (l : list byte) : noLF l = true -> isLine (l ++ [LF]) = true.
Proof. intros H. apply isLine_split. now exists l. Qed.

Lemma isLine_statusLine (ds reason : list byte) :
  forallb isDigit ds = true -> noLF reason = true ->
  isLine (statusLine ds reason) = true.
Proof.
  intros Hd Hr. unfold statusLine, CRLF.
  change (bytes "HTTP/1.1 " ++ ds ++ " "%byte :: reason ++ [CR; LF])
    with (bytes "HTTP/1.1 " ++ ds ++ [" "%byte] ++ reason ++ [CR] ++ [LF]).
  rewrite !app_assoc. apply isLine_intro.
  rewrite !noLF_app, (noLF_digits ds Hd), Hr. reflexivity.
Qed.

Section LengthLine.

Variables name pad1 digits pad2 : list byte.
Hypothesis Hname : Bytes.ToLower name = bytes "content-length".
Hypothesis Hpad1 : forallb isBlank pad1 = true.
Hypothesis Hpad2 : forallb isBlank pad2 = true.
Hypothesis Hdigits : forallb isDigit digits = true.

Lemma ToLower_app (a b : list byte) :
  Bytes.ToLower (a ++ b) = Bytes.ToLower a ++ Bytes.ToLower b.
Proof. apply map_app. Qed.

Lemma ToLower_value :
  Bytes.ToLower (pad1 ++ digits ++ pad2 ++ CRLF) = pad1 ++ digits ++ pad2 ++ CRLF.
Proof.
  apply ToLower_fixed. rewrite !forallb_app.
  repeat (apply andb_true_iff; split); try reflexivity.
  - rewrite forallb_forall in *. intros b Hb.
    now rewrite (Hpad1 b Hb), orb_true_r.
  - rewrite forallb_forall in *. intros b Hb. now rewrite (Hdigits b Hb).
  - rewrite forallb_forall in *. intros b Hb.
    now rewrite (Hpad2 b Hb), orb_true_r.
Qed.

Lemma ToLower_lengthLine :
  Bytes.ToLower (lengthLine name pad1 digits pad2)
  = contentLengthPrefix ++ pad1 ++ digits ++ pad2 ++ CRLF.
Proof.
  unfold lengthLine.
  change (name ++ ":"%byte :: pad1 ++ digits ++ pad2 ++ CRLF)
    with (name ++ [":"%byte] ++ pad1 ++ digits ++ pad2 ++ CRLF).
  rewrite (ToLower_app name), (ToLower_app [":"%byte]), Hname, ToLower_value.
  reflexivity.
Qed.

Lemma isContentLength_lengthLine :
  isContentLength (lengthLine name pad1 digits pad2) = true.
Proof.
  unfold isContentLength. rewrite ToLower_lengthLine. apply HasPrefix_app.
Qed.

Lemma isLine_lengthLine : isLine (lengthLine name pad1 digits pad2) = true.
Proof.
  unfold lengthLine, CRLF.
  change (name ++ ":"%byte :: pad1 ++ digits ++ pad2 ++ [CR; LF])
    with (name ++ [":"%byte] ++ pad1 ++ digits ++ pad2 ++ [CR] ++ [LF]).
  rewrite !app_assoc. apply isLine_intro.
  rewrite !noLF_app, (noLF_digits digits Hdigits), (noLF_blanks pad1 Hpad1),
    (noLF_blanks pad2 Hpad2).
  rewrite <- noLF_ToLower, Hname. reflexivity.
Qed.

(** The value of the field, as [parseStatus] scans it. *)
Lemma Sscanf_lengthLine :
  digits <> [] -> digitsValue 0 digits <= maxInt ->
  fits (lengthLine name pad1 digits pad2) = true ->
  fmt.Sscanf
    (skipn (List.length contentLengthPrefix)
       (Bytes.ToLower (lengthLine name pad1 digits pad2)))
    (bytes "%d" ++ CRLF)
  = (1, digitsValue 0 digits, None).
Proof.
  intros Hne Hv Hf. rewrite ToLower_lengthLine, skipn_app_exact.
  unfold fmt.Sscanf.
  change (utf8.decodeRunes (bytes "%d" ++ CRLF)) with valueFormat.
  change (S (List.length valueFormat)) with 5%nat.
  assert (Ha : forallb isAscii (pad1 ++ digits ++ pad2 ++ CRLF) = true).
  { repeat apply forallb_app_intro;
      auto using isBlank_isAscii, isDigit_isAscii. }
  rewrite decodeRunes_ascii_all by assumption.
  rewrite limit_all.
  - rewrite !map_app. change (map b2z CRLF) with [13; 10].
    now rewrite doScanf_value.
  - rewrite length_map. unfold fits, lengthLine in Hf.
    apply Nat.leb_le in Hf. rewrite length_app in Hf. cbn [List.length] in Hf.
    assert (Hb : Z.of_nat bufio.defaultBufSize = 4096) by reflexivity.
    unfold fmt.hugeWid. change (2 ^ 30) with 1073741824.
    rewrite !length_app in *. cbn [List.length] in *. lia.
Qed.

End LengthLine.

(** ** The header block and the body *)

Lemma readHeaders_lines (hs : list (list byte)) :
  forall (fuel : nat) (cl : Z) (found : bool) (rest : list byte),
  forallb headerLine hs = true -> forallb fits hs = true ->
  found || forallb (fun l => negb (isContentLength l)) hs = true ->
  readHeaders (List.length hs + fuel) cl found (List.concat hs ++ rest)
  = readHeaders fuel cl found rest.
Proof.
  induction hs as [|h hs IH]; intros fuel cl found rest Hh Hf Hs;
    [reflexivity|].
  cbn [forallb] in Hh, Hf, Hs.
  apply andb_true_iff in Hh as [Hh Hhs]. apply andb_true_iff in Hf as [Hf Hfs].
  cbn [List.length List.concat Nat.add]. rewrite <- app_assoc.
  rewrite readHeaders_skip; [| assumption | assumption |].
  - apply IH; [assumption | assumption |].
    destruct found; [reflexivity|]. cbn [orb] in *.
    now apply andb_true_iff in Hs as [_ Hs].
  - destruct found; [reflexivity|]. cbn [orb] in *.
    now apply andb_true_iff in Hs as [Hs _].
Qed.

Lemma headerLine_nonempty (hs : list (list byte)) :
  forallb headerLine hs = true ->
  (List.length hs <= List.length (List.concat hs))%nat.
Proof.
  induction hs as [|h hs IH]; intros H; [cbn; lia|].
  cbn [forallb] in H. apply andb_true_iff in H as [Hh Hhs].
  unfold headerLine in Hh. apply andb_true_iff in Hh as [Hh _].
  destruct (isLine_nonempty h Hh) as (a & t & ->).
  specialize (IH Hhs). cbn [List.concat List.length].
  rewrite length_app. cbn [List.length]. lia.
Qed.

Lemma otherHeader_split (hs : list (list byte)) :
  forallb otherHeader hs = true ->
  forallb headerLine hs = true
  /\ forallb (fun l => negb (isContentLength l)) hs = true.
Proof.
  induction hs as [|h hs IH]; intros H; [split; reflexivity|].
  cbn [forallb] in *. apply andb_true_iff in H as [Hh Hhs].
  unfold otherHeader in Hh. apply andb_true_iff in Hh as [H1 H2].
  destruct (IH Hhs) as [IH1 IH2]. now rewrite H1, H2, IH1, IH2.
Qed.

Lemma Discard_body (body rest : list byte) :
  bufio.Discard (Z.of_nat (List.length body)) (body ++ rest)
  = (Z.of_nat (List.length body), None, rest).
Proof.
  unfold bufio.Discard.
  destruct (Z.ltb_spec (Z.of_nat (List.length body)) 0); [lia|].
  destruct (Z.eqb_spec (Z.of_nat (List.length body)) 0) as [E|E].
  - destruct body; [now rewrite E | cbn [List.length] in E; lia].
  - rewrite length_app.
    destruct (Z.leb_spec (Z.of_nat (List.length body))
                (Z.of_nat (List.length body + List.length rest))); [|lia].
    now rewrite Nat2Z.id, skipn_app_exact.
Qed.

Lemma Discard_short (n : Z) (r : bufio.Reader) :
  Z.of_nat (List.length r) < n ->
  bufio.Discard n r = (Z.of_nat (List.length r), Some io_EOF, []).
Proof.
  intros H. unfold bufio.Discard.
  destruct (Z.ltb_spec n 0); [lia|].
  destruct (Z.eqb_spec n 0); [lia|].
  destruct (Z.leb_spec n (Z.of_nat (List.length r))); [lia|reflexivity].
Qed.

(** [parseStatus] after a well-formed status line. *)
Lemma parseStatus_statusLine (d1 d2 d3 : byte) (reason r1 : list byte) :
  isDigit d1 = true -> isDigit d2 = true -> isDigit d3 = true ->
  noLF reason = true ->
  parseStatus (statusLine [d1; d2; d3] reason ++ r1) =
  '(res, r2) <- readHeaders (S (List.length r1)) 0 false r1 ;;
  match res with
  | inl e => Ret (0, Some e, r2)
  | inr contentLength =>
    match bufio.Discard contentLength r2 with
    | (_, Some e, r3) => Ret (0, Some e, r3)
    | (_, None, r3) => Ret (digitsValue 0 [d1; d2; d3], None, r3)
    end
  end.
Proof.
  intros H1 H2 H3 Hr. unfold parseStatus.
  rewrite ReadString_line.
  2:{ apply isLine_statusLine; [|assumption].
      cbn [forallb]. now rewrite H1, H2, H3. }
  now rewrite Sscanf_statusLine.
Qed.

(** The header block of a response that announces its length. *)
Lemma readHeaders_length_block (fuel : nat) (fs ts : list (list byte))
    (name pad1 digits pad2 rest : list byte) :
  forallb otherHeader fs = true -> forallb fits fs = true ->
  Bytes.ToLower name = bytes "content-length" ->
  forallb isBlank pad1 = true -> forallb isBlank pad2 = true ->
  digits <> [] -> forallb isDigit digits = true ->
  digitsValue 0 digits <= maxInt ->
  fits (lengthLine name pad1 digits pad2) = true ->
  forallb headerLine ts = true -> forallb fits ts = true ->
  (List.length (List.concat fs ++ lengthLine name pad1 digits pad2
                ++ List.concat ts ++ CRLF ++ rest) < fuel)%nat ->
  readHeaders fuel 0 false
    (List.concat fs ++ lengthLine name pad1 digits pad2
     ++ List.concat ts ++ CRLF ++ rest)
  = Ret (inr (digitsValue 0 digits), rest).
Proof.
  intros Hfs Hfit Hname Hp1 Hp2 Hne Hd Hv Hfl Hts Hfitt Hfuel.
  destruct (otherHeader_split fs Hfs) as [Hh Hn].
  apply readHeaders_fuel
    with (fuel := (List.length fs + S (List.length ts + 1))%nat).
  - rewrite readHeaders_lines by assumption.
    rewrite readHeaders_length;
      auto using isLine_lengthLine, isContentLength_lengthLine.
    rewrite Sscanf_lengthLine by assumption. cbn [negb Z.eqb Pos.eqb].
    rewrite readHeaders_lines by (assumption || reflexivity).
    apply readHeaders_blank.
  - pose proof (headerLine_nonempty fs Hh) as L1.
    pose proof (headerLine_nonempty ts Hts) as L2.
    rewrite !length_app in Hfuel. cbn [List.length] in Hfuel.
    unfold lengthLine in Hfuel. rewrite !length_app in Hfuel.
    cbn [List.length] in Hfuel. lia.
Qed.

(** The header block of a response without a Content-Length field. *)
Lemma readHeaders_plain_block (fuel : nat) (fs : list (list byte))
    (rest : list byte) :
  forallb otherHeader fs = true -> forallb fits fs = true ->
  (List.length (List.concat fs ++ CRLF ++ rest) < fuel)%nat ->
  readHeaders fuel 0 false (List.concat fs ++ CRLF ++ rest) = Ret (inr 0, rest).
Proof.
  intros Hfs Hfit Hfuel.
  destruct (otherHeader_split fs Hfs) as [Hh Hn].
  apply readHeaders_fuel with (fuel := (List.length fs + 1)%nat).
  - rewrite readHeaders_lines by assumption. apply readHeaders_blank.
  - pose proof (headerLine_nonempty fs Hh) as L1.
    rewrite !length_app in Hfuel. cbn [List.length] in Hfuel. lia.
Qed.

Lemma wellFormed_code (r : response) :
  forallb isDigit (codeDigits r) = true ->
  exists d1 d2 d3, codeDigits r = [d1; d2; d3]
    /\ isDigit d1 = true /\ isDigit d2 = true /\ isDigit d3 = true.
Proof.
  unfold codeDigits. destruct (code r) as [[a b] c]. cbn [forallb].
  rewrite !andb_true_iff. intros (Ha & Hb & Hc & _). now exists a, b, c.
Qed.

(** [parseStatus] on a stream that starts with a well-formed response
    whose header lines fit the buffer: the status of the response, and
    the reader at the first byte after its body. *)
Lemma parseStatus_response (r : response) (rest : list byte) :
  wellFormed r = true -> fitsBuffer r = true ->
  parseStatus (encode r ++ rest) = Ret (statusOf r, None, rest).
Proof.
  unfold wellFormed, fitsBuffer. rewrite !andb_true_iff.
  intros ((((((((((Hc & Hr) & Hfs) & Hn) & Hp1) & Hp2) & Hne) & Hd) & Hv)
           & Hts) & Hb) ((Ff & Fl) & Ft).
  destruct (wellFormed_code r Hc) as (d1 & d2 & d3 & Ec & H1 & H2 & H3).
  apply eqBytes_eq in Hn. apply Z.leb_le in Hv. apply Z.eqb_eq in Hb.
  assert (Hne' : lengthDigits r <> []) by (destruct (lengthDigits r); easy).
  unfold encode, statusOf, lengthField in *. rewrite Ec.
  rewrite <- !app_assoc.
  rewrite parseStatus_statusLine by assumption.
  rewrite readHeaders_length_block by (assumption || lia).
  cbn [bind]. rewrite <- Hb, Discard_body. reflexivity.
Qed.

(** ** bufio.Writer on a sink that takes every byte *)

Lemma io_Write_healthy (p : list byte) (k : io.Sink) :
  io.failure k = None ->
  io.Write p k
  = (List.length p, None, {| io.written := io.written k ++ p; io.failure := None |}).
Proof. intros H. unfold io.Write. now rewrite H. Qed.

Lemma Flush_healthy (b : bufio.Writer) :
  healthy b -> exists b', bufio.Flush b = (None, b') /\ healthy b'.
Proof.
  intros [He Hf]. unfold bufio.Flush. rewrite He.
  destruct (bufio.buf b) as [|x t] eqn:Eb.
  - exists b. now split.
  - rewrite io_Write_healthy by assumption.
    unfold bufio.Buffered. rewrite Eb, Nat.ltb_irrefl.
    eexists. split; [reflexivity|]. now split.
Qed.

Lemma writeLoop_done (fuel : nat) (p : list byte) (nn : nat) (b : bufio.Writer) :
  (List.length p <= bufio.Available b)%nat ->
  bufio.writeLoop fuel p nn b = Ret (p, nn, b).
Proof.
  intros H. apply Nat.ltb_ge in H.
  destruct fuel; cbn [bufio.writeLoop]; now rewrite H.
Qed.

Lemma writeLoop_step (fuel : nat) (p : list byte) (nn : nat)
    (b : bufio.Writer) :
  (bufio.Available b < List.length p)%nat -> bufio.err b = None ->
  bufio.writeLoop (S fuel) p nn b =
  if (bufio.Buffered b =? 0)%nat then
    let '(n, e, w') := io.Write p (bufio.wr b) in
    bufio.writeLoop fuel (skipn n p) (nn + n)%nat
      {| bufio.buf := bufio.buf b; bufio.err := e; bufio.wr := w' |}
  else
    let n := Nat.min (bufio.Available b) (List.length p) in
    let b1 := {| bufio.buf := bufio.buf b ++ firstn n p;
                 bufio.err := bufio.err b; bufio.wr := bufio.wr b |} in
    bufio.writeLoop fuel (skipn n p) (nn + n)%nat (snd (bufio.Flush b1)).
Proof.
  intros Hlt He. apply Nat.ltb_lt in Hlt.
  cbn [bufio.writeLoop]. now rewrite Hlt, He.
Qed.

Lemma writeLoop_healthy (fuel : nat) (p : list byte) (nn : nat)
    (b : bufio.Writer) :
  healthy b ->
  exists p' nn' b',
    bufio.writeLoop (S (S fuel)) p nn b = Ret (p', nn', b') /\ healthy b'
    /\ (List.length p' <= bufio.Available b')%nat.
Proof.
  intros [He Hf].
  destruct (Nat.ltb_spec (bufio.Available b) (List.length p)) as [Hlt|Hge].
  2:{ exists p, nn, b. rewrite writeLoop_done by assumption. now repeat split. }
  rewrite writeLoop_step by assumption.
  destruct (Nat.eqb_spec (bufio.Buffered b) 0) as [E0|E0].
  - (* an empty buffer: the large write goes to the sink *)
    rewrite io_Write_healthy by assumption.
    rewrite skipn_all.
    eexists _, _, _. rewrite writeLoop_done by apply Nat.le_0_l.
    split; [reflexivity|]. split; [now split | apply Nat.le_0_l].
  - (* fill the buffer and flush it *)
    cbv zeta.
    set (n := Nat.min (bufio.Available b) (List.length p)).
    set (b1 := {| bufio.buf := bufio.buf b ++ firstn n p;
                  bufio.err := bufio.err b; bufio.wr := bufio.wr b |}).
    assert (H1 : healthy b1) by now split.
    destruct (Flush_healthy b1 H1) as (b2 & Hfl & [He2 Hf2]).
    assert (Hb2 : bufio.buf b2 = []).
    { revert Hfl. unfold bufio.Flush. cbn [bufio.err b1]. unfold b1 at 1.
      cbn [bufio.err]. rewrite He.
      destruct (bufio.buf b1) as [|x t] eqn:Eb1.
      - unfold b1 in Eb1. cbn [bufio.buf] in Eb1.
        unfold bufio.Buffered in E0.
        destruct (bufio.buf b); [contradiction | discriminate].
      - rewrite io_Write_healthy by assumption.
        unfold bufio.Buffered. rewrite Eb1, Nat.ltb_irrefl.
        now intros [= <-]. }
    rewrite Hfl. cbn [snd].
    destruct (Nat.ltb_spec (bufio.Available b2) (List.length (skipn n p)))
      as [Hlt2|Hge2].
    2:{ eexists _, _, _. rewrite writeLoop_done by assumption.
        split; [reflexivity|]. split; [now split | assumption]. }
    rewrite writeLoop_step by assumption.
    unfold bufio.Buffered. rewrite Hb2. cbn [List.length Nat.eqb].
    rewrite io_Write_healthy by assumption. rewrite skipn_all.
    eexists _, _, _. rewrite writeLoop_done by apply Nat.le_0_l.
    split; [reflexivity|]. split; [now split | apply Nat.le_0_l].
Qed.

Lemma Write_healthy (p : list byte) (b : bufio.Writer) :
  healthy b ->
  exists n b', bufio.Write p b = Ret (n, None, b') /\ healthy b'.
Proof.
  intros H. unfold bufio.Write.
  destruct (writeLoop_healthy 1 p O b H) as (p' & nn' & b' & -> & [He Hf] & _).
  cbn [bind]. rewrite He. eexists _, _. split; [reflexivity|]. now split.
Qed.

Lemma NewWriter_healthy (k : io.Sink) :
  io.failure k = None -> healthy (bufio.NewWriter k).
Proof. intros H. now split. Qed.

(** The writer goroutine of the default prober on such a sink: both
    requests are written and the flush succeeds. *)
Lemma writeRequests_default (h : optionsProber) (b : bufio.Writer)
    (log : list call) :
  healthy b ->
  exists b',
    writeRequests (optionsProber_Prober h) 2 0%N b log
    = Ret ([(0%N, None); (1%N, None)], b',
           (log ++ [CallWriteRequest 0]) ++ [CallWriteRequest 1])
    /\ healthy b'.
Proof.
  intros H. cbn [writeRequests optionsProber_Prober WriteRequest].
  unfold OptionsProber.WriteRequest at 1.
  destruct (Write_healthy (request "*" h) b H) as (n0 & b0 & -> & H0).
  cbn [bind N.succ]. unfold OptionsProber.WriteRequest at 1.
  change (Pos.succ 1) with 2%positive. cbn [N.succ].
  destruct (Write_healthy (request "." h) b0 H0) as (n1 & b1 & -> & H1).
  cbn [bind]. now exists b1.
Qed.

(** ** The default prober *)

Lemma parseStatus_empty : parseStatus [] = Ret (0, Some io_EOF, []).
Proof. reflexivity. Qed.

Lemma ReadRequest_status (h : optionsProber) (id : N) (r r1 : bufio.Reader)
    (status : Z) :
  (id < 2)%N -> parseStatus r = Ret (status, None, r1) ->
  OptionsProber.ReadRequest h id r = Ret (expectedStatus id status, None, r1).
Proof.
  intros Hid H. unfold OptionsProber.ReadRequest.
  destruct (N.leb_spec 2 id); [lia|]. now rewrite H.
Qed.

Lemma ReadRequest_EOF (h : optionsProber) (id : N) (r r1 : bufio.Reader)
    (status : Z) :
  (id < 2)%N -> parseStatus r = Ret (status, Some io_EOF, r1) ->
  OptionsProber.ReadRequest h id r = Ret (false, None, r1).
Proof.
  intros Hid H. unfold OptionsProber.ReadRequest.
  destruct (N.leb_spec 2 id); [lia|]. now rewrite H.
Qed.

Lemma ReadRequest_error (h : optionsProber) (id : N) (r r1 : bufio.Reader)
    (status : Z) (e : error) :
  (id < 2)%N -> parseStatus r = Ret (status, Some e, r1) -> isEOF e = false ->
  OptionsProber.ReadRequest h id r
  = Ret (false, Some (malformedRequest e id), r1).
Proof.
  intros Hid H He. unfold OptionsProber.ReadRequest.
  destruct (N.leb_spec 2 id); [lia|]. rewrite H. cbn [bind]. now rewrite He.
Qed.

(** [Probe] with the default prober on a sink that takes every byte:
    what is left is the loop over the two responses. *)
Lemma ProbeRun_default (h : optionsProber) (rw : io.ReadWriter) :
  io.failure (io.sink rw) = None ->
  exists bw2,
    ProbeRun rw (optionsProber_Prober h) =
    '(a, e, br1, log) <-
      readRequests (optionsProber_Prober h) [(0%N, None); (1%N, None)] true
        (io.incoming rw) [CallWriteRequest 0; CallWriteRequest 1; CallFlush] ;;
    Ret {| available := a; err := e; calls := log; bw := bw2; br := br1 |}.
Proof.
  intros H. unfold ProbeRun.
  change (N.to_nat (NumRequests (optionsProber_Prober h))) with 2%nat.
  destruct (writeRequests_default h (bufio.NewWriter (io.sink rw)) []
              (NewWriter_healthy _ H)) as (b1 & -> & H1).
  cbn [bind]. destruct (Flush_healthy b1 H1) as (b2 & -> & _).
  now exists b2.
Qed.

Lemma Probe_default (h : optionsProber) (rw : io.ReadWriter) :
  io.failure (io.sink rw) = None ->
  Probe rw (optionsProber_Prober h) =
  '(a, e, _, _) <-
    readRequests (optionsProber_Prober h) [(0%N, None); (1%N, None)] true
      (io.incoming rw) [CallWriteRequest 0; CallWriteRequest 1; CallFlush] ;;
  Ret (a, e).
Proof.
  intros H. unfold Probe.
  destruct (ProbeRun_default h rw H) as (b2 & ->).
  destruct (readRequests _ _ _ _ _) as [[[[a e] br1] log]|]; reflexivity.
Qed.

Lemma Probe_default_both (h : optionsProber) (rw : io.ReadWriter)
    (e0 e1 : bool) (r1 r2 : bufio.Reader) :
  io.failure (io.sink rw) = None ->
  OptionsProber.ReadRequest h 0 (io.incoming rw) = Ret (e0, None, r1) ->
  OptionsProber.ReadRequest h 1 r1 = Ret (e1, None, r2) ->
  Probe rw (optionsProber_Prober h) = Ret (e0 && e1, None).
Proof.
  intros H H0 H1. rewrite Probe_default by assumption.
  cbn [readRequests optionsProber_Prober ReadRequest].
  rewrite H0. cbn [bind]. rewrite H1. reflexivity.
Qed.

Lemma Probe_default_first_error (h : optionsProber) (rw : io.ReadWriter)
    (e0 : bool) (e : error) (r1 : bufio.Reader) :
  io.failure (io.sink rw) = None ->
  OptionsProber.ReadRequest h 0 (io.incoming rw) = Ret (e0, Some e, r1) ->
  Probe rw (optionsProber_Prober h) = Ret (false, Some e).
Proof.
  intros H H0. rewrite Probe_default by assumption.
  cbn [readRequests optionsProber_Prober ReadRequest].
  rewrite H0. reflexivity.
Qed.

Lemma Probe_default_second_error (h : optionsProber) (rw : io.ReadWriter)
    (e0 e1 : bool) (e : error) (r1 r2 : bufio.Reader) :
  io.failure (io.sink rw) = None ->
  OptionsProber.ReadRequest h 0 (io.incoming rw) = Ret (e0, None, r1) ->
  OptionsProber.ReadRequest h 1 r1 = Ret (e1, Some e, r2) ->
  Probe rw (optionsProber_Prober h) = Ret (false, Some e).
Proof.
  intros H H0 H1. rewrite Probe_default by assumption.
  cbn [readRequests optionsProber_Prober ReadRequest].
  rewrite H0. cbn [bind]. rewrite H1. reflexivity.
Qed.

(** ** The loops end *)

(** [parseStatus] returns: the fuel of its header loop is enough. *)
Lemma parseStatus_total (r : bufio.Reader) : exists x, parseStatus r = Ret x.
Proof.
  unfold parseStatus.
  destruct (bufio.ReadString LF r) as [[line e] r1].
  destruct e; [eauto|].
  destruct (fmt.Sscanf line (bytes "HTTP/1.1 %d")) as [[n status] [e|]];
    [eauto|].
  destruct (negb (n =? 1)); [eauto|].
  destruct (readHeaders_total (S (List.length r1)) 0 false r1 (Nat.lt_succ_diag_r _))
    as ([res r2] & ->).
  cbn [bind]. destruct res as [e|cl]; [eauto|].
  destruct (bufio.Discard cl r2) as [[k [e|]] r3]; eauto.
Qed.

Lemma writeLoop_stop (fuel : nat) (p : list byte) (nn : nat) (b : bufio.Writer) :
  (List.length p <= bufio.Available b)%nat \/ bufio.err b <> None ->
  bufio.writeLoop fuel p nn b = Ret (p, nn, b).
Proof.
  intros [H | H].
  - now apply writeLoop_done.
  - destruct (bufio.err b) as [e|] eqn:E; [|congruence].
    destruct fuel; cbn [bufio.writeLoop]; rewrite E; now rewrite andb_false_r.
Qed.

Lemma io_Write_short (p : list byte) (k : io.Sink) n k' :
  io.Write p k = (n, None, k') -> n = List.length p.
Proof.
  unfold io.Write. destruct (io.failure k) as [[room e]|].
  - destruct (List.length p <=? room)%nat; [|discriminate].
    now intros [= <- _].
  - now intros [= <- _].
Qed.

Lemma writeLoop_direct (fuel : nat) (p : list byte) (nn : nat)
    (b : bufio.Writer) :
  bufio.Buffered b = O ->
  exists x, bufio.writeLoop (S fuel) p nn b = Ret x.
Proof.
  intros H0.
  destruct (Nat.ltb_spec (bufio.Available b) (List.length p)) as [Hlt|Hge];
    [|rewrite writeLoop_stop by auto; eauto].
  destruct (bufio.err b) as [e|] eqn:E;
    [rewrite writeLoop_stop by (right; congruence); eauto|].
  rewrite writeLoop_step by assumption. rewrite H0. cbn [Nat.eqb].
  destruct (io.Write p (bufio.wr b)) as [[n e] k'] eqn:Ew.
  destruct e as [e|].
  - rewrite writeLoop_stop by (right; discriminate). eauto.
  - apply io_Write_short in Ew. subst n. rewrite skipn_all.
    rewrite writeLoop_stop by (left; apply Nat.le_0_l). eauto.
Qed.

Lemma Flush_empties (b : bufio.Writer) :
  bufio.err (snd (bufio.Flush b)) = None ->
  bufio.buf (snd (bufio.Flush b)) = [].
Proof.
  unfold bufio.Flush. destruct (bufio.err b) as [e|] eqn:E.
  - cbn [snd]. congruence.
  - destruct (bufio.buf b) as [|x t] eqn:Eb; [now cbn [snd]|].
    destruct (io.Write (x :: t) (bufio.wr b)) as [[n e] k'].
    destruct e as [e|]; [cbn [snd bufio.err]; discriminate|].
    destruct (n <? bufio.Buffered b)%nat; cbn [snd bufio.err bufio.buf];
      [discriminate | reflexivity].
Qed.

(** [Writer.Write] returns: its loop takes at most two turns. *)
Lemma Write_total (p : list byte) (b : bufio.Writer) :
  exists x, bufio.Write p b = Ret x.
Proof.
  assert (L : exists x, bufio.writeLoop 3 p O b = Ret x).
  { destruct (Nat.ltb_spec (bufio.Available b) (List.length p)) as [Hlt|Hge];
      [|rewrite writeLoop_stop by auto; eauto].
    destruct (bufio.err b) as [e|] eqn:E;
      [rewrite writeLoop_stop by (right; congruence); eauto|].
    destruct (Nat.eqb_spec (bufio.Buffered b) 0) as [E0|E0];
      [now apply writeLoop_direct|].
    rewrite writeLoop_step by assumption.
    apply Nat.eqb_neq in E0. rewrite E0. cbv zeta.
    match goal with
    | |- context [bufio.Flush ?b1] => set (b2 := snd (bufio.Flush b1))
    end.
    destruct (bufio.err b2) as [e|] eqn:E2;
      [rewrite writeLoop_stop by (right; congruence); eauto|].
    apply writeLoop_direct. unfold bufio.Buffered.
    pose proof (Flush_empties _ E2) as Hb.
    change (bufio.buf b2 = []) in Hb. now rewrite Hb. }
  unfold bufio.Write. destruct L as ([[p1 nn] b1] & ->). cbn [bind].
  destruct (bufio.err b1); eauto.
Qed.

(** The fuel of [doScanf] is enough for the two formats: with more
    fuel the result is the same. *)
Lemma advance_literal (lit rest : list rune) :
  forall (i : Z) (s : fmt.input),
  Forall (fun c => fmt.isSpace c = false /\ c <> 37) lit ->
  (exists e, fmt.advance (lit ++ rest) None i s = inl e)
  \/ (exists s', fmt.advance (lit ++ rest) None i s = inr (-1, s'))
  \/ (exists s', s = lit ++ s'
        /\ fmt.advance (lit ++ rest) None i s
           = fmt.advance rest None (i + Z.of_nat (List.length lit)) s').
Proof.
  induction lit as [|c lit IH]; intros i s H.
  - right. right. exists s. cbn [app List.length]. now rewrite Z.add_0_r.
  - inversion H as [|? ? [Hc1 Hc2] Hl]; subst.
    cbn [app fmt.advance fmt.settle]. rewrite Hc1.
    destruct (Z.eqb_spec c 37); [contradiction|].
    destruct s as [|x s]; [left; eauto|].
    destruct (Z.eqb_spec c x) as [<-|Hx]; [|right; left; eauto].
    destruct (IH (i + 1) s Hl) as [(e & E) | [(s' & E) | (s' & -> & E)]].
    + left. eauto.
    + right. left. eauto.
    + right. right. exists s'. split; [reflexivity|].
      rewrite E.
      replace (i + Z.of_nat (List.length (c :: lit)))
        with (i + 1 + Z.of_nat (List.length lit))
        by (cbn [List.length]; lia).
      reflexivity.
Qed.

Lemma doScanf_status_step (fuel : nat) (s : fmt.input) :
  fmt.doScanf (S fuel) statusFormat 1 [] s =
  match fmt.advance statusFormat None 0 s with
  | inl e => (0, [], Some e)
  | inr (w, s1) =>
    if 0 <? w
    then fmt.doScanf fuel (skipn (Z.to_nat w) statusFormat) 1 [] s1
    else if w <? 0
    then (0, [], Some (errorString "input does not match format"))
    else (0, [], Some (errorString "too many operands"))
  end.
Proof. reflexivity. Qed.

Lemma doScanf_status_fuel (fuel : nat) (s : fmt.input) :
  fmt.doScanf (S (S (S fuel))) statusFormat 1 [] s
  = fmt.doScanf 3 statusFormat 1 [] s.
Proof.
  assert (L : Forall (fun c => fmt.isSpace c = false /\ c <> 37) statusLiteral)
    by (repeat constructor; (reflexivity || discriminate)).
  rewrite !doScanf_status_step.
  pose proof (advance_literal statusLiteral [32; 37; 100] 0 s L) as A.
  change (statusLiteral ++ [32; 37; 100]) with statusFormat in A.
  destruct A as [(e & E) | [(s' & E) | (s' & -> & _)]].
  - now rewrite E.
  - now rewrite E.
  - rewrite advance_status.
    destruct (fmt.matchSpaces 0 true s') as [e|s1]; [reflexivity|].
    change (fmt.doScanf (S (S fuel)) [37; 100] 1 [] s1
            = fmt.doScanf 2 [37; 100] 1 [] s1).
    rewrite !doScanf_verb.
    destruct (fmt.SkipSpace s1) as [e|s2]; [reflexivity|].
    cbn [List.length Nat.leb].
    destruct (fmt.scanInt s2) as [e|[v s3]]; reflexivity.
Qed.

Lemma doScanf_value_fuel (fuel : nat) (s : fmt.input) :
  fmt.doScanf (S (S (S fuel))) valueFormat 1 [] s
  = fmt.doScanf 3 valueFormat 1 [] s.
Proof.
  unfold valueFormat. rewrite !doScanf_verb.
  destruct (fmt.SkipSpace s) as [e|s2]; [reflexivity|].
  cbn [List.length Nat.leb].
  destruct (fmt.scanInt s2) as [e|[v s3]]; [reflexivity|].
  rewrite !doScanf_step, advance_newline.
  destruct (fmt.matchSpaces 1 false s3); reflexivity.
Qed.

(** ** The response parser *)

(** C1, as the claim states it, fails: a well-formed response followed
    by a second one, with a header line longer than the 4096 bytes of
    the reader's buffer, makes [parseStatus] fail with [ErrBufferFull]
    (the response of 200 with a header line of 4105 bytes). *)
Lemma parseStatus_long_header_line :
  wellFormed responseLongLine = true /\ wellFormed response200 = true
  /\ returned (parseStatus (encode responseLongLine ++ encode response200))
     = Some (0, Some bufio_ErrBufferFull).
Proof. repeat split; vm_compute; reflexivity. Qed.

(** C1, amended: on every stream that begins with a well-formed response
    carrying [Content-Length: k] and exactly [k] body bytes, none of whose
    header lines is longer than the 4096-byte buffer of the reader,
    followed by a second such response, [parseStatus] returns the status
    of the first response and leaves the reader at the first byte of the
    second one, and the next call returns the status of the second. *)
Theorem parseStatus_round_trip (r1 r2 : response) (rest : list byte) :
  wellFormed r1 = true -> fitsBuffer r1 = true ->
  wellFormed r2 = true -> fitsBuffer r2 = true ->
  parseStatus (encode r1 ++ encode r2 ++ rest)
  = Ret (statusOf r1, None, encode r2 ++ rest)
  /\ parseStatus (encode r2 ++ rest) = Ret (statusOf r2, None, rest).
Proof.
  intros W1 F1 W2 F2. split; now apply parseStatus_response.
Qed.

Lemma parseStatus_round_trip_witness :
  parseStatus (encode response400 ++ encode response200 ++ [])
  = Ret (400, None, encode response200 ++ [])
  /\ parseStatus (encode response200 ++ []) = Ret (200, None, []).
Proof.
  exact (parseStatus_round_trip response400 response200 []
           eq_refl eq_refl eq_refl eq_refl).
Defined.

(** A line that is longer than the buffer stops the parse. *)
Lemma IndexByte_firstn_none (s : list byte) (c : byte) (i n : nat) :
  Bytes.IndexByte s c = Some i -> (n <= i)%nat ->
  Bytes.IndexByte (firstn n s) c = None.
Proof.
  revert i n. induction s as [|b t IH]; cbn [Bytes.IndexByte]; intros i n H Hn;
    [discriminate|].
  destruct n as [|n]; [reflexivity|]. cbn [firstn Bytes.IndexByte].
  destruct (Byte.eqb b c); [injection H as <-; lia|].
  destruct (Bytes.IndexByte t c) as [j|] eqn:E; [|discriminate].
  injection H as <-. rewrite (IH j n eq_refl); [reflexivity | lia].
Qed.

Lemma ReadSlice_long (line rest : list byte) :
  isLine line = true -> fits line = false ->
  exists l r1,
    bufio.ReadSlice LF (line ++ rest) = (l, Some bufio_ErrBufferFull, r1).
Proof.
  unfold isLine, fits, bufio.ReadSlice. intros H Hf.
  destruct (Bytes.IndexByte line LF) as [i|] eqn:E; [|discriminate].
  apply Nat.eqb_eq in H. apply Nat.leb_gt in Hf.
  rewrite (IndexByte_firstn_none (line ++ rest) LF i bufio.defaultBufSize);
    [| now apply IndexByte_app_found | lia].
  rewrite length_app.
  destruct (Nat.leb_spec bufio.defaultBufSize
              (List.length line + List.length rest)); [eauto | lia].
Qed.

Lemma readHeaders_plain_any (fs : list (list byte)) :
  forall (fuel : nat) (rest : list byte),
  forallb otherHeader fs = true ->
  (List.length fs < fuel)%nat ->
  readHeaders fuel 0 false (List.concat fs ++ CRLF ++ rest) = Ret (inr 0, rest)
  \/ exists e r', readHeaders fuel 0 false (List.concat fs ++ CRLF ++ rest)
                  = Ret (inl e, r').
Proof.
  induction fs as [|h fs IH]; intros fuel rest Hfs Hfuel.
  - left. destruct fuel as [|fuel]; [cbn in Hfuel; lia|].
    apply readHeaders_blank.
  - cbn [forallb] in Hfs. apply andb_true_iff in Hfs as [Hh Hfs].
    cbn [List.length] in Hfuel.
    destruct fuel as [|fuel]; [lia|].
    cbn [List.concat]. rewrite <- app_assoc.
    unfold otherHeader in Hh. apply andb_true_iff in Hh as [Hl Hc].
    destruct (fits h) eqn:Ef.
    + rewrite readHeaders_skip by assumption. apply IH; [assumption | lia].
    + right. unfold headerLine in Hl. apply andb_true_iff in Hl as [Hl _].
      destruct (ReadSlice_long h (List.concat fs ++ CRLF ++ rest) Hl Ef)
        as (l & r1 & E).
      cbn [readHeaders]. rewrite E. eauto.
Qed.

(** C5: a response without a Content-Length field has a body of length
    0.  On every stream that starts with a status line and header lines
    none of which is a Content-Length field, then the empty line,
    [parseStatus] never consumes a byte after the empty line: when it
    returns without error the reader is at the first byte after it.  And
    it does return the status without error when the status line is
    well-formed and the header lines fit the buffer of the reader. *)
Theorem parseStatus_no_content_length (line : list byte)
    (fs : list (list byte)) (rest : list byte) :
  isLine line = true -> forallb otherHeader fs = true ->
  (forall status r',
     parseStatus (line ++ List.concat fs ++ CRLF ++ rest)
     = Ret (status, None, r') -> r' = rest)
  /\ (forall d1 d2 d3 reason,
        line = statusLine [d1; d2; d3] reason ->
        isDigit d1 = true -> isDigit d2 = true -> isDigit d3 = true ->
        noLF reason = true -> forallb fits fs = true ->
        parseStatus (line ++ List.concat fs ++ CRLF ++ rest)
        = Ret (digitsValue 0 [d1; d2; d3], None, rest)).
Proof.
  intros Hl Hfs. split.
  - intros status r'. unfold parseStatus.
    rewrite ReadString_line by assumption.
    destruct (fmt.Sscanf line (bytes "HTTP/1.1 %d")) as [[n st] [e|]];
      [discriminate|].
    destruct (negb (n =? 1)); [discriminate|].
    destruct (readHeaders_plain_any fs
                (S (List.length (List.concat fs ++ CRLF ++ rest))) rest Hfs)
      as [E | (e & r1 & E)].
    + destruct (otherHeader_split fs Hfs) as [Hh _].
      pose proof (headerLine_nonempty fs Hh). rewrite length_app. lia.
    + rewrite E. cbn [bind]. now intros [= _ <-].
    + rewrite E. discriminate.
  - intros d1 d2 d3 reason -> H1 H2 H3 Hr Hf.
    rewrite parseStatus_statusLine by assumption.
    rewrite readHeaders_plain_block by (assumption || lia).
    reflexivity.
Qed.

Lemma parseStatus_no_content_length_witness :
  (forall status r',
     parseStatus (statusLine (bytes "204") (bytes "No Content")
                  ++ List.concat [bytes "Server: Apache" ++ CRLF]
                  ++ CRLF ++ encode response200)
     = Ret (status, None, r') -> r' = encode response200)
  /\ parseStatus (statusLine (bytes "204") (bytes "No Content")
                  ++ List.concat [bytes "Server: Apache" ++ CRLF]
                  ++ CRLF ++ encode response200)
     = Ret (204, None, encode response200).
Proof.
  destruct (parseStatus_no_content_length
              (statusLine (bytes "204") (bytes "No Content"))
              [bytes "Server: Apache" ++ CRLF] (encode response200)
              eq_refl eq_refl) as [H1 H2].
  split; [exact H1|].
  exact (H2 "2"%byte "0"%byte "4"%byte (bytes "No Content")
           eq_refl eq_refl eq_refl eq_refl eq_refl eq_refl).
Defined.

(** Header lines that are passed over, of any length: the loop goes
    through them to the empty line, or stops with an error at one that
    does not fit the buffer. *)
Lemma readHeaders_lines_any (hs : list (list byte)) :
  forall (fuel : nat) (cl : Z) (found : bool) (rest : list byte),
  forallb headerLine hs = true ->
  found || forallb (fun l => negb (isContentLength l)) hs = true ->
  (List.length hs < fuel)%nat ->
  readHeaders fuel cl found (List.concat hs ++ CRLF ++ rest) = Ret (inr cl, rest)
  \/ exists e r', readHeaders fuel cl found (List.concat hs ++ CRLF ++ rest)
                  = Ret (inl e, r').
Proof.
  induction hs as [|h hs IH]; intros fuel cl found rest Hh Hs Hfuel.
  - left. destruct fuel as [|fuel]; [cbn in Hfuel; lia|].
    apply readHeaders_blank.
  - cbn [forallb] in Hh, Hs. apply andb_true_iff in Hh as [Hh Hhs].
    cbn [List.length] in Hfuel. destruct fuel as [|fuel]; [lia|].
    cbn [List.concat]. rewrite <- app_assoc.
    assert (Hs1 : found || negb (isContentLength h) = true)
      by (destruct found; [reflexivity | now apply andb_true_iff in Hs as [Hs _]]).
    assert (Hs2 : found || forallb (fun l => negb (isContentLength l)) hs = true)
      by (destruct found; [reflexivity | now apply andb_true_iff in Hs as [_ Hs]]).
    destruct (fits h) eqn:Ef.
    + rewrite readHeaders_skip by assumption. apply IH; (assumption || lia).
    + right. unfold headerLine in Hh. apply andb_true_iff in Hh as [Hl _].
      destruct (ReadSlice_long h (List.concat hs ++ CRLF ++ rest) Hl Ef)
        as (l & r1 & E).
      cbn [readHeaders]. rewrite E. eauto.
Qed.

(** The header block of a response that announces its length, with lines
    of any length: the announced length, or an error. *)
Lemma readHeaders_length_any (fs ts : list (list byte))
    (name pad1 digits pad2 rest : list byte) (fuel : nat) :
  forallb otherHeader fs = true ->
  Bytes.ToLower name = bytes "content-length" ->
  forallb isBlank pad1 = true -> forallb isBlank pad2 = true ->
  digits <> [] -> forallb isDigit digits = true ->
  digitsValue 0 digits <= maxInt ->
  forallb headerLine ts = true ->
  (List.length (List.concat fs ++ lengthLine name pad1 digits pad2
                ++ List.concat ts ++ CRLF ++ rest) < fuel)%nat ->
  readHeaders fuel 0 false
    (List.concat fs ++ lengthLine name pad1 digits pad2
     ++ List.concat ts ++ CRLF ++ rest)
  = Ret (inr (digitsValue 0 digits), rest)
  \/ exists e r',
       readHeaders fuel 0 false
         (List.concat fs ++ lengthLine name pad1 digits pad2
          ++ List.concat ts ++ CRLF ++ rest)
       = Ret (inl e, r').
Proof.
  intros Hfs Hname Hp1 Hp2 Hne Hd Hv Hts.
  destruct (otherHeader_split fs Hfs) as [Hh Hn]. clear Hfs.
  revert fuel. induction fs as [|h fs IH]; intros fuel Hfuel.
  - cbn [List.concat app] in *.
    destruct fuel as [|fuel]; [lia|].
    pose proof (isLine_lengthLine name pad1 digits pad2 Hname Hp1 Hp2 Hd) as Hl.
    destruct (fits (lengthLine name pad1 digits pad2)) eqn:Ef.
    + rewrite readHeaders_length;
        auto using isContentLength_lengthLine.
      rewrite Sscanf_lengthLine by assumption. cbn [negb Z.eqb Pos.eqb].
      apply readHeaders_lines_any; [assumption | reflexivity |].
      pose proof (headerLine_nonempty ts Hts).
      rewrite !length_app in Hfuel. unfold lengthLine in Hfuel.
      rewrite !length_app in Hfuel. cbn [List.length] in Hfuel. lia.
    + right.
      destruct (ReadSlice_long _ (List.concat ts ++ CRLF ++ rest) Hl Ef)
        as (l & r1 & E).
      cbn [readHeaders]. rewrite E. eauto.
  - cbn [forallb] in Hh, Hn.
    apply andb_true_iff in Hh as [Hh Hhs]. apply andb_true_iff in Hn as [Hn Hns].
    cbn [List.concat] in *. rewrite <- app_assoc in *.
    destruct fuel as [|fuel]; [lia|].
    destruct (fits h) eqn:Ef.
    + rewrite readHeaders_skip by assumption.
      apply IH; try assumption.
      rewrite length_app in Hfuel.
      unfold headerLine in Hh. apply andb_true_iff in Hh as [Hl _].
      destruct (isLine_nonempty h Hl) as (a & t & ->).
      cbn [List.length] in Hfuel. lia.
    + right. unfold headerLine in Hh. apply andb_true_iff in Hh as [Hl _].
      match goal with
      | |- context [readHeaders _ _ _ (h ++ ?x)] =>
          destruct (ReadSlice_long h x Hl Ef) as (l & r1 & E)
      end.
      cbn [readHeaders]. rewrite E. eauto.
Qed.

(** After a well-formed status line [parseStatus] returns the status of
    that line or an error. *)
Lemma parseStatus_status_or_error (d1 d2 d3 : byte) (reason r1 : list byte) :
  isDigit d1 = true -> isDigit d2 = true -> isDigit d3 = true ->
  noLF reason = true ->
  (exists e r', parseStatus (statusLine [d1; d2; d3] reason ++ r1)
                = Ret (0, Some e, r'))
  \/ (exists r', parseStatus (statusLine [d1; d2; d3] reason ++ r1)
                 = Ret (digitsValue 0 [d1; d2; d3], None, r')).
Proof.
  intros H1 H2 H3 Hr. rewrite parseStatus_statusLine by assumption.
  destruct (readHeaders_total (S (List.length r1)) 0 false r1
              (Nat.lt_succ_diag_r _)) as ([res r2] & ->).
  cbn [bind]. destruct res as [e|cl]; [left; eauto|].
  destruct (bufio.Discard cl r2) as [[k [e|]] r3]; [left | right]; eauto.
Qed.

Lemma ReadRequest_total (h : optionsProber) (id : N) (r : bufio.Reader) :
  (id < 2)%N -> exists x, OptionsProber.ReadRequest h id r = Ret x.
Proof.
  intros Hid. unfold OptionsProber.ReadRequest.
  destruct (N.leb_spec 2 id); [lia|].
  destruct (parseStatus_total r) as ([[status oe] r1] & ->). cbn [bind].
  destruct oe as [e|]; [destruct (isEOF e)|]; eauto.
Qed.

(** The first response has another status than 200: the verdict is
    false, whatever follows. *)
Lemma Probe_default_first_unexpected (h : optionsProber) (rw : io.ReadWriter)
    (d1 d2 d3 : byte) (reason tail : list byte) :
  io.failure (io.sink rw) = None ->
  isDigit d1 = true -> isDigit d2 = true -> isDigit d3 = true ->
  noLF reason = true -> digitsValue 0 [d1; d2; d3] <> 200 ->
  io.incoming rw = statusLine [d1; d2; d3] reason ++ tail ->
  exists e, Probe rw (optionsProber_Prober h) = Ret (false, e).
Proof.
  intros Hs H1 H2 H3 Hr Hc Hin. rewrite Probe_default by assumption.
  rewrite Hin. cbn [readRequests optionsProber_Prober ReadRequest].
  assert (R0 : exists oe r',
            OptionsProber.ReadRequest h 0 (statusLine [d1; d2; d3] reason ++ tail)
            = Ret (false, oe, r')).
  { unfold OptionsProber.ReadRequest. cbn [N.leb N.compare].
    destruct (parseStatus_status_or_error d1 d2 d3 reason tail H1 H2 H3 Hr)
      as [(e & r' & ->) | (r' & ->)]; cbn [bind].
    - destruct (isEOF e); eauto.
    - destruct (Z.eqb_spec (digitsValue 0 [d1; d2; d3]) 200);
        [contradiction | eauto]. }
  destruct R0 as (oe & r' & ->). cbn [bind].
  destruct oe as [e|]; [eexists; reflexivity|].
  cbn [andb readRequests optionsProber_Prober ReadRequest].
  destruct (ReadRequest_total h 1 r' eq_refl) as ([[x oe] r''] & ->).
  cbn [bind]. destruct oe; eexists; reflexivity.
Qed.

(** C6: the name of the Content-Length field is matched without regard
    to case; the first such field gives the length of the body, whatever
    header lines follow it, later Content-Length fields with any value
    among them: whenever [parseStatus] returns without error it has
    consumed the body that the first field announces, and it does return
    when the header lines fit the buffer of the reader; and when the
    value of the first Content-Length field does not scan as an integer,
    [parseStatus] fails with the error of the scan. *)
Theorem parseStatus_content_length (d1 d2 d3 : byte) (reason : list byte)
    (fs : list (list byte)) (rest : list byte) :
  isDigit d1 = true -> isDigit d2 = true -> isDigit d3 = true ->
  noLF reason = true ->
  forallb otherHeader fs = true ->
  (forall name pad1 digits pad2 later body,
     Bytes.ToLower name = bytes "content-length" ->
     forallb isBlank pad1 = true -> forallb isBlank pad2 = true ->
     digits <> [] -> forallb isDigit digits = true ->
     digitsValue 0 digits <= maxInt ->
     forallb headerLine later = true ->
     Z.of_nat (List.length body) = digitsValue 0 digits ->
     (forall status r',
        parseStatus (statusLine [d1; d2; d3] reason ++ List.concat fs
                     ++ lengthLine name pad1 digits pad2 ++ List.concat later
                     ++ CRLF ++ body ++ rest)
        = Ret (status, None, r') ->
        status = digitsValue 0 [d1; d2; d3] /\ r' = rest)
     /\ (forallb fits fs = true ->
         fits (lengthLine name pad1 digits pad2) = true ->
         forallb fits later = true ->
         parseStatus (statusLine [d1; d2; d3] reason ++ List.concat fs
                      ++ lengthLine name pad1 digits pad2 ++ List.concat later
                      ++ CRLF ++ body ++ rest)
         = Ret (digitsValue 0 [d1; d2; d3], None, rest)))
  /\ (forall line n v e,
        forallb fits fs = true ->
        isLine line = true -> fits line = true ->
        isContentLength line = true ->
        fmt.Sscanf (skipn (List.length contentLengthPrefix) (Bytes.ToLower line))
          (bytes "%d" ++ CRLF) = (n, v, Some e) ->
        parseStatus (statusLine [d1; d2; d3] reason ++ List.concat fs
                     ++ line ++ rest)
        = Ret (0, Some e, rest)).
Proof.
  intros H1 H2 H3 Hr Hfs. split.
  - intros name pad1 digits pad2 later body Hn Hp1 Hp2 Hne Hd Hv Hl Hb. split.
    + intros status r'. rewrite parseStatus_statusLine by assumption.
      destruct (readHeaders_length_any fs later name pad1 digits pad2
                  (body ++ rest)
                  (S (List.length
                        (List.concat fs ++ lengthLine name pad1 digits pad2
                         ++ List.concat later ++ CRLF ++ body ++ rest)))
                  Hfs Hn Hp1 Hp2 Hne Hd Hv Hl (Nat.lt_succ_diag_r _))
        as [E | (e & r1 & E)]; rewrite E; cbn [bind].
      * rewrite <- Hb, Discard_body. now intros [= <- <-].
      * discriminate.
    + intros Hfit Hfl Hlf. rewrite parseStatus_statusLine by assumption.
      rewrite readHeaders_length_block by (assumption || lia).
      cbn [bind]. rewrite <- Hb, Discard_body. reflexivity.
  - intros line n v e Hfit Hl Hf Hc Hs.
    rewrite parseStatus_statusLine by assumption.
    destruct (otherHeader_split fs Hfs) as [Hh Hn].
    assert (E : readHeaders (S (List.length (List.concat fs ++ line ++ rest)))
                  0 false (List.concat fs ++ line ++ rest)
                = Ret (inl e, rest)).
    { apply readHeaders_fuel with (fuel := (List.length fs + 1)%nat).
      - rewrite readHeaders_lines by assumption.
        rewrite readHeaders_length by assumption. now rewrite Hs.
      - pose proof (headerLine_nonempty fs Hh). rewrite length_app. lia. }
    rewrite E. reflexivity.
Qed.

Lemma parseStatus_content_length_witness :
  ((forall status r',
      parseStatus
        (statusLine (bytes "200") (bytes "OK")
         ++ List.concat [bytes "Server: Apache" ++ CRLF]
         ++ lengthLine (bytes "cOnTeNt-LeNgTh") [" "%byte] (bytes "4") ["009"%byte]
         ++ List.concat [bytes "Content-Length: oops" ++ CRLF;
                         bytes "Content-Length: 99" ++ CRLF]
         ++ CRLF ++ bytes "body" ++ encode response400)
      = Ret (status, None, r') -> status = 200 /\ r' = encode response400)
   /\ parseStatus
        (statusLine (bytes "200") (bytes "OK")
         ++ List.concat [bytes "Server: Apache" ++ CRLF]
         ++ lengthLine (bytes "cOnTeNt-LeNgTh") [" "%byte] (bytes "4") ["009"%byte]
         ++ List.concat [bytes "Content-Length: oops" ++ CRLF;
                         bytes "Content-Length: 99" ++ CRLF]
         ++ CRLF ++ bytes "body" ++ encode response400)
      = Ret (200, None, encode response400))
  /\ parseStatus
       (statusLine (bytes "200") (bytes "OK")
        ++ List.concat [bytes "Server: Apache" ++ CRLF]
        ++ (bytes "Content-Length: abc" ++ CRLF) ++ encode response400)
     = Ret (0, Some (errorString "expected integer"), encode response400).
Proof.
  destruct (parseStatus_content_length "2"%byte "0"%byte "0"%byte (bytes "OK")
              [bytes "Server: Apache" ++ CRLF] (encode response400)
              eq_refl eq_refl eq_refl eq_refl eq_refl) as [H1 H2].
  split.
  - assert (Hne : bytes "4" <> []) by discriminate.
    assert (Hv : digitsValue 0 (bytes "4") <= maxInt)
      by (vm_compute; discriminate).
    destruct (H1 (bytes "cOnTeNt-LeNgTh") [" "%byte] (bytes "4") ["009"%byte]
                [bytes "Content-Length: oops" ++ CRLF;
                 bytes "Content-Length: 99" ++ CRLF]
                (bytes "body") eq_refl eq_refl eq_refl Hne eq_refl Hv
                eq_refl eq_refl) as [Ha Hb].
    split; [exact Ha | exact (Hb eq_refl eq_refl eq_refl)].
  - exact (H2 (bytes "Content-Length: abc" ++ CRLF) 0 0
             (errorString "expected integer")
             eq_refl eq_refl eq_refl eq_refl eq_refl).
Defined.

(** ** The default prober and the order of the responses *)

(** C7: with the default prober, which expects 200 for request 0 and 400
    for request 1, a stream of two well-formed responses with the
    statuses 400 and then 200 never gives the verdict true: [Probe]
    returns false, and without an error when the header lines of the
    responses fit the buffer of the reader, while the same two responses
    in the other order then give the verdict true. *)
Theorem Probe_order_matters (h : optionsProber) (rw rw' : io.ReadWriter)
    (r400 r200 : response) (rest : list byte) :
  io.failure (io.sink rw) = None -> io.failure (io.sink rw') = None ->
  wellFormed r400 = true -> statusOf r400 = 400 ->
  wellFormed r200 = true -> statusOf r200 = 200 ->
  io.incoming rw = encode r400 ++ encode r200 ++ rest ->
  io.incoming rw' = encode r200 ++ encode r400 ++ rest ->
  (exists e, Probe rw (optionsProber_Prober h) = Ret (false, e))
  /\ (fitsBuffer r400 = true -> fitsBuffer r200 = true ->
      Probe rw (optionsProber_Prober h) = Ret (false, None)
      /\ Probe rw' (optionsProber_Prober h) = Ret (true, None)).
Proof.
  intros Hs Hs' W4 S4 W2 S2 Hin Hin'. split.
  - pose proof W4 as W. unfold wellFormed in W. rewrite !andb_true_iff in W.
    destruct W as ((((((((((Hc & Hr) & _) & _) & _) & _) & _) & _) & _) & _) & _).
    destruct (wellFormed_code r400 Hc) as (d1 & d2 & d3 & Ec & H1 & H2 & H3).
    apply (Probe_default_first_unexpected h rw d1 d2 d3 (reason r400)
             (List.concat (fields r400) ++ lengthField r400
              ++ List.concat (trailing r400) ++ CRLF ++ body r400
              ++ encode r200 ++ rest)); try assumption.
    + unfold statusOf in S4. rewrite Ec in S4. rewrite S4. discriminate.
    + rewrite Hin. unfold encode at 1. rewrite Ec.
      now rewrite <- !app_assoc.
  - intros F4 F2. split.
    + apply (Probe_default_both h rw false false (encode r200 ++ rest) rest Hs).
      * rewrite Hin.
        rewrite (ReadRequest_status h 0 _ (encode r200 ++ rest) (statusOf r400))
          by (reflexivity || now apply parseStatus_response).
        now rewrite S4.
      * rewrite (ReadRequest_status h 1 _ rest (statusOf r200))
          by (reflexivity || now apply parseStatus_response).
        now rewrite S2.
    + apply (Probe_default_both h rw' true true (encode r400 ++ rest) rest Hs').
      * rewrite Hin'.
        rewrite (ReadRequest_status h 0 _ (encode r400 ++ rest) (statusOf r200))
          by (reflexivity || now apply parseStatus_response).
        now rewrite S2.
      * rewrite (ReadRequest_status h 1 _ rest (statusOf r400))
          by (reflexivity || now apply parseStatus_response).
        now rewrite S4.
Qed.

Lemma Probe_order_matters_witness :
  (exists e,
     Probe (connection (encode response400 ++ encode response200 ++ []))
       (optionsProber_Prober exampleHost) = Ret (false, e))
  /\ Probe (connection (encode response400 ++ encode response200 ++ []))
       (optionsProber_Prober exampleHost) = Ret (false, None)
  /\ Probe (connection (encode response200 ++ encode response400 ++ []))
       (optionsProber_Prober exampleHost) = Ret (true, None).
Proof.
  destruct (Probe_order_matters exampleHost
              (connection (encode response400 ++ encode response200 ++ []))
              (connection (encode response200 ++ encode response400 ++ []))
              response400 response200 []
              eq_refl eq_refl eq_refl eq_refl eq_refl eq_refl eq_refl eq_refl)
    as [Ha Hb].
  split; [exact Ha | exact (Hb eq_refl eq_refl)].
Defined.

(** C4: when the stream ends at a response boundary, before the first
    byte of a response, [ReadRequest] of the default prober returns
    [expected = false] without an error for it, and [Probe] returns the
    verdict false with a nil error: so when the stream is empty, and so
    when it ends after a first response that was read without error. *)
Theorem Probe_early_close (h : optionsProber) (rw : io.ReadWriter) :
  io.failure (io.sink rw) = None ->
  (forall id, (id < 2)%N ->
     OptionsProber.ReadRequest h id [] = Ret (false, None, []))
  /\ (io.incoming rw = [] ->
      Probe rw (optionsProber_Prober h) = Ret (false, None))
  /\ (forall expected,
        OptionsProber.ReadRequest h 0 (io.incoming rw)
        = Ret (expected, None, []) ->
        Probe rw (optionsProber_Prober h) = Ret (false, None)).
Proof.
  intros Hs.
  assert (E : forall id, (id < 2)%N ->
            OptionsProber.ReadRequest h id [] = Ret (false, None, [])).
  { intros id Hid. now apply (ReadRequest_EOF h id [] [] 0). }
  split; [exact E|]. split.
  - intros Hin.
    apply (Probe_default_both h rw false false [] [] Hs).
    + rewrite Hin. now apply E.
    + now apply E.
  - intros expected H0.
    rewrite (Probe_default_both h rw expected false [] [] Hs H0 (E 1%N eq_refl)).
    now rewrite andb_false_r.
Qed.

Lemma Probe_early_close_witness :
  OptionsProber.ReadRequest exampleHost 1 [] = Ret (false, None, [])
  /\ Probe (connection (encode response200)) (optionsProber_Prober exampleHost)
     = Ret (false, None).
Proof.
  destruct (Probe_early_close exampleHost (connection (encode response200))
              eq_refl) as (H1 & _ & H3).
  split; [exact (H1 1%N eq_refl) | exact (H3 true eq_refl)].
Defined.

(** ** A stream that ends in the middle of a response *)

Lemma passes_app (found : bool) (a b : list (list byte)) :
  passes found (a ++ b) = true -> passes found a = true.
Proof.
  revert found. induction a as [|l a IH]; intros found H; [reflexivity|].
  cbn [app passes] in *. apply andb_true_iff in H as [H1 H2]. rewrite H1.
  cbn [andb]. destruct (found || negb (isContentLength l)); [now apply IH|].
  destruct (fmt.Sscanf _ _) as [[n v] oe].
  destruct n as [|[| |]|]; try discriminate H2.
  destruct oe; [discriminate H2|]. now apply IH.
Qed.

Lemma passes_found (ls : list (list byte)) :
  forallb headerLine ls = true -> forallb fits ls = true ->
  passes true ls = true.
Proof.
  induction ls as [|l ls IH]; intros H F; [reflexivity|].
  cbn [forallb passes orb] in *.
  apply andb_true_iff in H as [H1 H2]. apply andb_true_iff in F as [F1 F2].
  rewrite H1, F1. now apply IH.
Qed.

Lemma passes_headerLines (r : response) :
  wellFormed r = true -> fitsBuffer r = true ->
  passes false (headerLines r) = true.
Proof.
  unfold wellFormed, fitsBuffer, headerLines, lengthField.
  rewrite !andb_true_iff.
  intros ((((((((((Hc & Hr) & Hfs) & Hn) & Hp1) & Hp2) & Hne) & Hd) & Hv)
           & Hts) & Hb) ((Ff & Fl) & Ft).
  apply eqBytes_eq in Hn. apply Z.leb_le in Hv.
  assert (Hne' : lengthDigits r <> []) by (destruct (lengthDigits r); easy).
  induction (fields r) as [|l ls IH].
  - cbn [app passes orb].
    unfold headerLine. rewrite isLine_lengthLine by assumption.
    rewrite isContentLength_lengthLine by assumption.
    assert (Hb' : isCRLF (lengthLine (lengthName r) (fst (lengthPad r))
                            (lengthDigits r) (snd (lengthPad r))) = false).
    { destruct (isCRLF _) eqn:E; [|reflexivity]. apply isCRLF_inv in E.
      pose proof (isContentLength_lengthLine _ (fst (lengthPad r))
                    (lengthDigits r) (snd (lengthPad r)) Hn Hp1 Hp2 Hd) as C.
      rewrite E in C. discriminate C. }
    rewrite Hb', Fl. cbn [negb andb]. unfold lengthValue.
    rewrite Sscanf_lengthLine by assumption.
    now apply passes_found.
  - cbn [forallb] in Hfs, Ff.
    apply andb_true_iff in Hfs as [H1 H2]. apply andb_true_iff in Ff as [F1 F2].
    cbn [app passes orb]. unfold otherHeader in H1.
    apply andb_true_iff in H1 as [H1 H1']. rewrite H1, F1, H1'.
    now apply IH.
Qed.

(** The loop meets the end of the stream in an unfinished line. *)
Lemma readHeaders_cut (ls : list (list byte)) :
  forall (fuel : nat) (cl : Z) (found : bool) (p : list byte),
  passes found ls = true -> noLF p = true ->
  (List.length p < bufio.defaultBufSize)%nat ->
  (List.length ls < fuel)%nat ->
  readHeaders fuel cl found (List.concat ls ++ p) = Ret (inl io_EOF, []).
Proof.
  induction ls as [|l ls IH]; intros fuel cl found p Hp Hn Hlen Hfuel.
  - destruct fuel as [|fuel]; [cbn in Hfuel; lia|].
    cbn [List.concat app readHeaders]. now rewrite ReadSlice_noLF.
  - cbn [List.length] in Hfuel. destruct fuel as [|fuel]; [lia|].
    cbn [passes] in Hp. apply andb_true_iff in Hp as [Hl Hp].
    apply andb_true_iff in Hl as [Hl Hf].
    cbn [List.concat]. rewrite <- app_assoc.
    destruct (found || negb (isContentLength l)) eqn:E.
    + rewrite readHeaders_skip by assumption. apply IH; (assumption || lia).
    + apply orb_false_iff in E as [-> E]. apply negb_false_iff in E.
      unfold headerLine in Hl. apply andb_true_iff in Hl as [Hl _].
      rewrite readHeaders_length by assumption. fold (lengthValue l).
      destruct (fmt.Sscanf (lengthValue l) (bytes "%d" ++ CRLF))
        as [[n v] oe].
      destruct n as [|[| |]|]; try discriminate Hp.
      destruct oe; [discriminate Hp|].
      cbn [negb Z.eqb Pos.eqb]. apply IH; (assumption || lia).
Qed.

(** A stream that is the beginning of a sequence of lines followed by
    [tail] ends in one of the lines, or holds them all. *)
Lemma concat_split (ls : list (list byte)) :
  forall (tail s t : list byte),
  s ++ t = List.concat ls ++ tail ->
  (exists l1 line l2 p q,
      ls = l1 ++ line :: l2 /\ line = p ++ q /\ q <> []
      /\ s = List.concat l1 ++ p)
  \/ (exists s2, s = List.concat ls ++ s2 /\ tail = s2 ++ t).
Proof.
  induction ls as [|l ls IH]; intros tail s t H.
  - right. now exists s.
  - cbn [List.concat] in H. rewrite <- app_assoc in H.
    apply app_eq_app in H as [q [[H1 H2] | [H1 H2]]].
    + (* [s] holds the line *)
      destruct (IH tail q t (eq_sym H2))
        as [(l1 & line & l2 & p & q' & E1 & E2 & E3 & E4) | (s2 & E1 & E2)].
      * left. exists (l :: l1), line, l2, p, q'.
        repeat split; try assumption.
        -- now rewrite E1.
        -- cbn [List.concat]. now rewrite <- app_assoc, <- E4.
      * right. exists s2. split; [|assumption].
        cbn [List.concat]. now rewrite <- app_assoc, <- E1.
    + (* the line ends after [s] *)
      destruct q as [|b q].
      * rewrite app_nil_r in H1. subst l.
        destruct (IH tail [] t H2)
          as [(l1 & line & l2 & p & q & E1 & E2 & E3 & E4) | (s2 & E1 & E2)].
        -- left. exists (s :: l1), line, l2, p, q.
           repeat split; try assumption.
           ++ now rewrite E1.
           ++ cbn [List.concat]. now rewrite <- app_assoc, <- E4, app_nil_r.
        -- right. exists s2. split; [|assumption].
           cbn [List.concat]. now rewrite <- app_assoc, <- E1, app_nil_r.
      * left. exists [], l, ls, s, (b :: q).
        repeat split; [assumption | discriminate].
Qed.

Lemma noLF_cut (line p q : list byte) :
  isLine line = true -> line = p ++ q -> q <> [] ->
  noLF p = true /\ (List.length p < List.length line)%nat.
Proof.
  intros Hl E Hq. apply isLine_split in Hl as (l & El & Hn).
  split.
  - rewrite E in El. destruct (exists_last Hq) as (q' & b & ->).
    rewrite app_assoc in El. apply app_inj_tail in El as [El _].
    rewrite <- El, noLF_app in Hn. now apply andb_true_iff in Hn as [Hn _].
  - rewrite E, length_app. destruct q; [congruence | cbn [List.length]; lia].
Qed.

Lemma passes_lines (ls : list (list byte)) (found : bool) :
  passes found ls = true ->
  forallb headerLine ls = true /\ forallb fits ls = true.
Proof.
  revert found. induction ls as [|l ls IH]; intros found H; [now split|].
  cbn [passes forallb] in *. apply andb_true_iff in H as [H1 H2].
  apply andb_true_iff in H1 as [H1 H1']. rewrite H1, H1'. cbn [andb].
  destruct (found || negb (isContentLength l)); [now apply (IH found)|].
  destruct (fmt.Sscanf _ _) as [[n v] oe].
  destruct n as [|[| |]|]; try discriminate H2.
  destruct oe; [discriminate H2|]. now apply (IH true).
Qed.

Lemma encode_lines (r : response) :
  encode r = List.concat (linesOf r) ++ body r.
Proof.
  unfold encode, linesOf, headerLines.
  cbn [List.concat]. rewrite !concat_app. cbn [List.concat].
  now rewrite app_nil_r, <- !app_assoc.
Qed.

Lemma wellFormed_statusLine (r : response) :
  wellFormed r = true -> isLine (statusLine (codeDigits r) (reason r)) = true.
Proof.
  unfold wellFormed. rewrite !andb_true_iff.
  intros ((((((((((Hc & Hr) & _) & _) & _) & _) & _) & _) & _) & _) & _).
  now apply isLine_statusLine.
Qed.

(** [parseStatus] after the whole header block of a response. *)
Lemma parseStatus_headers (r : response) (tail : list byte) :
  wellFormed r = true -> fitsBuffer r = true ->
  parseStatus (List.concat (linesOf r) ++ tail) =
  match bufio.Discard (digitsValue 0 (lengthDigits r)) tail with
  | (_, Some e, r3) => Ret (0, Some e, r3)
  | (_, None, r3) => Ret (statusOf r, None, r3)
  end.
Proof.
  unfold wellFormed, fitsBuffer. rewrite !andb_true_iff.
  intros ((((((((((Hc & Hr) & Hfs) & Hn) & Hp1) & Hp2) & Hne) & Hd) & Hv)
           & Hts) & Hb) ((Ff & Fl) & Ft).
  destruct (wellFormed_code r Hc) as (d1 & d2 & d3 & Ec & H1 & H2 & H3).
  apply eqBytes_eq in Hn. apply Z.leb_le in Hv.
  assert (Hne' : lengthDigits r <> []) by (destruct (lengthDigits r); easy).
  unfold linesOf, headerLines, statusOf, lengthField in *. rewrite Ec.
  cbn [List.concat]. rewrite !concat_app. cbn [List.concat].
  rewrite app_nil_r, <- !app_assoc.
  rewrite parseStatus_statusLine by assumption.
  rewrite readHeaders_length_block by (assumption || lia).
  reflexivity.
Qed.

Lemma app_eq_snoc {A : Type} (a b hs : list A) (x c : A) :
  a ++ x :: b = hs ++ [c] -> exists l3, hs = a ++ l3.
Proof.
  intros H. apply app_eq_app in H as [l [[H1 H2] | [H1 H2]]].
  - destruct l as [|y l].
    + exists []. now rewrite app_nil_r in *.
    + cbn [app] in H2. injection H2 as _ H2.
      destruct l; discriminate H2.
  - now exists l.
Qed.

(** On a stream that ends before the last byte of a well-formed
    response, [parseStatus] meets the end of the stream. *)
Lemma parseStatus_cut (r : response) (s t : list byte) :
  wellFormed r = true -> fitsBuffer r = true ->
  encode r = s ++ t -> t <> [] ->
  parseStatus s = Ret (0, Some io_EOF, []).
Proof.
  intros W F E Ht. rewrite encode_lines in E.
  pose proof (passes_headerLines r W F) as Hp.
  destruct (concat_split (linesOf r) (body r) s t (eq_sym E))
    as [(l1 & line & l2 & p & q & E1 & E2 & E3 & E4) | (s2 & E1 & E2)].
  - destruct l1 as [|sl l1].
    + (* in the status line *)
      unfold linesOf in E1. cbn [app] in E1. injection E1 as <- _.
      destruct (noLF_cut _ p q (wellFormed_statusLine r W) E2 E3) as [Hn _].
      cbn [List.concat app] in E4. subst s.
      unfold parseStatus. now rewrite ReadString_noLF.
    + (* in a header line, or in the empty line *)
      unfold linesOf in E1. cbn [app] in E1. injection E1 as <- E1.
      assert (Hin : In line (headerLines r ++ [CRLF]))
        by (rewrite E1; apply in_elt).
      symmetry in E1. destruct (app_eq_snoc _ _ _ _ _ E1) as (l3 & E5).
      rewrite E5 in Hp. apply passes_app in Hp.
      assert (Hline : isLine line = true /\ fits line = true).
      { apply in_app_or in Hin as [Hin | [<- | []]]; [|now split].
        destruct (passes_lines _ _ (passes_headerLines r W F)) as [A B].
        rewrite forallb_forall in A, B. specialize (A line Hin).
        unfold headerLine in A. apply andb_true_iff in A as [A _].
        split; [assumption | now apply B]. }
      destruct Hline as [Hl Hf].
      destruct (noLF_cut line p q Hl E2 E3) as [Hn Hlen].
      unfold fits in Hf. apply Nat.leb_le in Hf.
      subst s. cbn [List.concat]. rewrite <- app_assoc.
      unfold wellFormed in W. rewrite !andb_true_iff in W.
      destruct W as ((((((((((Hc & Hr) & _) & _) & _) & _) & _) & _) & _) & _) & _).
      destruct (wellFormed_code r Hc) as (d1 & d2 & d3 & Ec & H1 & H2 & H3).
      rewrite Ec. rewrite parseStatus_statusLine by assumption.
      destruct (passes_lines _ _ Hp) as [A _].
      pose proof (headerLine_nonempty l1 A) as Hlines.
      rewrite readHeaders_cut; [reflexivity | assumption | assumption | lia |].
      rewrite length_app. lia.
  - (* in the body *)
    subst s. rewrite parseStatus_headers by assumption.
    assert (Hb : Z.of_nat (List.length (body r)) = digitsValue 0 (lengthDigits r)).
    { unfold wellFormed in W. rewrite !andb_true_iff in W.
      destruct W as (_ & Hb). now apply Z.eqb_eq in Hb. }
    rewrite Discard_short; [reflexivity|].
    rewrite <- Hb, E2, length_app.
    destruct t; [congruence | cbn [List.length]; lia].
Qed.

(** C3, as the claim states it, fails: the stream ends in the middle of
    the status line, in the middle of the header block, or before the
    whole body was delivered, and [Probe] returns the verdict false with
    a nil error, not an error. *)
Lemma Probe_cut_short_no_error :
  Probe (connection (bytes "HTTP/1.1 20")) (optionsProber_Prober exampleHost)
  = Ret (false, None)
  /\ Probe (connection (bytes "HTTP/1.1 200 OK" ++ CRLF ++ bytes "Content-Le"))
       (optionsProber_Prober exampleHost)
     = Ret (false, None)
  /\ Probe (connection (encode response200 ++ bytes "HTTP/1.1 400 Bad Request"
                        ++ CRLF ++ bytes "Content-Length: 4" ++ CRLF ++ CRLF
                        ++ bytes "bo"))
       (optionsProber_Prober exampleHost)
     = Ret (false, None).
Proof. repeat split; vm_compute; reflexivity. Qed.

(** C3, amended: on every stream that ends after some but not all bytes
    of a well-formed response whose header lines fit the buffer of the
    reader (in its status line, in its header block or in its body),
    [parseStatus] returns [io.EOF] with the stream consumed, [ReadRequest] of the default prober returns
    [expected = false] with a nil error for that response, and [Probe]
    returns the verdict false with a nil error, when the response is the
    first one and when it follows a complete first response. *)
Theorem Probe_cut_short (h : optionsProber) (r : response) (s t : list byte) :
  wellFormed r = true -> fitsBuffer r = true ->
  encode r = s ++ t -> t <> [] ->
  parseStatus s = Ret (0, Some io_EOF, [])
  /\ (forall id, (id < 2)%N ->
        OptionsProber.ReadRequest h id s = Ret (false, None, []))
  /\ (forall rw, io.failure (io.sink rw) = None -> io.incoming rw = s ->
        Probe rw (optionsProber_Prober h) = Ret (false, None))
  /\ (forall rw r0,
        io.failure (io.sink rw) = None ->
        wellFormed r0 = true -> fitsBuffer r0 = true ->
        io.incoming rw = encode r0 ++ s ->
        Probe rw (optionsProber_Prober h) = Ret (false, None)).
Proof.
  intros W F E Ht.
  pose proof (parseStatus_cut r s t W F E Ht) as P.
  assert (R : forall id, (id < 2)%N ->
            OptionsProber.ReadRequest h id s = Ret (false, None, [])).
  { intros id Hid. now apply (ReadRequest_EOF h id s [] 0). }
  assert (R0 : forall id, (id < 2)%N ->
            OptionsProber.ReadRequest h id [] = Ret (false, None, [])).
  { intros id Hid. now apply (ReadRequest_EOF h id [] [] 0). }
  repeat split; try assumption.
  - intros rw Hs Hin.
    apply (Probe_default_both h rw false false [] [] Hs).
    + rewrite Hin. now apply R.
    + now apply R0.
  - intros rw r0 Hs W0 F0 Hin.
    rewrite (Probe_default_both h rw (expectedStatus 0 (statusOf r0)) false
               s [] Hs).
    + now rewrite andb_false_r.
    + rewrite Hin. apply ReadRequest_status; [reflexivity|].
      now apply parseStatus_response.
    + now apply R.
Qed.

Lemma Probe_cut_short_witness :
  parseStatus (bytes "HTTP/1.1 400 Bad Request" ++ CRLF ++ bytes "Server: Apa")
  = Ret (0, Some io_EOF, [])
  /\ Probe (connection (encode response200 ++ bytes "HTTP/1.1 400 Bad Request"
                        ++ CRLF ++ bytes "Server: Apa"))
       (optionsProber_Prober exampleHost)
     = Ret (false, None).
Proof.
  assert (T : bytes "che" ++ CRLF ++ bytes "Content-Length: 4" ++ CRLF ++ CRLF
              ++ bytes "body" <> []) by discriminate.
  destruct (Probe_cut_short exampleHost response400
              (bytes "HTTP/1.1 400 Bad Request" ++ CRLF ++ bytes "Server: Apa")
              (bytes "che" ++ CRLF ++ bytes "Content-Length: 4" ++ CRLF ++ CRLF
               ++ bytes "body")
              eq_refl eq_refl eq_refl T) as (H1 & _ & _ & H4).
  split; [exact H1|].
  exact (H4 (connection (encode response200 ++ bytes "HTTP/1.1 400 Bad Request"
                         ++ CRLF ++ bytes "Server: Apa"))
            response200 eq_refl eq_refl eq_refl eq_refl).
Defined.

(** ** The runs of Probe *)

Lemma upto_S (k : nat) : upto (S k) = upto k ++ [N.of_nat k].
Proof. unfold upto. now rewrite seq_S, map_app. Qed.








(** C9: with a prober whose [NumRequests] is 0, [Probe] returns
    [(true, nil)]; it calls neither [WriteRequest] nor [ReadRequest], the
    flush of the empty writer writes nothing to the sink, and nothing is
    read from the stream. *)
Theorem Probe_no_requests (rw : io.ReadWriter) (p : Prober) :
  NumRequests p = 0%N ->
  Probe rw p = Ret (true, None)
  /\ ProbeRun rw p
     = Ret {| available := true; err := None; calls := [CallFlush];
              bw := bufio.NewWriter (io.sink rw); br := io.incoming rw |}.
Proof.
  intros H. unfold Probe, ProbeRun. rewrite H. now split.
Qed.

Lemma Probe_no_requests_witness :
  Probe (connection (encode response200)) idleProber = Ret (true, None)
  /\ ProbeRun (connection (encode response200)) idleProber
     = Ret {| available := true; err := None; calls := [CallFlush];
              bw := bufio.NewWriter (io.sink (connection (encode response200)));
              br := encode response200 |}.
Proof.
  exact (Probe_no_requests (connection (encode response200)) idleProber eq_refl).
Defined.

(** ** The verdict of Probe *)

Lemma readRequests_served (p : Prober) (ws : list write) (br0 br1 : bufio.Reader)
    (es : list bool) :
  served p ws br0 es br1 ->
  forall (a : bool) (log : list call) (rest : list write),
  readRequests p (ws ++ rest) a br0 log
  = readRequests p rest (a && forallb (fun b => b) es) br1
      (log ++ map CallReadRequest (map fst ws)).
Proof.
  induction 1 as [br|id ws br br1 br2 e es He Hs IH]; intros a log rest.
  - cbn [app forallb map]. now rewrite andb_true_r, app_nil_r.
  - cbn [app readRequests]. rewrite He. cbn [bind].
    rewrite IH. cbn [forallb map fst]. now rewrite andb_assoc, <- app_assoc.
Qed.




(** ** The two versions of Probe *)

Lemma runWrites_app (p : Prober) (a b : list N) (w : bufio.Writer) :
  runWrites p (a ++ b) w =
  match runWrites p a w with
  | Some w1 => runWrites p b w1
  | None => None
  end.
Proof.
  revert w. induction a as [|id a IH]; intros w; [reflexivity|].
  cbn [app runWrites].
  destruct (WriteRequest p id w) as [[[e|] w1]|]; try reflexivity. apply IH.
Qed.

Lemma runReads_app (p : Prober) (a b : list N) (r : bufio.Reader) :
  runReads p (a ++ b) r =
  match runReads p a r with
  | Some (es1, r1) =>
    match runReads p b r1 with
    | Some (es2, r2) => Some (es1 ++ es2, r2)
    | None => None
    end
  | None => None
  end.
Proof.
  revert r. induction a as [|id a IH]; intros r.
  - cbn [app runReads]. now destruct (runReads p b r) as [[es2 r2]|].
  - cbn [app runReads].
    destruct (ReadRequest p id r) as [[[e [e'|]] r1]|]; try reflexivity.
    rewrite IH. destruct (runReads p a r1) as [[es1 r2]|]; [|reflexivity].
    now destruct (runReads p b r2) as [[es2 r3]|].
Qed.

Lemma runReads_length (p : Prober) (ids : list N) :
  forall r es r1, runReads p ids r = Some (es, r1) ->
  List.length es = List.length ids.
Proof.
  induction ids as [|id ids IH]; intros r es r1 H; cbn [runReads] in H.
  - now injection H as <- _.
  - destruct (ReadRequest p id r) as [[[e [e'|]] r2]|]; try discriminate.
    destruct (runReads p ids r2) as [[es' r3]|] eqn:E; [|discriminate].
    injection H as <- _. cbn [List.length]. f_equal. now apply (IH r2 es' r3).
Qed.

Lemma upto_split (k n : nat) :
  (k <= n)%nat -> upto n = upto k ++ map N.of_nat (seq k (n - k)).
Proof.
  intros H. unfold upto. rewrite <- map_app, <- seq_app. do 2 f_equal. lia.
Qed.

Lemma length_upto (k : nat) : List.length (upto k) = k.
Proof. unfold upto. now rewrite length_map, length_seq. Qed.

(** The writes and the reads of the first version, when nothing fails. *)
Lemma writeRequests_run (p : Prober) (k : nat) :
  forall (a : nat) (w w1 : bufio.Writer) (log : list call),
  runWrites p (map N.of_nat (seq a k)) w = Some w1 ->
  writeRequests p k (N.of_nat a) w log
  = Ret (map (fun i => (i, None)) (map N.of_nat (seq a k)), w1,
         log ++ map CallWriteRequest (map N.of_nat (seq a k))).
Proof.
  induction k as [|k IH]; intros a w w1 log H.
  - cbn [seq map runWrites] in *. injection H as <-. now rewrite app_nil_r.
  - cbn [seq map runWrites writeRequests] in *.
    destruct (WriteRequest p (N.of_nat a) w) as [[[e|] w2]|]; try discriminate.
    cbn [bind]. rewrite <- Nat2N.inj_succ. rewrite (IH _ _ _ _ H).
    cbn [bind]. now rewrite <- app_assoc.
Qed.

Lemma served_run (p : Prober) (ids : list N) :
  forall r es r1, runReads p ids r = Some (es, r1) ->
  served p (map (fun i => (i, None)) ids) r es r1.
Proof.
  induction ids as [|id ids IH]; intros r es r1 H; cbn [runReads] in H.
  - injection H as <- <-. constructor.
  - destruct (ReadRequest p id r) as [[[e [e'|]] r2]|] eqn:E; try discriminate.
    destruct (runReads p ids r2) as [[es' r3]|] eqn:E2; [|discriminate].
    injection H as <- <-. cbn [map]. econstructor; [exact E | now apply IH].
Qed.

Lemma Probe_run (rw : io.ReadWriter) (p : Prober) (w1 w2 : bufio.Writer)
    (es : list bool) (r1 : bufio.Reader) :
  runWrites p (upto (N.to_nat (NumRequests p))) (bufio.NewWriter (io.sink rw))
  = Some w1 ->
  bufio.Flush w1 = (None, w2) ->
  runReads p (upto (N.to_nat (NumRequests p))) (io.incoming rw) = Some (es, r1) ->
  Probe rw p = Ret (all es, None).
Proof.
  intros HW HF HR. unfold Probe, ProbeRun.
  change 0%N with (N.of_nat 0). unfold upto in HW.
  rewrite (writeRequests_run p _ _ _ _ [] HW). cbn [bind]. rewrite HF.
  apply served_run in HR.
  rewrite <- (app_nil_r (map (fun i => (i, None)) _)).
  unfold bufio.NewReader, upto in *.
  rewrite (readRequests_served p _ _ _ _ HR). reflexivity.
Qed.

Lemma resultsOf_snoc (ids : list N) (es : list bool) (id : N) (e : bool) :
  List.length ids = List.length es ->
  resultsOf (ids ++ [id]) (es ++ [e]) = resultsOf ids es ++ [(id, e, None)].
Proof.
  revert es. unfold resultsOf.
  induction ids as [|x ids IH]; intros [|y es] H; try discriminate H;
    [reflexivity|].
  cbn [app combine map]. rewrite IH by (now injection H). reflexivity.
Qed.

Lemma okOf_resultsOf (ids : list N) (es : list bool) :
  List.length ids = List.length es -> map okOf (resultsOf ids es) = es.
Proof.
  revert es. induction ids as [|id ids IH]; intros [|e es] H;
    try discriminate H; [reflexivity|].
  cbn [resultsOf combine map okOf fst snd] in *.
  f_equal. apply IH. now injection H.
Qed.

Lemma errOf_resultsOf (ids : list N) (es : list bool) :
  Forall (fun r => errOf r = None) (resultsOf ids es).
Proof.
  unfold resultsOf. apply Forall_map, Forall_forall. reflexivity.
Qed.

Lemma all_Permutation (a b : list bool) : Permutation a b -> all a = all b.
Proof.
  unfold all. induction 1 as [|x a b H IH|x y a|a b c H1 IH1 H2 IH2];
    cbn [forallb].
  - reflexivity.
  - now rewrite IH.
  - now rewrite !andb_assoc, (andb_comm y x).
  - now rewrite IH1.
Qed.

(** The main goroutine on results without errors. *)
Lemma collect_results (k : nat) :
  forall (a : bool) (rs : list Pipelined.result) out,
  Forall (fun r => errOf r = None) rs ->
  Pipelined.collect k a rs = Some out ->
  (k <= List.length rs)%nat
  /\ out = (a && all (map okOf (firstn k rs)), None).
Proof.
  induction k as [|k IH]; intros a rs out Hrs H.
  - cbn [Pipelined.collect] in H. injection H as <-.
    cbn [firstn map all forallb]. rewrite andb_true_r. split; [lia|reflexivity].
  - cbn [Pipelined.collect] in H. destruct rs as [|[[id ok] e] rs];
      [discriminate|].
    inversion Hrs as [|? ? He Hrs']; subst. cbn [errOf snd] in He. subst e.
    destruct (IH _ _ _ Hrs' H) as [Hk ->].
    cbn [List.length firstn map okOf fst snd all forallb].
    split; [lia|]. now rewrite andb_assoc.
Qed.

Lemma collect_all (rs : list Pipelined.result) :
  forall (a : bool),
  Forall (fun r => errOf r = None) rs ->
  Pipelined.collect (List.length rs) a rs = Some (a && all (map okOf rs), None).
Proof.
  induction rs as [|[[id ok] e] rs IH]; intros a H.
  - cbn. now rewrite andb_true_r.
  - inversion H as [|? ? He Hrs']; subst. cbn [errOf snd] in He. subst e.
    cbn [List.length Pipelined.collect]. rewrite IH by assumption.
    cbn [map okOf fst snd all forallb]. now rewrite andb_assoc.
Qed.

Section NothingFails.

Variable rw : io.ReadWriter.
Variable p : Prober.
Variable wN : bufio.Writer.
Variable es : list bool.
Variable rN : bufio.Reader.

Local Abbreviation n := (N.to_nat (NumRequests p)).

Hypothesis writes_ok :
  runWrites p (upto n) (bufio.NewWriter (io.sink rw)) = Some wN.

Hypothesis reads_ok : runReads p (upto n) (io.incoming rw) = Some (es, rN).

Lemma write_next (i : nat) (w : bufio.Writer) :
  (i < n)%nat ->
  runWrites p (upto i) (bufio.NewWriter (io.sink rw)) = Some w ->
  exists w', WriteRequest p (N.of_nat i) w = Ret (None, w')
    /\ runWrites p (upto (S i)) (bufio.NewWriter (io.sink rw)) = Some w'.
Proof.
  intros Hi Hw. pose proof writes_ok as H.
  rewrite (upto_split (S i) n), runWrites_app in H by lia.
  destruct (runWrites p (upto (S i)) _) as [w'|] eqn:E; [|discriminate].
  exists w'. split; [|reflexivity].
  rewrite upto_S, runWrites_app, Hw in E. cbn [runWrites] in E.
  destruct (WriteRequest p (N.of_nat i) w) as [[[e|] w2]|]; try discriminate.
  now injection E as ->.
Qed.

Lemma read_next (j : nat) (esj : list bool) (r : bufio.Reader) :
  (j < n)%nat ->
  runReads p (upto j) (io.incoming rw) = Some (esj, r) ->
  exists e r', ReadRequest p (N.of_nat j) r = Ret (e, None, r')
    /\ runReads p (upto (S j)) (io.incoming rw) = Some (esj ++ [e], r').
Proof.
  intros Hj Hr. pose proof reads_ok as H.
  rewrite (upto_split (S j) n), runReads_app in H by lia.
  destruct (runReads p (upto (S j)) _) as [[es' r']|] eqn:E; [|discriminate].
  rewrite upto_S, runReads_app, Hr in E. cbn [runReads] in E.
  destruct (ReadRequest p (N.of_nat j) r) as [[[e [e'|]] r2]|];
    try discriminate.
  injection E as <- <-. now exists e, r2.
Qed.

Lemma reads_all (esn : list bool) (r : bufio.Reader) :
  runReads p (upto n) (io.incoming rw) = Some (esn, r) -> esn = es.
Proof. rewrite reads_ok. now intros [= <- _]. Qed.

Lemma sound_start : sound rw p (Pipelined.start rw).
Proof.
  exists O, O, []. cbn. repeat split; try reflexivity; lia.
Qed.

Lemma sound_step (st st' : Pipelined.state) :
  sound rw p st -> Pipelined.step p st st' -> sound rw p st'.
Proof.
  intros (i & j & esj & Hi & Hj & Hle & Hf & Hw & Hr & Hp) Hstep.
  destruct Hstep as [st e bw' Hlt He | st ok e br' Hlt Hnf He | st d1 d2 r Hd].
  - (* a write *)
    assert (Hin : (i < n)%nat) by lia.
    rewrite Hi in He. destruct (write_next i _ Hin Hw) as (w' & E & Hw').
    rewrite E in He. injection He as <- <-.
    exists (S i), j, esj. cbn [Pipelined.requests Pipelined.responses
      Pipelined.failed Pipelined.bw Pipelined.br Pipelined.finished
      Pipelined.results].
    rewrite Hi, Nat2N.inj_succ. repeat split; try assumption; lia.
  - (* a read *)
    assert (Hjn : (j < n)%nat) by lia.
    rewrite Hj in He. destruct (read_next j _ _ Hjn Hr) as (e0 & r' & E & Hr').
    rewrite E in He. injection He as <- <- <-.
    exists i, (S j), (esj ++ [e0]). cbn [Pipelined.requests Pipelined.responses
      Pipelined.failed Pipelined.bw Pipelined.br Pipelined.finished
      Pipelined.results].
    rewrite Hj, Nat2N.inj_succ.
    repeat split; try assumption; try lia.
    rewrite upto_S, resultsOf_snoc
      by (symmetry; apply (runReads_length p _ _ _ _ Hr)).
    cbn [app]. now apply Permutation_cons_app; rewrite app_nil_r.
  - (* a send *)
    exists i, j, esj. cbn [Pipelined.requests Pipelined.responses
      Pipelined.failed Pipelined.bw Pipelined.br Pipelined.finished
      Pipelined.results].
    repeat split; try assumption; try lia.
    rewrite Hd in Hp. rewrite <- Hp.
    rewrite <- !app_assoc. apply Permutation_app_head.
    cbn [app]. rewrite app_assoc.
    apply Permutation_sym, Permutation_cons_append.
Qed.

Lemma sound_reaches (st1 st2 : Pipelined.state) :
  Pipelined.reaches p st1 st2 -> sound rw p st1 -> sound rw p st2.
Proof.
  induction 1 as [st|st1 st2 st3 _ IH Hs]; [trivial|].
  intros H. eapply sound_step; [|exact Hs]. now apply IH.
Qed.

(** Whatever the pipelined version returns is the conjunction of the
    [expected] results, without an error. *)
Lemma Pipelined_returns_only (out : bool * option error) :
  Pipelined.Probe rw p out -> out = (all es, None).
Proof.
  intros (st & Hreach & Hc).
  destruct (sound_reaches _ _ Hreach sound_start)
    as (i & j & esj & Hi & Hj & Hle & Hf & Hw & Hr & Hp).
  pose proof (runReads_length p _ _ _ _ Hr) as Hlen.
  rewrite length_upto in Hlen.
  assert (Hall : Forall (fun r => errOf r = None)
                   (Pipelined.finished st ++ Pipelined.results st)).
  { eapply Permutation_Forall; [apply Permutation_sym, Hp|].
    apply errOf_resultsOf. }
  apply Forall_app in Hall as [_ Hres].
  destruct (collect_results n true _ out Hres Hc) as [Hn ->].
  pose proof (Permutation_length Hp) as Hl.
  unfold resultsOf in Hl.
  rewrite length_app, length_map, length_combine, length_upto, Hlen in Hl.
  rewrite Nat.min_id in Hl.
  assert (Hjn : j = n) by lia. rewrite Hjn in Hr, Hp, Hlen, Hl.
  assert (Hfin : Pipelined.finished st = []).
  { destruct (Pipelined.finished st); [reflexivity | cbn [List.length] in Hl; lia]. }
  rewrite Hfin in Hp. cbn [app] in Hp.
  rewrite firstn_all2 by lia. cbn [andb].
  rewrite (all_Permutation _ _ (Permutation_map okOf Hp)).
  rewrite okOf_resultsOf by (now rewrite length_upto).
  now rewrite (reads_all esj _ Hr).
Qed.

Lemma reaches_afterWrites (k : nat) :
  (k <= n)%nat ->
  exists w, runWrites p (upto k) (bufio.NewWriter (io.sink rw)) = Some w
    /\ Pipelined.reaches p (Pipelined.start rw) (afterWrites rw k w).
Proof.
  induction k as [|k IH]; intros Hk.
  - eexists. split; [reflexivity|]. apply Pipelined.reaches_refl.
  - destruct IH as (w & Hw & Hreach); [lia|].
    destruct (write_next k w ltac:(lia) Hw) as (w' & E & Hw').
    exists w'. split; [assumption|].
    eapply Pipelined.reaches_step; [exact Hreach|].
    pose proof (Pipelined.step_write p (afterWrites rw k w) None w') as S.
    cbn [afterWrites Pipelined.bw Pipelined.br Pipelined.requests
         Pipelined.responses Pipelined.failed Pipelined.finished
         Pipelined.results] in S.
    rewrite <- Nat2N.inj_succ in S. apply S; [lia | exact E].
Qed.

Lemma reaches_afterReads (j : nat) :
  (j <= n)%nat ->
  exists esj r, runReads p (upto j) (io.incoming rw) = Some (esj, r)
    /\ Pipelined.reaches p (Pipelined.start rw) (afterReads rw p wN j esj r).
Proof.
  induction j as [|j IH]; intros Hj.
  - exists [], (io.incoming rw). split; [reflexivity|].
    destruct (reaches_afterWrites n (Nat.le_refl n)) as (w & Hw & Hreach).
    rewrite writes_ok in Hw. injection Hw as <-.
    unfold afterWrites in Hreach. rewrite N2Nat.id in Hreach. exact Hreach.
  - destruct IH as (esj & r & Hr & Hreach); [lia|].
    destruct (read_next j esj r ltac:(lia) Hr) as (e & r' & E & Hr').
    exists (esj ++ [e]), r'. split; [assumption|].
    eapply Pipelined.reaches_step.
    + eapply Pipelined.reaches_step; [exact Hreach|].
      pose proof (Pipelined.step_read p (afterReads rw p wN j esj r) e None r') as S.
      cbn [afterReads Pipelined.bw Pipelined.br Pipelined.requests
           Pipelined.responses Pipelined.failed Pipelined.finished
           Pipelined.results] in S.
      apply S; [lia | intros [] | exact E].
    + pose proof (Pipelined.step_send p
        {| Pipelined.bw := wN; Pipelined.br := r';
           Pipelined.requests := NumRequests p;
           Pipelined.responses := N.succ (N.of_nat j);
           Pipelined.failed := [];
           Pipelined.finished := [(N.of_nat j, e, None)];
           Pipelined.results := resultsOf (upto j) esj |}
        [] [] (N.of_nat j, e, None) eq_refl) as S.
      cbn [app Pipelined.bw Pipelined.br Pipelined.requests
           Pipelined.responses Pipelined.failed Pipelined.finished
           Pipelined.results] in S.
      unfold afterReads.
      rewrite upto_S, resultsOf_snoc, Nat2N.inj_succ
        by (rewrite length_upto; symmetry;
            rewrite <- (length_upto j) at 1;
            apply (runReads_length p _ _ _ _ Hr)).
      exact S.
Qed.

(** And it can return that. *)
Lemma Pipelined_returns : Pipelined.Probe rw p (all es, None).
Proof.
  destruct (reaches_afterReads n (Nat.le_refl n)) as (esn & r & Hr & Hreach).
  rewrite (reads_all esn r Hr) in Hreach.
  exists (afterReads rw p wN n es r). split; [assumption|].
  cbn [afterReads Pipelined.results].
  pose proof (runReads_length p _ _ _ _ reads_ok) as Hlen.
  rewrite length_upto in Hlen.
  assert (L : List.length (resultsOf (upto n) es) = n).
  { unfold resultsOf.
    rewrite length_map, length_combine, length_upto, Hlen. apply Nat.min_id. }
  rewrite <- L at 1. rewrite collect_all by apply errOf_resultsOf.
  rewrite okOf_resultsOf by (now rewrite length_upto). reflexivity.
Qed.

End NothingFails.

(** C10, as the claim states it, fails: on a sink that rejects the
    buffered requests no call of [WriteRequest] or [ReadRequest] of the
    default prober fails, the version with the writer goroutine returns
    the error of its flush, and the version on [textproto.Pipeline],
    which does not flush, returns the verdict true. *)
Lemma Probe_versions_differ :
  runWrites (optionsProber_Prober exampleHost) (upto 2)
    (bufio.NewWriter
       (io.sink (brokenConnection (encode response200 ++ encode response400)
                   (otherError 32))))
  <> None
  /\ runReads (optionsProber_Prober exampleHost) (upto 2)
       (encode response200 ++ encode response400)
     = Some ([true; true], [])
  /\ Probe (brokenConnection (encode response200 ++ encode response400)
              (otherError 32))
       (optionsProber_Prober exampleHost)
     = Ret (false, Some (otherError 32))
  /\ Pipelined.Probe
       (brokenConnection (encode response200 ++ encode response400)
          (otherError 32))
       (optionsProber_Prober exampleHost) (true, None).
Proof.
  split; [vm_compute; discriminate|].
  split; [vm_compute; reflexivity|].
  split; [vm_compute; reflexivity|].
  exact (Pipelined_returns
           (brokenConnection (encode response200 ++ encode response400)
              (otherError 32))
           (optionsProber_Prober exampleHost) _ [true; true] [] eq_refl eq_refl).
Qed.

(** C10, amended: for every prober and every stream on which no call of
    [WriteRequest] and no call of [ReadRequest] fails, and on which the
    flush of the version with the writer goroutine succeeds, the two
    versions of [Probe] return the same verdict, the conjunction of the
    [expected] results, and a nil error: the first version returns it,
    and the version on [textproto.Pipeline] can return it and returns
    nothing else, however its goroutines are scheduled. *)
Theorem Probe_versions_agree (rw : io.ReadWriter) (p : Prober)
    (w1 w2 : bufio.Writer) (es : list bool) (r1 : bufio.Reader) :
  runWrites p (upto (N.to_nat (NumRequests p))) (bufio.NewWriter (io.sink rw))
  = Some w1 ->
  runReads p (upto (N.to_nat (NumRequests p))) (io.incoming rw)
  = Some (es, r1) ->
  bufio.Flush w1 = (None, w2) ->
  Probe rw p = Ret (all es, None)
  /\ Pipelined.Probe rw p (all es, None)
  /\ (forall out, Pipelined.Probe rw p out -> out = (all es, None)).
Proof.
  intros HW HR HF. split; [|split].
  - exact (Probe_run rw p w1 w2 es r1 HW HF HR).
  - exact (Pipelined_returns rw p w1 es r1 HW HR).
  - exact (Pipelined_returns_only rw p w1 es r1 HW HR).
Qed.

Lemma Probe_versions_agree_witness :
  Probe (connection (encode response200 ++ encode response400))
    (optionsProber_Prober exampleHost) = Ret (true, None)
  /\ Pipelined.Probe (connection (encode response200 ++ encode response400))
       (optionsProber_Prober exampleHost) (true, None)
  /\ (forall out,
        Pipelined.Probe (connection (encode response200 ++ encode response400))
          (optionsProber_Prober exampleHost) out ->
        out = (true, None)).
Proof.
  exact (Probe_versions_agree
           (connection (encode response200 ++ encode response400))
           (optionsProber_Prober exampleHost) _ _ [true; true] []
           eq_refl eq_refl eq_refl).
Defined.

(** * Further properties of the code *)

(** ** bufio.Writer on a sink with room for so many bytes *)


Lemma refused_app (k : io.Sink) (a b : list byte) (e : error) :
  refused k a = Some e -> refused k (a ++ b) = Some e.
Proof.
  unfold refused. destruct (io.failure k) as [[room e']|]; [|discriminate].
  rewrite length_app.
  destruct (Nat.ltb_spec room (List.length a)); [|discriminate].
  destruct (Nat.ltb_spec room (List.length a + List.length b)); [trivial | lia].
Qed.

Lemma taken_app (k : io.Sink) (a b : list byte) (e : error) :
  refused k a = Some e -> taken k (a ++ b) = taken k a.
Proof.
  unfold refused, taken. destruct (io.failure k) as [[room e']|]; [|discriminate].
  destruct (Nat.ltb_spec room (List.length a)); [|discriminate]. intros _.
  rewrite firstn_app.
  replace (room - List.length a)%nat with O by lia.
  cbn [firstn]. apply app_nil_r.
Qed.

Lemma taken_all (k : io.Sink) (a : list byte) :
  refused k a = None -> taken k a = a.
Proof.
  unfold refused, taken. destruct (io.failure k) as [[room e']|]; [|reflexivity].
  destruct (Nat.ltb_spec room (List.length a)); [discriminate|]. intros _.
  now apply firstn_all2.
Qed.

Lemma fed_nil (k : io.Sink) : fed k [] = k.
Proof.
  unfold fed. destruct k as [w [[room e]|]]; cbn [io.written io.failure];
    rewrite app_nil_r; [|reflexivity].
  cbn [List.length]. now rewrite Nat.sub_0_r.
Qed.

(** One write of the sink that has taken [sent]. *)
Lemma io_Write_fed (k : io.Sink) (sent p : list byte) :
  refused k sent = None ->
  match refused k (sent ++ p) with
  | None => io.Write p (fed k sent) = (List.length p, None, fed k (sent ++ p))
  | Some e =>
    exists n k', io.Write p (fed k sent) = (n, Some e, k')
      /\ io.written k' = io.written k ++ taken k (sent ++ p)
  end.
Proof.
  unfold refused, taken, fed, io.Write. cbn [io.failure io.written].
  destruct (io.failure k) as [[room e]|].
  - destruct (Nat.ltb_spec room (List.length sent)); [discriminate|]. intros _.
    rewrite length_app.
    destruct (Nat.ltb_spec room (List.length sent + List.length p)).
    + destruct (Nat.leb_spec (List.length p) (room - List.length sent)); [lia|].
      eexists _, _. split; [reflexivity|]. cbn [io.written].
      rewrite firstn_app, (@firstn_all2 _ room sent), <- app_assoc by assumption.
      reflexivity.
    + destruct (Nat.leb_spec (List.length p) (room - List.length sent)); [|lia].
      rewrite <- app_assoc. do 3 f_equal. f_equal. lia.
  - intros _. now rewrite <- app_assoc.
Qed.

Lemma carries_new (k : io.Sink) : carries k [] (bufio.NewWriter k).
Proof.
  left. split; [reflexivity|]. exists []. cbn [bufio.NewWriter bufio.buf bufio.wr app].
  repeat split.
  - unfold refused. destruct (io.failure k) as [[room e]|]; reflexivity.
  - symmetry. apply fed_nil.
Qed.

Lemma carries_app (k : io.Sink) (t q : list byte) (b : bufio.Writer) :
  bufio.err b <> None -> carries k t b -> carries k (t ++ q) b.
Proof.
  intros He [[E _] | (e & E & Hr & Hw)]; [congruence|].
  right. exists e. rewrite (taken_app k t q e Hr).
  auto using refused_app.
Qed.

Lemma carries_buffer (k : io.Sink) (t q : list byte) (b : bufio.Writer) :
  bufio.err b = None -> carries k t b ->
  carries k (t ++ q)
    {| bufio.buf := bufio.buf b ++ q; bufio.err := None; bufio.wr := bufio.wr b |}.
Proof.
  intros He [(_ & sent & -> & Hr & Hw) | (e & E & _)]; [|congruence].
  left. split; [reflexivity|]. exists sent. cbn [bufio.buf bufio.wr].
  now rewrite <- app_assoc.
Qed.

Lemma Flush_carries (k : io.Sink) (t : list byte) (b : bufio.Writer) :
  carries k t b ->
  carries k t (snd (bufio.Flush b))
  /\ fst (bufio.Flush b) = bufio.err (snd (bufio.Flush b))
  /\ (bufio.err (snd (bufio.Flush b)) = None ->
      bufio.buf (snd (bufio.Flush b)) = []).
Proof.
  intros H. pose proof (Flush_empties b) as Hb. split; [|split; [|exact Hb]].
  - destruct H as [(He & sent & -> & Hr & Hw) | (e & E & Hr & Hw)].
    + unfold bufio.Flush. rewrite He.
      destruct (bufio.buf b) as [|x tl] eqn:Eb.
      { cbn [snd]. left. split; [assumption|]. exists sent. rewrite Eb. auto. }
      rewrite Hw. pose proof (io_Write_fed k sent (x :: tl) Hr) as W.
      destruct (refused k (sent ++ x :: tl)) as [e|] eqn:Er.
      * destruct W as (n & k' & -> & Hk'). cbn [snd].
        right. exists e. now repeat split.
      * rewrite W. unfold bufio.Buffered. rewrite Eb, Nat.ltb_irrefl. cbn [snd].
        left. split; [reflexivity|]. exists (sent ++ x :: tl).
        cbn [bufio.buf bufio.wr]. now rewrite app_nil_r.
    + unfold bufio.Flush. rewrite E. cbn [snd]. right. now exists e.
  - unfold bufio.Flush. destruct (bufio.err b) as [e|] eqn:E; [now cbn|].
    destruct (bufio.buf b) as [|x tl]; [now cbn|].
    destruct (io.Write (x :: tl) (bufio.wr b)) as [[n [e|]] k']; [reflexivity|].
    destruct (n <? bufio.Buffered b)%nat; reflexivity.
Qed.

Lemma writeLoop_carries (k : io.Sink) (fuel : nat) :
  forall (p : list byte) (nn : nat) (b : bufio.Writer) (t : list byte)
         p' nn' b',
  carries k t b ->
  bufio.writeLoop fuel p nn b = Ret (p', nn', b') ->
  (bufio.err b' = None /\ (List.length p' <= bufio.Available b')%nat
   /\ exists t', carries k t' b' /\ t' ++ p' = t ++ p)
  \/ (bufio.err b' <> None /\ carries k (t ++ p) b').
Proof.
  induction fuel as [|fuel IH]; intros p nn b t p' nn' b' Hc H.
  - cbn [bufio.writeLoop] in H.
    destruct (Nat.ltb_spec (bufio.Available b) (List.length p)) as [Hlt|Hge].
    + destruct (bufio.err b) as [e|] eqn:E; cbn [andb] in H; [|discriminate].
      injection H as <- <- <-. right.
      split; [congruence | apply carries_app; [congruence | assumption]].
    + cbn [andb] in H. injection H as <- <- <-.
      destruct (bufio.err b) as [e|] eqn:E.
      * right. split; [congruence | apply carries_app; [congruence | assumption]].
      * left. repeat split; [assumption|]. now exists t.
  - destruct (bufio.err b) as [e|] eqn:E.
    { rewrite writeLoop_stop in H by (right; congruence).
      injection H as <- <- <-. right.
      split; [congruence | apply carries_app; [congruence | assumption]]. }
    destruct (Nat.ltb_spec (bufio.Available b) (List.length p)) as [Hlt|Hge].
    2:{ rewrite writeLoop_stop in H by (left; assumption).
        injection H as <- <- <-. left. repeat split; try assumption.
        now exists t. }
    rewrite writeLoop_step in H by assumption.
    destruct (Nat.eqb_spec (bufio.Buffered b) 0) as [E0|E0].
    + (* an empty buffer: [p] goes to the sink *)
      destruct Hc as [(_ & sent & -> & Hr & Hw) | (e & E' & _)]; [|congruence].
      assert (Eb : bufio.buf b = [])
        by (unfold bufio.Buffered in E0; now destruct (bufio.buf b)).
      rewrite Eb, app_nil_r in *. rewrite Hw in H.
      pose proof (io_Write_fed k sent p Hr) as W.
      destruct (refused k (sent ++ p)) as [e|] eqn:Er.
      * destruct W as (n & k' & W & Hk'). rewrite W in H.
        rewrite writeLoop_stop in H by (right; discriminate).
        injection H as <- <- <-. right. split; [discriminate|].
        right. exists e. now repeat split.
      * rewrite W, skipn_all in H.
        rewrite writeLoop_stop in H by (left; apply Nat.le_0_l).
        injection H as <- <- <-. left. cbn [bufio.err].
        repeat split; [apply Nat.le_0_l|].
        exists (sent ++ p). rewrite app_nil_r. split; [|reflexivity].
        left. split; [reflexivity|]. exists (sent ++ p).
        cbn [bufio.buf bufio.wr]. now rewrite app_nil_r.
    + (* the buffer is filled and flushed *)
      cbv zeta in H.
      set (n := Nat.min (bufio.Available b) (List.length p)) in H.
      set (b1 := {| bufio.buf := bufio.buf b ++ firstn n p;
                    bufio.err := bufio.err b; bufio.wr := bufio.wr b |}) in H.
      assert (C1 : carries k (t ++ firstn n p) b1).
      { unfold b1. rewrite E. now apply carries_buffer. }
      destruct (Flush_carries k _ b1 C1) as (C2 & _ & _).
      destruct (bufio.err (snd (bufio.Flush b1))) as [e|] eqn:E2.
      * rewrite writeLoop_stop in H by (right; congruence).
        injection H as <- <- <-. right. split; [congruence|].
        rewrite <- (firstn_skipn n p) at 1. rewrite app_assoc.
        apply carries_app; [congruence | assumption].
      * destruct (IH _ _ _ _ _ _ _ C2 H) as [(He' & Hl & t' & Ct & Et) | (He' & Ct)].
        -- left. repeat split; try assumption. exists t'. split; [assumption|].
           now rewrite Et, <- app_assoc, firstn_skipn.
        -- right. split; [assumption|].
           now rewrite <- app_assoc, firstn_skipn in Ct.
Qed.

(** [Writer.Write(p)] on a writer that carries [t]: it carries [t ++ p]
    afterwards, and the error returned is the one that the writer
    keeps. *)
Lemma Write_carries (k : io.Sink) (t p : list byte) (b : bufio.Writer) :
  carries k t b ->
  exists n b', bufio.Write p b = Ret (n, bufio.err b', b')
    /\ carries k (t ++ p) b'.
Proof.
  intros Hc. destruct (Write_total p b) as (x & Hx). revert Hx.
  unfold bufio.Write.
  destruct (bufio.writeLoop 3 p O b) as [[[p1 nn] b1]|] eqn:EL; [|discriminate].
  cbn [bind]. intros _.
  destruct (writeLoop_carries k _ _ _ _ _ _ _ _ Hc EL)
    as [(He & Hl & t' & Ct & Et) | (He & Ct)].
  - rewrite He. rewrite Nat.min_r by assumption. rewrite firstn_all.
    exists (nn + List.length p1)%nat,
      {| bufio.buf := bufio.buf b1 ++ p1; bufio.err := None;
         bufio.wr := bufio.wr b1 |}.
    split; [reflexivity|]. rewrite <- Et. now apply carries_buffer.
  - destruct (bufio.err b1) as [e|] eqn:E; [|congruence].
    exists nn, b1. rewrite E. split; [reflexivity | exact Ct].
Qed.

Lemma Write_stuck (p : list byte) (b : bufio.Writer) (e : error) :
  bufio.err b = Some e -> bufio.Write p b = Ret (O, Some e, b).
Proof.
  intros E. unfold bufio.Write.
  rewrite writeLoop_stop by (right; congruence). cbn [bind]. now rewrite E.
Qed.

Lemma Flush_stuck (b : bufio.Writer) (e : error) :
  bufio.err b = Some e -> bufio.Flush b = (Some e, b).
Proof. intros E. unfold bufio.Flush. now rewrite E. Qed.

(** ** The requests of the default prober on the wire *)

Lemma WriteRequest0_carries (h : optionsProber) (k : io.Sink) (t : list byte)
    (b : bufio.Writer) :
  carries k t b ->
  exists b', OptionsProber.WriteRequest h 0 b = Ret (bufio.err b', b')
    /\ carries k (t ++ request "*" h) b'.
Proof.
  intros Hc. unfold OptionsProber.WriteRequest.
  destruct (Write_carries k t (request "*" h) b Hc) as (n & b' & -> & Hc').
  now exists b'.
Qed.

Lemma WriteRequest1_carries (h : optionsProber) (k : io.Sink) (t : list byte)
    (b : bufio.Writer) :
  carries k t b ->
  exists b', OptionsProber.WriteRequest h 1 b = Ret (bufio.err b', b')
    /\ carries k (t ++ request "." h) b'.
Proof.
  intros Hc. unfold OptionsProber.WriteRequest.
  destruct (Write_carries k t (request "." h) b Hc) as (n & b' & -> & Hc').
  now exists b'.
Qed.

Lemma carries_error (k : io.Sink) (t : list byte) (b : bufio.Writer) (e : error) :
  carries k t b -> bufio.err b = Some e ->
  refused k t = Some e
  /\ io.written (bufio.wr b) = io.written k ++ taken k t.
Proof.
  intros [(E & _) | (e' & E & Hr & Hw)] He; [congruence|].
  rewrite E in He. injection He as ->. now split.
Qed.

Lemma carries_flushed (k : io.Sink) (t : list byte) (b : bufio.Writer) :
  carries k t b -> bufio.err b = None -> bufio.buf b = [] ->
  refused k t = None /\ bufio.wr b = fed k t.
Proof.
  intros [(_ & sent & -> & Hr & Hw) | (e' & E & _)] He Hb; [|congruence].
  rewrite Hb, app_nil_r. now split.
Qed.

Lemma WriteRequest_keeps_error (h : optionsProber) (id : N)
    (b b' : bufio.Writer) (e : option error) :
  OptionsProber.WriteRequest h id b = Ret (e, b') ->
  bufio.err b' = None -> bufio.err b = None.
Proof.
  intros H He'. destruct (bufio.err b) as [e0|] eqn:E; [exfalso|reflexivity].
  unfold OptionsProber.WriteRequest in H.
  destruct id as [|[?|?|]]; try discriminate H;
    rewrite (Write_stuck _ b e0 E) in H; cbn [bind] in H;
    injection H as _ <-; congruence.
Qed.

(** The writer goroutine of the default prober, whatever the sink, and
    its flush. *)
Lemma writerGoroutine_default (h : optionsProber) (k : io.Sink)
    (log : list call) :
  exists b1 b2,
    writeRequests (optionsProber_Prober h) 2 0%N (bufio.NewWriter k) log
    = Ret ([(0%N, bufio.err b1); (1%N, bufio.err b2)], b2,
           (log ++ [CallWriteRequest 0]) ++ [CallWriteRequest 1])
    /\ carries k (requests h) b2
    /\ (bufio.err b2 = None -> bufio.err b1 = None).
Proof.
  cbn [writeRequests optionsProber_Prober WriteRequest].
  destruct (WriteRequest0_carries h k [] _ (carries_new k)) as (b1 & -> & C1).
  cbn [bind N.succ]. change (Pos.succ 1) with 2%positive.
  destruct (WriteRequest1_carries h k _ _ C1) as (b2 & E2 & C2).
  pose proof (WriteRequest_keeps_error _ _ _ _ _ E2) as K.
  rewrite E2. cbn [bind app] in *. now exists b1, b2.
Qed.

Lemma ProbeRun_default_any (h : optionsProber) (rw : io.ReadWriter) :
  match refused (io.sink rw) (requests h) with
  | Some e =>
    exists b,
      ProbeRun rw (optionsProber_Prober h)
      = Ret {| available := false; err := Some e;
               calls := [CallWriteRequest 0; CallWriteRequest 1; CallFlush];
               bw := b; br := io.incoming rw |}
      /\ io.written (bufio.wr b)
         = io.written (io.sink rw) ++ taken (io.sink rw) (requests h)
  | None =>
    exists b,
      ProbeRun rw (optionsProber_Prober h)
      = ('(a, e, br1, log) <-
           readRequests (optionsProber_Prober h) [(0%N, None); (1%N, None)]
             true (io.incoming rw)
             [CallWriteRequest 0; CallWriteRequest 1; CallFlush] ;;
         Ret {| available := a; err := e; calls := log; bw := b; br := br1 |})
      /\ bufio.buf b = [] /\ bufio.wr b = fed (io.sink rw) (requests h)
  end.
Proof.
  unfold ProbeRun.
  change (N.to_nat (NumRequests (optionsProber_Prober h))) with 2%nat.
  destruct (writerGoroutine_default h (io.sink rw) []) as (b1 & b2 & -> & C2 & K).
  cbn [bind app].
  destruct (Flush_carries _ _ _ C2) as (C3 & Hf & Hb).
  destruct (bufio.Flush b2) as [fe b3]. cbn [fst snd] in *. subst fe.
  destruct (bufio.err b3) as [e|] eqn:E3.
  - destruct (carries_error _ _ _ _ C3 E3) as [Hr Hw]. rewrite Hr.
    now exists b3.
  - destruct (carries_flushed _ _ _ C3 E3 (Hb eq_refl)) as [Hr Hw]. rewrite Hr.
    exists b3.
    assert (E2 : bufio.err b2 = None).
    { destruct (bufio.err b2) as [e|] eqn:E2; [|reflexivity]. exfalso.
      destruct C2 as [(E & _) | (e' & _ & Hr' & _)]; congruence. }
    rewrite (K E2), E2. unfold bufio.NewReader.
    split; [reflexivity|]. split; [auto | assumption].
Qed.

Lemma ProbeRun_default_total (h : optionsProber) (rw : io.ReadWriter) :
  exists r, ProbeRun rw (optionsProber_Prober h) = Ret r.
Proof.
  pose proof (ProbeRun_default_any h rw) as H.
  destruct (refused (io.sink rw) (requests h)) as [e|].
  - destruct H as (b & -> & _). eauto.
  - destruct H as (b & -> & _).
    cbn [readRequests optionsProber_Prober ReadRequest].
    destruct (ReadRequest_total h 0 (io.incoming rw) eq_refl)
      as ([[x0 [e0|]] r0] & ->); cbn [bind]; [eauto|].
    destruct (ReadRequest_total h 1 r0 eq_refl)
      as ([[x1 [e1|]] r1] & ->); cbn [bind]; eauto.
Qed.

(** X1: the bytes that [Probe] with the default prober puts on the wire
    are the two requests, [OPTIONS *] first, as far as the connection
    takes them: all of them on a connection that takes both, the host
    being of any length, and then nothing is left in the buffer of the
    writer when the first response is read. *)
Theorem Probe_default_wire (h : optionsProber) (rw : io.ReadWriter) :
  exists r,
    ProbeRun rw (optionsProber_Prober h) = Ret r
    /\ io.written (bufio.wr (bw r))
       = io.written (io.sink rw) ++ taken (io.sink rw) (requests h)
    /\ (refused (io.sink rw) (requests h) = None ->
        io.written (bufio.wr (bw r)) = io.written (io.sink rw) ++ requests h
        /\ bufio.buf (bw r) = []).
Proof.
  pose proof (ProbeRun_default_any h rw) as H.
  destruct (refused (io.sink rw) (requests h)) as [e|] eqn:Er.
  - destruct H as (b & -> & Hw). eexists. split; [reflexivity|].
    cbn [bw]. split; [assumption | discriminate].
  - destruct H as (b & E & Hb & Hw).
    destruct (ProbeRun_default_total h rw) as (r & Hr).
    exists r. split; [assumption|].
    assert (Eb : bw r = b).
    { rewrite E in Hr.
      destruct (readRequests _ _ _ _ _) as [[[[a e] br1] log]|];
        [|discriminate].
      cbn [bind] in Hr. now injection Hr as <-. }
    rewrite Eb, Hw, taken_all by assumption. cbn [fed io.written]. auto.
Qed.

Lemma Probe_default_wire_witness :
  exists r,
    ProbeRun (connection [])
      (optionsProber_Prober {| host := bytes "example.com" |}) = Ret r
    /\ io.written (bufio.wr (bw r))
       = requests {| host := bytes "example.com" |}
    /\ bufio.buf (bw r) = [].
Proof.
  destruct (Probe_default_wire {| host := bytes "example.com" |}
              (connection [])) as (r & Hr & _ & H).
  exists r. split; [exact Hr | exact (H eq_refl)].
Defined.

(** X2: a connection that does not take both requests of the default
    prober makes [Probe] return its write error, without a read; on a
    connection that takes them the result is the one on a connection
    that takes every byte: it depends on the responses alone. *)
Theorem Probe_default_sink (h : optionsProber) (rw : io.ReadWriter) :
  match refused (io.sink rw) (requests h) with
  | Some e =>
    Probe rw (optionsProber_Prober h) = Ret (false, Some e)
    /\ callsOf (ProbeRun rw (optionsProber_Prober h))
       = [CallWriteRequest 0; CallWriteRequest 1; CallFlush]
  | None =>
    Probe rw (optionsProber_Prober h)
    = Probe (connection (io.incoming rw)) (optionsProber_Prober h)
  end.
Proof.
  pose proof (ProbeRun_default_any h rw) as H.
  destruct (refused (io.sink rw) (requests h)) as [e|].
  - destruct H as (b & E & _). unfold Probe. rewrite E. now split.
  - destruct H as (b & E & _).
    rewrite (Probe_default h (connection (io.incoming rw)) eq_refl).
    unfold Probe. rewrite E. cbn [connection io.incoming].
    destruct (readRequests _ _ _ _ _) as [[[[a e] br1] log]|]; reflexivity.
Qed.

Lemma Supported_total (rw : io.ReadWriter) (h : list byte) :
  h <> [] -> exists x, Supported rw h = Ret x.
Proof.
  intros Hh. destruct h as [|c t]; [congruence|]. cbn [Supported].
  unfold Probe.
  destruct (ProbeRun_default_total {| host := c :: t |} rw) as (r & ->).
  cbn [bind]. eauto.
Qed.

(** X3: [Supported] panics exactly when the host is empty: with a host
    it returns, whatever the connection does; no request id is out of
    the range of the default prober. *)
Theorem Supported_panics (rw : io.ReadWriter) (h : list byte) :
  (h = [] -> Supported rw h = Panic "host is empty")
  /\ (h <> [] -> exists x, Supported rw h = Ret x).
Proof.
  split; [now intros -> | apply Supported_total].
Qed.

Lemma Supported_panics_witness :
  Supported (brokenConnection (bytes "GARBAGE") (otherError 32)) []
  = Panic "host is empty"
  /\ exists x,
       Supported (brokenConnection (bytes "GARBAGE") (otherError 32))
         (bytes "example.com") = Ret x.
Proof.
  destruct (Supported_panics
              (brokenConnection (bytes "GARBAGE") (otherError 32)) [])
    as [H _].
  destruct (Supported_panics
              (brokenConnection (bytes "GARBAGE") (otherError 32))
              (bytes "example.com")) as [_ H'].
  split; [exact (H eq_refl) | apply H'; discriminate].
Defined.

(** ** The results of Probe *)

Lemma readRequests_error (p : Prober) (ws : list write) :
  forall (a : bool) (br0 : bufio.Reader) (log : list call) a' e br1 log1,
  readRequests p ws a br0 log = Ret (a', Some e, br1, log1) -> a' = false.
Proof.
  induction ws as [|[id we] ws IH]; intros a br0 log a' e br1 log1 H;
    cbn [readRequests] in H.
  - discriminate.
  - destruct we; [now injection H as <- _ _ _|].
    destruct (ReadRequest p id br0) as [[[x oe] br']|]; [|discriminate].
    cbn [bind] in H. destruct oe; [now injection H as <- _ _ _|].
    now apply (IH _ _ _ _ _ _ _ H).
Qed.

(** X4: whatever the prober, [Probe] never returns [available = true]
    together with an error. *)
Theorem Probe_error_not_available (rw : io.ReadWriter) (p : Prober)
    (a : bool) (e : error) :
  Probe rw p = Ret (a, Some e) -> a = false.
Proof.
  unfold Probe, ProbeRun.
  destruct (writeRequests p _ _ _ _) as [[[ws bw1] log1]|]; [|discriminate].
  cbn [bind]. destruct (bufio.Flush bw1) as [[fe|] bw2].
  - cbn [bind available err]. now intros [= <- _].
  - destruct (readRequests p ws true _ _) as [[[[a' e'] br1] log3]|] eqn:Er;
      [|discriminate].
    cbn [bind available err]. intros [= -> ->].
    now apply (readRequests_error _ _ _ _ _ _ _ _ _ Er).
Qed.

Lemma Probe_error_not_available_witness :
  Probe (connection []) carelessProber = Ret (false, Some io_ErrUnexpectedEOF)
  /\ false = false.
Proof.
  split; [reflexivity|].
  exact (Probe_error_not_available (connection []) carelessProber false
           io_ErrUnexpectedEOF eq_refl).
Defined.




(** ** The default prober of the version on textproto.Pipeline *)

Lemma carries_settled (k : io.Sink) (t : list byte) (b : bufio.Writer) :
  carries k t b -> (bufio.err b = None -> bufio.buf b = []) ->
  bufio.err b = refused k t
  /\ io.written (bufio.wr b) = io.written k ++ taken k t.
Proof.
  intros C Hb. destruct (bufio.err b) as [e|] eqn:E.
  - destruct (carries_error _ _ _ _ C E) as [Hr Hw]. now rewrite Hr.
  - destruct (carries_flushed _ _ _ C E (Hb eq_refl)) as [Hr Hw].
    rewrite Hr, Hw, taken_all by assumption. now split.
Qed.

Lemma PipelinedProber_Write (h : optionsProber) (target : string)
    (k : io.Sink) (t : list byte) (b : bufio.Writer) :
  carries k t b ->
  exists b',
    ('(_, _, w1) <- bufio.Write (request target h) b ;; Ret (bufio.Flush w1))
    = Ret (refused k (t ++ request target h), b')
    /\ carries k (t ++ request target h) b'
    /\ io.written (bufio.wr b')
       = io.written k ++ taken k (t ++ request target h)
    /\ (bufio.err b' = None -> bufio.buf b' = []).
Proof.
  intros C.
  destruct (Write_carries k t (request target h) b C) as (n & b1 & -> & C1).
  cbn [bind].
  destruct (Flush_carries _ _ _ C1) as (C2 & Hf & Hb).
  destruct (bufio.Flush b1) as [fe b2]. cbn [fst snd] in *. subst fe.
  destruct (carries_settled _ _ _ C2 Hb) as [He Hw].
  exists b2. split; [now rewrite He|]. repeat split; assumption.
Qed.


(** X6: [WriteRequest] of the version on [textproto.Pipeline] flushes:
    from a new writer, the call for request 0 and then the call for
    request 1 each return the error with which the connection refuses
    what was written so far, nil when it takes it all; the connection
    has then taken what it could of the requests, and when it took both
    nothing is left in the buffer. *)
Theorem PipelinedProber_flushes (h : optionsProber) (k : io.Sink) :
  exists b1 b2,
    PipelinedProber.WriteRequest h 0 (bufio.NewWriter k)
    = Ret (refused k (request "*" h), b1)
    /\ PipelinedProber.WriteRequest h 1 b1 = Ret (refused k (requests h), b2)
    /\ io.written (bufio.wr b1) = io.written k ++ taken k (request "*" h)
    /\ io.written (bufio.wr b2) = io.written k ++ taken k (requests h)
    /\ (refused k (requests h) = None -> bufio.buf b2 = []).
Proof.
  unfold PipelinedProber.WriteRequest.
  destruct (PipelinedProber_Write h "*" k [] _ (carries_new k))
    as (b1 & E1 & C1 & W1 & _).
  destruct (PipelinedProber_Write h "." k _ _ C1) as (b2 & E2 & C2 & W2 & B2).
  cbn [app] in *. exists b1, b2.
  repeat split; try assumption.
  intros Hr. apply B2.
  destruct C2 as [(E & _) | (e & _ & Hr' & _)]; [assumption|].
  unfold requests in Hr. congruence.
Qed.

Lemma PipelinedProber_flushes_witness :
  exists b1 b2,
    PipelinedProber.WriteRequest exampleHost 0
      (bufio.NewWriter {| io.written := []; io.failure := None |})
    = Ret (None, b1)
    /\ PipelinedProber.WriteRequest exampleHost 1 b1 = Ret (None, b2)
    /\ io.written (bufio.wr b2) = requests exampleHost
    /\ bufio.buf b2 = [].
Proof.
  destruct (PipelinedProber_flushes exampleHost
              {| io.written := []; io.failure := None |})
    as (b1 & b2 & E1 & E2 & _ & W2 & B2).
  exists b1, b2. repeat split; [exact E1 | exact E2 | exact W2 | exact (B2 eq_refl)].
Defined.



(** ** The runes of a line *)

Lemma b2z_range (b : byte) : 0 <= b2z b < 256.
Proof.
  unfold b2z. pose proof (Byte.to_N_bounded b) as H. lia.
Qed.

Lemma b2z_inj (a b : byte) : b2z a = b2z b -> a = b.
Proof.
  unfold b2z. intros H. apply N2Z.inj in H.
  pose proof (Byte.of_to_N a) as Ha. pose proof (Byte.of_to_N b) as Hb.
  rewrite H in Ha. congruence.
Qed.

Lemma lor_ge_128 (a y : Z) : 128 <= a -> 0 <= y -> 128 <= Z.lor a y.
Proof.
  intros Ha Hy.
  assert (H0 : 0 <= Z.lor a y) by (apply Z.lor_nonneg; lia).
  pose proof (Z.log2_lor a y ltac:(lia) Hy) as L.
  pose proof (Z.log2_le_mono 128 a Ha) as M.
  change (Z.log2 128) with 7 in M.
  assert (L7 : 7 <= Z.log2 (Z.lor a y)) by lia.
  destruct (Z.eq_dec (Z.lor a y) 0) as [E|E].
  - rewrite E in L7. cbn in L7. lia.
  - apply (Z.log2_le_pow2 (Z.lor a y) 7) in L7; [|lia].
    change (2 ^ 7) with 128 in L7. exact L7.
Qed.

Lemma low6_range (b : byte) : 0 <= utf8.low6 b < 64.
Proof.
  unfold utf8.low6. change 63 with (Z.ones 6). rewrite Z.land_ones by lia.
  apply Z.mod_pos_bound. reflexivity.
Qed.

Lemma low6_continuation (b : byte) :
  128 <= b2z b <= 191 -> utf8.low6 b = b2z b - 128.
Proof.
  intros H. unfold utf8.low6. change 63 with (Z.ones 6).
  rewrite Z.land_ones by lia. change (2 ^ 6) with 64.
  symmetry. apply (Z.mod_unique_pos _ _ 2); lia.
Qed.

Lemma land_ones_shift (x k lo : Z) :
  0 <= k -> 0 <= lo -> lo mod 2 ^ k = 0 -> lo <= x < lo + 2 ^ k ->
  Z.land x (Z.ones k) = x - lo.
Proof.
  intros Hk Hlo Hm Hx. rewrite Z.land_ones by assumption.
  assert (P : 0 < 2 ^ k) by (apply Z.pow_pos_nonneg; lia).
  apply Z.mod_divide in Hm; [|lia]. destruct Hm as [q Hq].
  symmetry. apply (Z.mod_unique_pos _ _ q); lia.
Qed.

Lemma lor_ge_128_r (a y : Z) : 0 <= a -> 128 <= y -> 128 <= Z.lor a y.
Proof. intros Ha Hy. rewrite Z.lor_comm. now apply lor_ge_128. Qed.

Lemma between_range (lo hi : Z) (b : byte) :
  utf8.between lo hi b = true <-> lo <= b2z b <= hi.
Proof. unfold utf8.between. rewrite andb_true_iff, !Z.leb_le. tauto. Qed.

Ltac runeError :=
  exists utf8.RuneError, O; cbn [skipn firstn]; unfold utf8.RuneError;
  repeat split; try lia; constructor.

(** The first rune of a string: an ASCII byte is its own rune; any
    other byte gives a rune from 128 on, and the bytes that the rune
    takes with it are continuation bytes. *)
Lemma decodeRunes_cons (b : byte) (t : list byte) :
  exists r k,
    utf8.decodeRunes (b :: t) = r :: utf8.decodeRunes (skipn k t)
    /\ (b2z b < 128 -> r = b2z b /\ k = O)
    /\ (128 <= b2z b -> 128 <= r)
    /\ Forall (fun c => 128 <= b2z c) (firstn k t).
Proof.
  cbn [utf8.decodeRunes]. cbv zeta.
  destruct (Z.ltb_spec (b2z b) 128) as [H1|H1].
  { exists (b2z b), O. cbn [skipn firstn]. repeat split; try lia. constructor. }
  destruct ((194 <=? b2z b) && (b2z b <=? 223)) eqn:E2.
  { apply andb_true_iff in E2 as [La Lb]. apply Z.leb_le in La, Lb.
    destruct t as [|b1 t1]; [runeError|].
    destruct (utf8.between 128 191 b1) eqn:B1; [|runeError].
    apply between_range in B1.
    eexists _, 1%nat. cbn [skipn firstn]. split; [reflexivity|].
    repeat split; try lia.
    - intros _. apply lor_ge_128; [|apply low6_range].
      change 31 with (Z.ones 5).
      rewrite (land_ones_shift (b2z b) 5 192) by (cbn; lia || reflexivity).
      rewrite Z.shiftl_mul_pow2 by lia. change (2 ^ 6) with 64. lia.
    - repeat constructor. lia. }
  destruct ((224 <=? b2z b) && (b2z b <=? 239)) eqn:E3.
  { apply andb_true_iff in E3 as [La Lb]. apply Z.leb_le in La, Lb.
    destruct t as [|b1 [|b2 t2]]; [runeError | runeError |].
    match goal with
    | |- context [if ?c then _ else _] => destruct c eqn:B
    end; [|runeError].
    apply andb_true_iff in B as [B1 B2].
    apply between_range in B1, B2.
    assert (R1 : 128 <= b2z b1 <= 191
                 /\ (b2z b = 224 -> 160 <= b2z b1)).
    { revert B1. destruct (Z.eqb_spec (b2z b) 224);
        destruct (Z.eqb_spec (b2z b) 237); lia. }
    destruct R1 as [R1 R1'].
    eexists _, 2%nat. cbn [skipn firstn]. split; [reflexivity|].
    repeat split; try lia.
    - intros _.
      pose proof (low6_range b2) as L2.
      rewrite (low6_continuation b1) by lia.
      change 15 with (Z.ones 4).
      rewrite (land_ones_shift (b2z b) 4 224) by (cbn; lia || reflexivity).
      rewrite !Z.shiftl_mul_pow2 by lia.
      change (2 ^ 12) with 4096. change (2 ^ 6) with 64.
      destruct (Z.eq_dec (b2z b) 224) as [E|E].
      + apply lor_ge_128_r; [lia|]. apply lor_ge_128; lia.
      + apply lor_ge_128; [lia|]. apply Z.lor_nonneg. lia.
    - repeat constructor; lia. }
  destruct ((240 <=? b2z b) && (b2z b <=? 244)) eqn:E4; [|runeError].
  apply andb_true_iff in E4 as [La Lb]. apply Z.leb_le in La, Lb.
  destruct t as [|b1 [|b2 [|b3 t3]]]; [runeError | runeError | runeError |].
  match goal with
  | |- context [if ?c then _ else _] => destruct c eqn:B
  end; [|runeError].
  apply andb_true_iff in B as [B B3]. apply andb_true_iff in B as [B1 B2].
  apply between_range in B1, B2, B3.
  assert (R1 : 128 <= b2z b1 <= 191 /\ (b2z b = 240 -> 144 <= b2z b1)).
  { revert B1. destruct (Z.eqb_spec (b2z b) 240);
      destruct (Z.eqb_spec (b2z b) 244); lia. }
  destruct R1 as [R1 R1'].
  eexists _, 3%nat. cbn [skipn firstn]. split; [reflexivity|].
  repeat split; try lia.
  - intros _.
    pose proof (low6_range b2) as L2. pose proof (low6_range b3) as L3.
    rewrite (low6_continuation b1) by lia.
    change 7 with (Z.ones 3).
    rewrite (land_ones_shift (b2z b) 3 240) by (cbn; lia || reflexivity).
    rewrite !Z.shiftl_mul_pow2 by lia.
    change (2 ^ 18) with 262144. change (2 ^ 12) with 4096.
    change (2 ^ 6) with 64.
    assert (N0 : 0 <= Z.lor (utf8.low6 b2 * 64) (utf8.low6 b3))
      by (apply Z.lor_nonneg; lia).
    destruct (Z.eq_dec (b2z b) 240) as [E|E].
    + apply lor_ge_128_r; [lia|]. apply lor_ge_128; lia.
    + apply lor_ge_128; [lia|]. apply Z.lor_nonneg. lia.
  - repeat constructor; lia.
Qed.

Lemma decodeRunes_length (n : nat) :
  forall l : list byte, (List.length l <= n)%nat ->
  (List.length (utf8.decodeRunes l) <= List.length l)%nat.
Proof.
  induction n as [|n IH]; intros l Hl.
  - destruct l; [cbn; lia | cbn in Hl; lia].
  - destruct l as [|b t]; [cbn; lia|].
    destruct (decodeRunes_cons b t) as (r & k & -> & _).
    cbn [List.length] in *.
    pose proof (IH (skipn k t)) as H. rewrite length_skipn in *.
    specialize (H ltac:(lia)). lia.
Qed.

(** The newline of a line is one of its runes. *)
Lemma decodeRunes_LF (n : nat) :
  forall l : list byte, (List.length l <= n)%nat ->
  In LF l -> In 10 (utf8.decodeRunes l).
Proof.
  induction n as [|n IH]; intros l Hl Hin.
  - destruct l; [contradiction | cbn in Hl; lia].
  - destruct l as [|b t]; [contradiction|].
    destruct (decodeRunes_cons b t) as (r & k & -> & Hlow & _ & Hk).
    destruct Hin as [-> | Hin].
    + left. destruct Hlow as [-> _]; [cbn; lia | reflexivity].
    + right. apply IH.
      * cbn [List.length] in Hl. rewrite length_skipn. lia.
      * rewrite <- (firstn_skipn k t) in Hin. apply in_app_or in Hin.
        destruct Hin as [Hin | Hin]; [exfalso | assumption].
        rewrite Forall_forall in Hk. specialize (Hk _ Hin). cbn in Hk. lia.
Qed.

(** ** The errors of the scanner *)

Lemma limit_short (s : fmt.input) :
  forall n : Z, Z.of_nat (List.length (fmt.limit n s)) < n -> fmt.limit n s = s.
Proof.
  induction s as [|r t IH]; intros n H; [reflexivity|].
  cbn [fmt.limit] in *. destruct (Z.leb_spec n 0); [cbn in H; lia|].
  cbn [List.length] in H. rewrite IH by lia. reflexivity.
Qed.

Lemma skipBlanks_LF (s : fmt.input) : In 10 s -> In 10 (fmt.skipBlanks s).
Proof.
  induction s as [|r t IH]; intros H; [contradiction|].
  cbn [fmt.skipBlanks].
  destruct (Z.eqb_spec r 10) as [->|Hr].
  - rewrite andb_false_r. now left.
  - destruct H as [H | H]; [congruence|].
    destruct (fmt.isSpace r); cbn [negb andb]; [now apply IH | now right].
Qed.

Lemma SkipSpace_cases (s : fmt.input) :
  fmt.SkipSpace s = inl (errorString "unexpected newline")
  \/ exists s', fmt.SkipSpace s = inr s' /\ (In 10 s -> In 10 s').
Proof.
  induction s as [|r t IH]; [right; now exists []|].
  cbn [fmt.SkipSpace].
  destruct ((r =? 13) && fmt.peek [10] t) eqn:E1.
  { apply andb_true_iff in E1 as [E1 _]. apply Z.eqb_eq in E1. subst r.
    destruct IH as [IH | (s' & E & H)]; [now left|].
    right. exists s'. split; [assumption|].
    intros [H10 | H10]; [discriminate | auto]. }
  destruct (Z.eqb_spec r 10) as [->|Hr]; [now left|].
  destruct (fmt.isSpace r).
  - destruct IH as [IH | (s' & E & H)]; [now left|].
    right. exists s'. split; [assumption|].
    intros [H10 | H10]; [congruence | auto].
  - right. now exists (r :: t).
Qed.

Lemma matchSpaces0_cases (s : fmt.input) :
  fmt.matchSpaces 0 true s
  = inl (errorString "expected space in input to match format")
  \/ fmt.matchSpaces 0 true s
     = inl (errorString "newline in input does not match format")
  \/ exists s', fmt.matchSpaces 0 true s = inr s' /\ (In 10 s -> In 10 s').
Proof.
  unfold fmt.matchSpaces. cbn [fmt.matchNewlines].
  destruct s as [|r t].
  - right. right. now exists [].
  - destruct (fmt.isSpace r) eqn:Es; cbn [negb]; [|now left].
    destruct (Z.eqb_spec r 10); [right; now left|].
    right. right. eexists. split; [reflexivity | apply skipBlanks_LF].
Qed.

Lemma matchSpaces1_cases (s : fmt.input) :
  fmt.matchSpaces 1 false s
  = inl (errorString "newline in format does not match input")
  \/ exists s', fmt.matchSpaces 1 false s = inr s'.
Proof.
  unfold fmt.matchSpaces. cbn [fmt.matchNewlines]. unfold fmt.matchNewline.
  destruct (fmt.skipBlanks s) as [|r t]; [right; eauto|].
  destruct (r =? 10); [right; eauto | now left].
Qed.

Lemma acceptAll_token (ok : list rune) (s : fmt.input) :
  forall tok tok' s',
  fmt.acceptAll ok tok s = (tok', s') ->
  exists ds, tok' = tok ++ ds /\ Forall (fun r => fmt.indexRune ok r = true) ds.
Proof.
  induction s as [|r t IH]; intros tok tok' s' H; cbn [fmt.acceptAll] in H.
  - injection H as <- _. exists []. now rewrite app_nil_r.
  - destruct (fmt.indexRune ok r) eqn:E.
    + destruct (IH _ _ _ H) as (ds & -> & Hds).
      exists (r :: ds). rewrite <- app_assoc. split; [reflexivity|].
      now constructor.
    + injection H as <- _. exists []. now rewrite app_nil_r.
Qed.

Lemma parseUintLoop_range (s : list rune) :
  forall (n : Z) (e : error),
  Forall (fun r => fmt.indexRune fmt.decimalDigits r = true) s ->
  strconv.parseUintLoop n s = inl e -> e = strconv_ErrRange.
Proof.
  induction s as [|c t IH]; intros n e Hs H; cbn [strconv.parseUintLoop] in H;
    [discriminate|].
  inversion Hs as [|? ? Hc Ht]; subst. apply indexRune_digits in Hc.
  destruct (Z.leb_spec 48 c); [|lia]. destruct (Z.leb_spec c 57); [|lia].
  cbn [andb] in H.
  destruct (strconv.cutoff10 <=? n); [now injection H as <-|].
  destruct (strconv.maxUint64 <? n * 10 + (c - 48)); [now injection H as <-|].
  now apply (IH _ _ Ht H).
Qed.

Lemma ParseUint_range (d : rune) (ds : list rune) (e : error) :
  Forall (fun r => fmt.indexRune fmt.decimalDigits r = true) (d :: ds) ->
  strconv.ParseUint (d :: ds) = inl e -> e = strconv_ErrRange.
Proof. unfold strconv.ParseUint. apply parseUintLoop_range. Qed.

(** A token of the scanner, a sign or none and then digits, is no
    syntax error for [ParseInt]. *)
Lemma ParseInt_range (sg : list rune) (d : rune) (ds : list rune) (e : error) :
  sg = [] \/ (exists r, sg = [r] /\ fmt.indexRune fmt.sign r = true) ->
  Forall (fun r => fmt.indexRune fmt.decimalDigits r = true) (d :: ds) ->
  strconv.ParseInt (sg ++ d :: ds) = inl e -> e = strconv_ErrRange.
Proof.
  intros Hsg Hds. pose proof (ParseUint_range d ds) as U.
  assert (Hd : 48 <= d <= 57)
    by (inversion Hds; subst; now apply indexRune_digits).
  destruct Hsg as [-> | (r & -> & Hr)]; cbn [app]; unfold strconv.ParseInt.
  - destruct (Z.eqb_spec d 43); [lia|]. destruct (Z.eqb_spec d 45); [lia|].
    cbn [orb].
    destruct (strconv.ParseUint (d :: ds)) as [e'|un] eqn:E.
    + specialize (U e' Hds eq_refl). subst e'. now intros [= <-].
    + cbn [negb andb].
      destruct (2 ^ 63 <=? un); [now intros [= <-] | discriminate].
  - apply indexRune_sign in Hr.
    assert (Es : (r =? 43) || (r =? 45) = true)
      by (destruct Hr as [-> | ->]; reflexivity).
    rewrite Es.
    destruct (strconv.ParseUint (d :: ds)) as [e'|un] eqn:E.
    + specialize (U e' Hds eq_refl). subst e'. now intros [= <-].
    + destruct (negb (r =? 45) && (2 ^ 63 <=? un)); [now intros [= <-]|].
      destruct ((r =? 45) && (2 ^ 63 <? un)); [now intros [= <-] | discriminate].
Qed.

Lemma scanInt_cases (s : fmt.input) (e : error) :
  fmt.scanInt s = inl e ->
  scanError e = true /\ (e = io_EOF -> ~ In 10 s).
Proof.
  unfold fmt.scanInt.
  destruct (SkipSpace_cases s) as [-> | (s1 & -> & H1)].
  { intros [= <-]. split; [reflexivity | discriminate]. }
  destruct s1 as [|r t].
  { intros [= <-]. split; [reflexivity|]. intros _ H. exact (H1 H). }
  assert (A : exists sg s2,
            fmt.accept fmt.sign [] (r :: t) = (negb (Nat.eqb (List.length sg) 0), sg, s2)
            /\ (sg = [] \/ (exists r, sg = [r] /\ fmt.indexRune fmt.sign r = true))
            /\ (In 10 (r :: t) -> In 10 s2)).
  { cbn [fmt.accept]. destruct (fmt.indexRune fmt.sign r) eqn:Er.
    - exists [r], t. cbn [app]. repeat split; [right; eauto|].
      apply indexRune_sign in Er.
      intros [H | H]; [lia | assumption].
    - exists [], (r :: t). repeat split; auto. }
  destruct A as (sg & s2 & -> & Hsg & H2).
  unfold fmt.scanNumber. destruct s2 as [|d t2].
  { intros [= <-]. split; [reflexivity|]. intros _ H. exact (H2 (H1 H)). }
  cbn [fmt.accept]. destruct (fmt.indexRune fmt.decimalDigits d) eqn:Ed.
  2:{ intros [= <-]. split; [reflexivity | discriminate]. }
  destruct (fmt.acceptAll fmt.decimalDigits (sg ++ [d]) t2) as [tok' s3] eqn:Ea.
  destruct (acceptAll_token _ _ _ _ _ Ea) as (ds & -> & Hds).
  rewrite <- app_assoc. cbn [app].
  destruct (strconv.ParseInt (sg ++ d :: ds)) as [e'|i] eqn:Ep; [|discriminate].
  intros [= <-].
  rewrite (ParseInt_range sg d ds e' Hsg (Forall_cons _ Ed Hds) Ep).
  split; [reflexivity | discriminate].
Qed.

Lemma advance_literal_cases (lit rest : list rune) :
  forall (i : Z) (s : fmt.input),
  Forall (fun c => fmt.isSpace c = false /\ c <> 37) lit ->
  (exists j, (j < List.length lit)%nat /\ s = firstn j lit
     /\ fmt.advance (lit ++ rest) None i s = inl io_ErrUnexpectedEOF)
  \/ (exists s', fmt.advance (lit ++ rest) None i s = inr (-1, s'))
  \/ (exists s', s = lit ++ s'
        /\ fmt.advance (lit ++ rest) None i s
           = fmt.advance rest None (i + Z.of_nat (List.length lit)) s').
Proof.
  induction lit as [|c lit IH]; intros i s H.
  - right. right. exists s. cbn [app List.length]. now rewrite Z.add_0_r.
  - inversion H as [|? ? [Hc1 Hc2] Hl]; subst.
    cbn [app fmt.advance fmt.settle]. rewrite Hc1.
    destruct (Z.eqb_spec c 37); [contradiction|].
    destruct s as [|x s].
    { left. exists O. cbn [List.length firstn]. repeat split. lia. }
    destruct (Z.eqb_spec c x) as [<-|Hx]; [|right; left; eauto].
    destruct (IH (i + 1) s Hl) as [(j & Hj & -> & E) | [(s' & E) | (s' & -> & E)]].
    + left. exists (S j). cbn [List.length firstn]. repeat split; [lia | assumption].
    + right. left. eauto.
    + right. right. exists s'. split; [reflexivity|].
      rewrite E.
      replace (i + Z.of_nat (List.length (c :: lit)))
        with (i + 1 + Z.of_nat (List.length lit))
        by (cbn [List.length]; lia).
      reflexivity.
Qed.

Lemma statusLiteral_plain :
  Forall (fun c => fmt.isSpace c = false /\ c <> 37) statusLiteral.
Proof. repeat constructor; (reflexivity || discriminate). Qed.

(** The scan of a status line: one value and no error, or an error of
    [scanError]; the input ends within the literal when the error is
    [io.ErrUnexpectedEOF], and holds no newline when it is [io.EOF]. *)
Lemma doScanf_status_cases (s : fmt.input) :
  (exists v, fmt.doScanf 12 statusFormat 1 [] s = (1, [v], None))
  \/ (exists n vs e,
        fmt.doScanf 12 statusFormat 1 [] s = (n, vs, Some e)
        /\ ((e = io_ErrUnexpectedEOF
             /\ exists j, (j < List.length statusLiteral)%nat
                  /\ s = firstn j statusLiteral)
            \/ (scanError e = true /\ (e = io_EOF -> ~ In 10 s)))).
Proof.
  rewrite doScanf_status_step.
  pose proof (advance_literal_cases statusLiteral [32; 37; 100] 0 s
                statusLiteral_plain) as A.
  change (statusLiteral ++ [32; 37; 100]) with statusFormat in A.
  destruct A as [(j & Hj & -> & E) | [(s' & E) | (s' & -> & _)]].
  - rewrite E. right. eexists _, _, _. split; [reflexivity|]. left. eauto.
  - rewrite E. cbn [Z.ltb Z.compare]. right. eexists _, _, _.
    split; [reflexivity|]. right. split; [reflexivity | discriminate].
  - rewrite <- doScanf_status_step, doScanf_status_eq.
    assert (L : In 10 (statusLiteral ++ s') -> In 10 s').
    { intros H. apply in_app_or in H as [H | H]; [|assumption].
      cbn in H. intuition discriminate. }
    destruct (matchSpaces0_cases s') as [-> | [-> | (s1 & -> & H1)]].
    + right. eexists _, _, _. split; [reflexivity|]. right.
      split; [reflexivity | discriminate].
    + right. eexists _, _, _. split; [reflexivity|]. right.
      split; [reflexivity | discriminate].
    + destruct (SkipSpace_cases s1) as [-> | (s2 & -> & H2)].
      { right. eexists _, _, _. split; [reflexivity|]. right.
        split; [reflexivity | discriminate]. }
      destruct (fmt.scanInt s2) as [e|[v s3]] eqn:Ei.
      * destruct (scanInt_cases s2 e Ei) as [He Hn].
        right. eexists _, _, _. split; [reflexivity|]. right.
        split; [assumption|]. intros -> H. now apply (Hn eq_refl), H2, H1, L.
      * left. now exists v.
Qed.

Lemma doScanf_value_cases (s : fmt.input) :
  (exists v, fmt.doScanf 5 valueFormat 1 [] s = (1, [v], None))
  \/ (exists n vs e,
        fmt.doScanf 5 valueFormat 1 [] s = (n, vs, Some e)
        /\ scanError e = true /\ (e = io_EOF -> ~ In 10 s)).
Proof.
  rewrite doScanf_value_eq.
  destruct (SkipSpace_cases s) as [-> | (s2 & -> & H2)].
  { right. eexists _, _, _. split; [reflexivity|].
    split; [reflexivity | discriminate]. }
  destruct (fmt.scanInt s2) as [e|[v s3]] eqn:Ei.
  - destruct (scanInt_cases s2 e Ei) as [He Hn].
    right. eexists _, _, _. split; [reflexivity|].
    split; [assumption|]. intros -> H. now apply (Hn eq_refl), H2.
  - destruct (matchSpaces1_cases s3) as [-> | (s4 & ->)].
    + right. eexists _, _, _. split; [reflexivity|].
      split; [reflexivity | discriminate].
    + left. now exists v.
Qed.

Lemma limit_LF (l : list byte) :
  In LF l -> Z.of_nat (List.length l) <= fmt.hugeWid ->
  In 10 (fmt.limit fmt.hugeWid (utf8.decodeRunes l)).
Proof.
  intros Hin Hl. rewrite limit_all.
  - now apply (decodeRunes_LF (List.length l)).
  - pose proof (decodeRunes_length (List.length l) l (Nat.le_refl _)). lia.
Qed.

(** [fmt.Sscanf] on a status line and on the value of a Content-Length
    field: a result without error has [n = 1]. *)
Lemma Sscanf_status_cases (line : list byte) (n v : Z) (oe : option error) :
  In LF line ->
  fmt.Sscanf line (bytes "HTTP/1.1 %d") = (n, v, oe) ->
  match oe with
  | None => n = 1
  | Some e =>
    scanError e = true
    /\ (e = io_EOF -> fmt.hugeWid < Z.of_nat (List.length line))
  end.
Proof.
  intros Hin. unfold fmt.Sscanf.
  change (utf8.decodeRunes (bytes "HTTP/1.1 %d")) with statusFormat.
  change (S (List.length statusFormat)) with 12%nat.
  destruct (doScanf_status_cases (fmt.limit fmt.hugeWid (utf8.decodeRunes line)))
    as [(v' & ->) | (n' & vs & e & -> & H)].
  - now intros [= <- _ <-].
  - intros [= _ _ <-].
    destruct H as [(-> & j & Hj & Hs) | [He Hn]].
    + exfalso.
      assert (Hlim : fmt.limit fmt.hugeWid (utf8.decodeRunes line)
                     = utf8.decodeRunes line).
      { apply limit_short. rewrite Hs, length_firstn.
        change (List.length statusLiteral) with 8%nat in *.
        unfold fmt.hugeWid. change (2 ^ 30) with 1073741824. lia. }
      rewrite Hlim in Hs.
      pose proof (decodeRunes_LF _ line (Nat.le_refl _) Hin) as H10.
      rewrite Hs in H10.
      assert (H' : In 10 statusLiteral).
      { rewrite <- (firstn_skipn j statusLiteral). apply in_or_app. now left. }
      cbn in H'. intuition discriminate.
    + split; [assumption|]. intros ->.
      destruct (Z.ltb_spec fmt.hugeWid (Z.of_nat (List.length line)));
        [assumption|].
      exfalso. apply (Hn eq_refl). now apply limit_LF.
Qed.

Lemma Sscanf_value_cases (value : list byte) (n v : Z) (oe : option error) :
  In LF value ->
  fmt.Sscanf value (bytes "%d" ++ CRLF) = (n, v, oe) ->
  match oe with
  | None => n = 1
  | Some e =>
    scanError e = true
    /\ (e = io_EOF -> fmt.hugeWid < Z.of_nat (List.length value))
  end.
Proof.
  intros Hin. unfold fmt.Sscanf.
  change (utf8.decodeRunes (bytes "%d" ++ CRLF)) with valueFormat.
  change (S (List.length valueFormat)) with 5%nat.
  destruct (doScanf_value_cases (fmt.limit fmt.hugeWid (utf8.decodeRunes value)))
    as [(v' & ->) | (n' & vs & e & -> & He & Hn)].
  - now intros [= <- _ <-].
  - intros [= _ _ <-]. split; [assumption|]. intros ->.
    destruct (Z.ltb_spec fmt.hugeWid (Z.of_nat (List.length value)));
      [assumption|].
    exfalso. apply (Hn eq_refl). now apply limit_LF.
Qed.

(** ** The errors of parseStatus *)

Lemma IndexByte_In (s : list byte) (c : byte) :
  forall i, Bytes.IndexByte s c = Some i -> In c (firstn (S i) s).
Proof.
  induction s as [|b t IH]; intros i H; cbn [Bytes.IndexByte] in H;
    [discriminate|].
  destruct (Byte.eqb b c) eqn:E.
  - apply byte_eqb_eq in E. subst. now left.
  - destruct (Bytes.IndexByte t c) as [j|]; [|discriminate].
    injection H as <-. right. now apply IH.
Qed.

Lemma ReadString_some (r line r1 : list byte) :
  bufio.ReadString LF r = (line, None, r1) -> In LF line /\ r = line ++ r1.
Proof.
  unfold bufio.ReadString.
  destruct (Bytes.IndexByte r LF) as [i|] eqn:E; [|discriminate].
  intros [= <- <-]. split; [now apply IndexByte_In|].
  symmetry. exact (firstn_skipn (S i) r).
Qed.

Lemma ReadSlice_some (r line r1 : list byte) :
  bufio.ReadSlice LF r = (line, None, r1) -> In LF line /\ r = line ++ r1.
Proof.
  unfold bufio.ReadSlice.
  destruct (Bytes.IndexByte (firstn bufio.defaultBufSize r) LF) as [i|] eqn:E.
  - intros [= <- <-]. split; [|symmetry; exact (firstn_skipn (S i) r)].
    pose proof (IndexByte_lt _ _ _ E) as Hi. rewrite length_firstn in Hi.
    apply IndexByte_In in E. rewrite firstn_firstn in E.
    now rewrite Nat.min_l in E by lia.
  - destruct (bufio.defaultBufSize <=? List.length r)%nat; discriminate.
Qed.

Lemma ReadSlice_error (r line r1 : list byte) (e : error) :
  bufio.ReadSlice LF r = (line, Some e, r1) ->
  e = bufio_ErrBufferFull \/ (e = io_EOF /\ r1 = []).
Proof.
  unfold bufio.ReadSlice.
  destruct (Bytes.IndexByte (firstn bufio.defaultBufSize r) LF); [discriminate|].
  destruct (bufio.defaultBufSize <=? List.length r)%nat; intros [= _ <- <-]; auto.
Qed.

Lemma Discard_error (n k : Z) (r r1 : list byte) (e : error) :
  bufio.Discard n r = (k, Some e, r1) ->
  e = bufio_ErrNegativeCount \/ (e = io_EOF /\ r1 = []).
Proof.
  unfold bufio.Discard. destruct (n <? 0); [intros [= _ <- _]; auto|].
  destruct (n =? 0); [discriminate|].
  destruct (n <=? Z.of_nat (List.length r)); [discriminate|].
  intros [= _ <- <-]. auto.
Qed.

Lemma HasPrefix_firstn (s p : list byte) :
  Bytes.HasPrefix s p = true -> firstn (List.length p) s = p.
Proof.
  revert s. induction p as [|c p IH]; intros s H; [reflexivity|].
  destruct s as [|b s]; [discriminate|]. cbn [Bytes.HasPrefix] in H.
  apply andb_true_iff in H as [Hb H]. apply byte_eqb_eq in Hb. subst.
  cbn [List.length firstn]. now rewrite IH.
Qed.

(** The value of a Content-Length line holds the newline of the line. *)
Lemma lengthValue_LF (line : list byte) :
  In LF line -> isContentLength line = true -> In LF (lengthValue line).
Proof.
  intros Hin Hc. unfold lengthValue, isContentLength in *.
  assert (H : In LF (Bytes.ToLower line)).
  { unfold Bytes.ToLower. change LF with (Bytes.toLower LF). now apply in_map. }
  rewrite <- (firstn_skipn (List.length contentLengthPrefix) (Bytes.ToLower line))
    in H.
  rewrite (HasPrefix_firstn _ _ Hc) in H.
  apply in_app_or in H as [H | H]; [|assumption].
  cbn in H. intuition discriminate.
Qed.

Lemma scanError_parseError (e : error) : scanError e = true -> parseError e = true.
Proof. destruct e; cbn; intros H; now try discriminate H. Qed.

Lemma readHeaders_errors (fuel : nat) :
  forall (cl : Z) (found : bool) (r : bufio.Reader) (e : error) r',
  readHeaders fuel cl found r = Ret (inl e, r') ->
  parseError e = true
  /\ (e = io_EOF -> Z.of_nat (List.length r) <= fmt.hugeWid -> r' = []).
Proof.
  induction fuel as [|fuel IH]; intros cl found r e r' H; [discriminate|].
  cbn [readHeaders] in H.
  destruct (bufio.ReadSlice LF r) as [[line [e1|]] r1] eqn:Es.
  { injection H as <- <-.
    destruct (ReadSlice_error _ _ _ _ Es) as [-> | [-> ->]];
      (split; [reflexivity|]); [discriminate | reflexivity]. }
  destruct (ReadSlice_some _ _ _ Es) as [Hin Hr].
  assert (Hl : (List.length r1 <= List.length r)%nat)
    by (rewrite Hr, length_app; lia).
  assert (Hll : (List.length line <= List.length r)%nat)
    by (rewrite Hr, length_app; lia).
  assert (Next : forall cl' found',
            readHeaders fuel cl' found' r1 = Ret (inl e, r') ->
            parseError e = true
            /\ (e = io_EOF -> Z.of_nat (List.length r) <= fmt.hugeWid -> r' = [])).
  { intros cl' found' H'. destruct (IH _ _ _ _ _ H') as [I1 I2].
    split; [assumption|]. intros E B. apply I2; [assumption | lia]. }
  destruct line as [|a t]; [discriminate|].
  destruct ((List.length (a :: t) =? 2)%nat && Byte.eqb a CR
            && Byte.eqb (nth 1 (a :: t) LF) LF); [discriminate|].
  destruct (found || negb (Byte.eqb a byteC) && negb (Byte.eqb a bytec));
    [now apply (Next cl found)|].
  destruct (Bytes.HasPrefix (Bytes.ToLower (a :: t)) contentLengthPrefix) eqn:Ec;
    [|now apply (Next cl found)].
  pose proof (lengthValue_LF (a :: t) Hin Ec) as Hv. unfold lengthValue in Hv.
  destruct (fmt.Sscanf _ _) as [[n v] oe] eqn:Ef.
  pose proof (Sscanf_value_cases _ _ _ _ Hv Ef) as C.
  destruct oe as [e2|].
  - injection H as <- <-. destruct C as [C1 C2].
    split; [now apply scanError_parseError|].
    intros E B. specialize (C2 E). rewrite length_skipn in C2.
    unfold Bytes.ToLower in C2. rewrite length_map in C2. lia.
  - subst n. cbn [negb Z.eqb Pos.eqb] in H. now apply (Next v true).
Qed.

Lemma parseStatus_error_cases (r : bufio.Reader) (status : Z) (e : error) r' :
  parseStatus r = Ret (status, Some e, r') ->
  status = 0 /\ parseError e = true
  /\ (e = io_EOF -> Z.of_nat (List.length r) <= fmt.hugeWid -> r' = []).
Proof.
  unfold parseStatus.
  destruct (bufio.ReadString LF r) as [[line [e1|]] r1] eqn:Es.
  { unfold bufio.ReadString in Es.
    destruct (Bytes.IndexByte r LF); [discriminate|].
    injection Es as _ <- <-. intros [= <- <- <-]. now repeat split. }
  destruct (ReadString_some _ _ _ Es) as [Hin Hr].
  destruct (fmt.Sscanf line (bytes "HTTP/1.1 %d")) as [[n v] oe] eqn:Ef.
  pose proof (Sscanf_status_cases _ _ _ _ Hin Ef) as C.
  destruct oe as [e2|].
  { intros [= <- <- <-]. destruct C as [C1 C2].
    split; [reflexivity|]. split; [now apply scanError_parseError|].
    intros E B. specialize (C2 E). rewrite Hr, length_app in B. lia. }
  subst n. cbn [negb Z.eqb Pos.eqb].
  destruct (readHeaders (S (List.length r1)) 0 false r1) as [[[e3|cl] r2]|] eqn:Eh;
    cbn [bind]; [| |discriminate].
  { intros [= <- <- <-]. destruct (readHeaders_errors _ _ _ _ _ _ Eh) as [I1 I2].
    split; [reflexivity|]. split; [assumption|].
    intros E B. apply I2; [assumption|]. rewrite Hr, length_app in B. lia. }
  destruct (bufio.Discard cl r2) as [[k [e4|]] r3] eqn:Ed; [|discriminate].
  intros [= <- <- <-].
  destruct (Discard_error _ _ _ _ _ Ed) as [-> | [-> ->]];
    (split; [reflexivity|]); (split; [reflexivity|]);
    [discriminate | reflexivity].
Qed.



(** X9: [parseStatus] returns io.EOF only when it has read the stream to
    its end (for a stream of no more than 2^30 bytes, the most that the
    scanner reads of a line). *)
Theorem parseStatus_EOF_at_end (r : bufio.Reader) (status : Z) r' :
  Z.of_nat (List.length r) <= fmt.hugeWid ->
  parseStatus r = Ret (status, Some io_EOF, r') -> r' = [].
Proof.
  intros B H. destruct (parseStatus_error_cases _ _ _ _ H) as (_ & _ & He).
  now apply He.
Qed.

Lemma parseStatus_EOF_at_end_witness :
  exists r',
    parseStatus (bytes "HTTP/1.1 200 OK" ++ CRLF ++ bytes "Content-Le")
    = Ret (0, Some io_EOF, r')
    /\ r' = [].
Proof.
  eexists. split; [reflexivity|].
  refine (parseStatus_EOF_at_end
            (bytes "HTTP/1.1 200 OK" ++ CRLF ++ bytes "Content-Le") 0 [] _
            eq_refl).
  vm_compute. discriminate.
Defined.

(** ** A status line of another protocol *)

Lemma isLine_LF (line : list byte) : isLine line = true -> In LF line.
Proof.
  intros H. apply isLine_split in H as (l & -> & _).
  apply in_or_app. right. now left.
Qed.

(** A literal of the format against a line that does not start with
    it: the scanner stops at the first byte that differs. *)
Lemma advance_mismatch (lit : list byte) (rest : list rune) :
  forall (line : list byte) (n i : Z),
  Forall (fun c => b2z c < 128 /\ fmt.isSpace (b2z c) = false
                   /\ b2z c <> 37 /\ c <> LF) lit ->
  Bytes.HasPrefix line lit = false -> In LF line ->
  Z.of_nat (List.length lit) <= n ->
  exists s',
    fmt.advance (map b2z lit ++ rest) None i
      (fmt.limit n (utf8.decodeRunes line)) = inr (-1, s').
Proof.
  induction lit as [|c lit IH]; intros line n i Hl Hp Hin Hn;
    [destruct line; discriminate|].
  inversion Hl as [|? ? (Hc1 & Hc2 & Hc3 & Hc4) Hl']; subst.
  destruct line as [|x tl]; [contradiction|].
  destruct (decodeRunes_cons x tl) as (r & k & -> & Hlow & Hhigh & _).
  cbn [List.length] in Hn. cbn [fmt.limit].
  destruct (Z.leb_spec n 0); [lia|].
  cbn [map app fmt.advance fmt.settle]. rewrite Hc2.
  destruct (Z.eqb_spec (b2z c) 37); [contradiction|].
  cbn [Bytes.HasPrefix] in Hp.
  destruct (Byte.eqb x c) eqn:Ex.
  - apply byte_eqb_eq in Ex. subst x. cbn [andb] in Hp.
    destruct (Hlow Hc1) as [-> ->]. cbn [skipn].
    rewrite Z.eqb_refl.
    apply IH; try assumption; [|lia].
    destruct Hin as [Hin | Hin]; [congruence | assumption].
  - apply byte_eqb_neq in Ex.
    destruct (Z.eqb_spec (b2z c) r) as [E|E]; [exfalso | eauto].
    destruct (Z.lt_ge_cases (b2z x) 128) as [Hx | Hx].
    + destruct (Hlow Hx) as [-> _]. apply b2z_inj in E. congruence.
    + specialize (Hhigh Hx). lia.
Qed.

(** X10: a status line that does not start with [HTTP/1.1], the status
    line of an HTTP/1.0 response for one, makes [parseStatus] fail with
    the error of the scanner for a literal that does not match; the
    header block is not read. *)
Theorem parseStatus_other_protocol (line rest : list byte) :
  isLine line = true ->
  Bytes.HasPrefix line (bytes "HTTP/1.1") = false ->
  parseStatus (line ++ rest)
  = Ret (0, Some (errorString "input does not match format"), rest).
Proof.
  intros Hl Hp. unfold parseStatus. rewrite ReadString_line by assumption.
  unfold fmt.Sscanf.
  change (utf8.decodeRunes (bytes "HTTP/1.1 %d")) with statusFormat.
  change (S (List.length statusFormat)) with 12%nat.
  rewrite doScanf_status_step.
  destruct (advance_mismatch (bytes "HTTP/1.1") [32; 37; 100] line fmt.hugeWid 0)
    as (s' & E); try assumption.
  - repeat constructor; try reflexivity; discriminate.
  - now apply isLine_LF.
  - discriminate.
  - change (map b2z (bytes "HTTP/1.1") ++ [32; 37; 100]) with statusFormat in E.
    rewrite E. reflexivity.
Qed.

Lemma parseStatus_other_protocol_witness :
  parseStatus (bytes "HTTP/1.0 200 OK" ++ CRLF
               ++ bytes "Content-Length: 0" ++ CRLF ++ CRLF)
  = Ret (0, Some (errorString "input does not match format"),
         bytes "Content-Length: 0" ++ CRLF ++ CRLF).
Proof.
  exact (parseStatus_other_protocol (bytes "HTTP/1.0 200 OK" ++ CRLF)
           (bytes "Content-Length: 0" ++ CRLF ++ CRLF) eq_refl eq_refl).
Defined.

(** ** The errors of the default prober *)




(** ** The number of a status line and of a Content-Length field *)

Lemma isSignOpt_cases (sg : list byte) :
  isSignOpt sg = true ->
  sg = [] \/ (exists c, sg = [c] /\ (b2z c = 43 \/ b2z c = 45)).
Proof.
  destruct sg as [|c [|d t]]; cbn [isSignOpt]; intros H; try discriminate H;
    [now left|].
  right. exists c. split; [reflexivity|].
  apply orb_true_iff in H as [H | H]; apply byte_eqb_eq in H; subst; auto.
Qed.

Lemma stops_limit (s : fmt.input) (n : Z) :
  stops s = true -> stops (fmt.limit n s) = true.
Proof.
  destruct s as [|r t]; [reflexivity|]. cbn [fmt.limit].
  now destruct (n <=? 0).
Qed.

Lemma stops_tail (tail rest : list byte) :
  stopsAt tail = true -> stops (utf8.decodeRunes (tail ++ LF :: rest)) = true.
Proof.
  destruct tail as [|b t]; cbn [stopsAt app]; intros H.
  - destruct (decodeRunes_cons LF rest) as (r & k & -> & Hlow & _).
    destruct Hlow as [-> _]; [cbn; lia | reflexivity].
  - destruct (decodeRunes_cons b (t ++ LF :: rest)) as (r & k & -> & Hlow & Hhigh & _).
    cbn [stops]. apply negb_true_iff.
    destruct (fmt.indexRune fmt.decimalDigits r) eqn:E; [|reflexivity].
    apply indexRune_digits in E. apply negb_true_iff in H.
    destruct (Z.lt_ge_cases (b2z b) 128) as [Hb | Hb].
    + destruct (Hlow Hb) as [-> _]. apply isDigit_range in E. congruence.
    + specialize (Hhigh Hb). lia.
Qed.

(** The scan of a number: blanks, a sign or none, digits; the token is
    handed to [ParseInt]. *)
Lemma scanInt_token (ows sg ds : list byte) (s : fmt.input) :
  forallb isBlank ows = true -> isSignOpt sg = true ->
  ds <> [] -> forallb isDigit ds = true -> stops s = true ->
  fmt.scanInt (map b2z ows ++ map b2z sg ++ map b2z ds ++ s)
  = match strconv.ParseInt (map b2z sg ++ map b2z ds) with
    | inl e => inl e
    | inr i => inr (i, s)
    end.
Proof.
  intros Ho Hsg Hne Hd Hs. unfold fmt.scanInt.
  rewrite SkipSpace_blanks by assumption.
  destruct ds as [|d t]; [congruence|].
  pose proof Hd as Hd0. cbn [forallb] in Hd0.
  apply andb_true_iff in Hd0 as [Hd0 Ht]. apply isDigit_range in Hd0.
  assert (E2 : fmt.indexRune fmt.decimalDigits (b2z d) = true)
    by (apply indexRune_digits; lia).
  destruct (isSignOpt_cases sg Hsg) as [-> | (c & -> & Hc)]; cbn [map app].
  - rewrite SkipSpace_stop by (apply isSpace_false; lia).
    unfold fmt.accept at 1.
    assert (E1 : fmt.indexRune fmt.sign (b2z d) = false).
    { destruct (fmt.indexRune fmt.sign (b2z d)) eqn:E; [|reflexivity].
      apply indexRune_sign in E. lia. }
    rewrite E1. unfold fmt.scanNumber, fmt.accept. rewrite E2.
    rewrite acceptAll_digits by assumption. reflexivity.
  - rewrite SkipSpace_stop by (apply isSpace_false; lia).
    unfold fmt.accept at 1.
    assert (E1 : fmt.indexRune fmt.sign (b2z c) = true)
      by (apply indexRune_sign; lia).
    rewrite E1. unfold fmt.scanNumber, fmt.accept. rewrite E2.
    rewrite acceptAll_digits by assumption. reflexivity.
Qed.

Lemma SkipSpace_token (sg ds : list byte) (s : fmt.input) :
  isSignOpt sg = true -> ds <> [] -> forallb isDigit ds = true ->
  fmt.SkipSpace (map b2z sg ++ map b2z ds ++ s)
  = inr (map b2z sg ++ map b2z ds ++ s).
Proof.
  intros Hsg Hne Hd. destruct ds as [|d t]; [congruence|].
  cbn [forallb] in Hd. apply andb_true_iff in Hd as [Hd _].
  apply isDigit_range in Hd.
  destruct (isSignOpt_cases sg Hsg) as [-> | (c & -> & Hc)]; cbn [map app];
    apply SkipSpace_stop, isSpace_false; lia.
Qed.

Lemma doScanf_value_token (ows sg ds : list byte) (s : fmt.input) :
  forallb isBlank ows = true -> isSignOpt sg = true ->
  ds <> [] -> forallb isDigit ds = true -> stops s = true ->
  fmt.doScanf 5 valueFormat 1 []
    (map b2z ows ++ map b2z sg ++ map b2z ds ++ s)
  = match strconv.ParseInt (map b2z sg ++ map b2z ds) with
    | inl e => (0, [], Some e)
    | inr i =>
      match fmt.matchSpaces 1 false s with
      | inl e => (1, [i], Some e)
      | inr _ => (1, [i], None)
      end
    end.
Proof.
  intros Ho Hsg Hne Hd Hs. rewrite doScanf_value_eq.
  rewrite SkipSpace_blanks, SkipSpace_token by assumption.
  pose proof (scanInt_token [] sg ds s eq_refl Hsg Hne Hd Hs) as Hi.
  cbn [map app] in Hi. rewrite Hi.
  now destruct (strconv.ParseInt _).
Qed.

Lemma matchSpaces0_blanks (pad : list byte) (s : fmt.input) :
  pad <> [] -> forallb isBlank pad = true ->
  fmt.matchSpaces 0 true (map b2z pad ++ s) = inr (fmt.skipBlanks s).
Proof.
  intros Hne Hp. unfold fmt.matchSpaces. cbn [fmt.matchNewlines].
  rewrite skipBlanks_blanks by assumption.
  destruct pad as [|b t]; [congruence|].
  cbn [forallb] in Hp. apply andb_true_iff in Hp as [Hb _].
  apply isBlank_range in Hb. cbn [map app].
  assert (Hs : fmt.isSpace (b2z b) = true) by (apply isSpace_spec; lia).
  rewrite Hs. cbn [negb].
  destruct (Z.eqb_spec (b2z b) 10); [lia | reflexivity].
Qed.

Lemma skipBlanks_token (sg ds : list byte) (s : fmt.input) :
  isSignOpt sg = true -> ds <> [] -> forallb isDigit ds = true ->
  fmt.skipBlanks (map b2z sg ++ map b2z ds ++ s)
  = map b2z sg ++ map b2z ds ++ s.
Proof.
  intros Hsg Hne Hd. destruct ds as [|d t]; [congruence|].
  cbn [forallb] in Hd. apply andb_true_iff in Hd as [Hd _].
  apply isDigit_range in Hd.
  destruct (isSignOpt_cases sg Hsg) as [-> | (c & -> & Hc)];
    cbn [map app fmt.skipBlanks]; now rewrite isSpace_false by lia.
Qed.

Lemma doScanf_status_token (pad sg ds : list byte) (s : fmt.input) :
  pad <> [] -> forallb isBlank pad = true -> isSignOpt sg = true ->
  ds <> [] -> forallb isDigit ds = true -> stops s = true ->
  fmt.doScanf 12 statusFormat 1 []
    (statusLiteral ++ map b2z pad ++ map b2z sg ++ map b2z ds ++ s)
  = match strconv.ParseInt (map b2z sg ++ map b2z ds) with
    | inl e => (0, [], Some e)
    | inr i => (1, [i], None)
    end.
Proof.
  intros Hpn Hp Hsg Hne Hd Hs. rewrite doScanf_status_eq.
  rewrite matchSpaces0_blanks, skipBlanks_token, SkipSpace_token by assumption.
  pose proof (scanInt_token [] sg ds s eq_refl Hsg Hne Hd Hs) as Hi.
  cbn [map app] in Hi. rewrite Hi.
  now destruct (strconv.ParseInt _).
Qed.

Lemma isSignOpt_isAscii (sg : list byte) :
  isSignOpt sg = true -> forallb isAscii sg = true.
Proof.
  intros H. destruct (isSignOpt_cases sg H) as [-> | (c & -> & Hc)];
    [reflexivity|].
  cbn [forallb]. unfold isAscii. rewrite andb_true_r. apply Z.ltb_lt. lia.
Qed.

(** [fmt.Sscanf] with the format of the status line. *)
Lemma Sscanf_status_token (pad sg ds tail : list byte) :
  pad <> [] -> forallb isBlank pad = true -> isSignOpt sg = true ->
  ds <> [] -> forallb isDigit ds = true -> stopsAt tail = true ->
  Z.of_nat (List.length (pad ++ sg ++ ds)) <= fmt.hugeWid - 8 ->
  fmt.Sscanf (bytes "HTTP/1.1" ++ pad ++ sg ++ ds ++ tail ++ [LF])
    (bytes "HTTP/1.1 %d")
  = match strconv.ParseInt (map b2z sg ++ map b2z ds) with
    | inl e => (0, 0, Some e)
    | inr i => (1, i, None)
    end.
Proof.
  intros Hpn Hp Hsg Hne Hd Ht Hlen. unfold fmt.Sscanf.
  change (utf8.decodeRunes (bytes "HTTP/1.1 %d")) with statusFormat.
  change (S (List.length statusFormat)) with 12%nat.
  replace (bytes "HTTP/1.1" ++ pad ++ sg ++ ds ++ tail ++ [LF])
    with ((bytes "HTTP/1.1" ++ pad ++ sg ++ ds) ++ tail ++ [LF])
    by now rewrite <- !app_assoc.
  rewrite decodeRunes_ascii.
  2:{ repeat apply forallb_app_intro;
        auto using isBlank_isAscii, isDigit_isAscii, isSignOpt_isAscii. }
  rewrite limit_app.
  2:{ rewrite length_map, length_app. rewrite !length_app in *.
      change (List.length (bytes "HTTP/1.1")) with 8%nat. lia. }
  match goal with
  | |- context [fmt.limit ?a ?b] =>
      pose proof (stops_limit b a (stops_tail tail [] Ht)) as Hs;
      revert Hs; generalize (fmt.limit a b)
  end.
  intros X Hs. rewrite !map_app, <- !app_assoc.
  change (map b2z (bytes "HTTP/1.1")) with statusLiteral.
  pose proof (doScanf_status_token pad sg ds X Hpn Hp Hsg Hne Hd Hs) as E.
  unfold rune, fmt.input in *. rewrite E.
  now destruct (strconv.ParseInt _).
Qed.

(** [fmt.Sscanf] with the format of the value of a Content-Length
    field. *)
Lemma Sscanf_value_token (pad sg ds tail : list byte) :
  forallb isBlank pad = true -> isSignOpt sg = true ->
  ds <> [] -> forallb isDigit ds = true -> stopsAt tail = true ->
  Z.of_nat (List.length (pad ++ sg ++ ds)) <= fmt.hugeWid ->
  fmt.Sscanf (pad ++ sg ++ ds ++ tail ++ [LF]) (bytes "%d" ++ CRLF)
  = match strconv.ParseInt (map b2z sg ++ map b2z ds) with
    | inl e => (0, 0, Some e)
    | inr i =>
      match fmt.matchSpaces 1 false
              (fmt.limit (fmt.hugeWid - Z.of_nat (List.length (pad ++ sg ++ ds)))
                 (utf8.decodeRunes (tail ++ [LF]))) with
      | inl e => (1, i, Some e)
      | inr _ => (1, i, None)
      end
    end.
Proof.
  intros Hp Hsg Hne Hd Ht Hlen. unfold fmt.Sscanf.
  change (utf8.decodeRunes (bytes "%d" ++ CRLF)) with valueFormat.
  change (S (List.length valueFormat)) with 5%nat.
  replace (pad ++ sg ++ ds ++ tail ++ [LF])
    with ((pad ++ sg ++ ds) ++ tail ++ [LF]) by now rewrite <- !app_assoc.
  rewrite decodeRunes_ascii.
  2:{ repeat apply forallb_app_intro;
        auto using isBlank_isAscii, isDigit_isAscii, isSignOpt_isAscii. }
  rewrite limit_app by (now rewrite length_map).
  rewrite length_map.
  match goal with
  | |- context [fmt.limit ?a ?b] =>
      pose proof (stops_limit b a (stops_tail tail [] Ht)) as Hs;
      revert Hs; generalize (fmt.limit a b)
  end.
  intros X Hs. rewrite !map_app, <- !app_assoc.
  pose proof (doScanf_value_token pad sg ds X Hp Hsg Hne Hd Hs) as E.
  unfold rune, fmt.input in *. rewrite E.
  destruct (strconv.ParseInt _); [reflexivity|].
  now destruct (fmt.matchSpaces 1 false X).
Qed.

Lemma parseUintLoop_value (ds : list byte) :
  forall (n v : Z),
  forallb isDigit ds = true ->
  strconv.parseUintLoop n (map b2z ds) = inr v -> v = digitsValue n ds.
Proof.
  induction ds as [|d t IH]; intros n v Hd H; cbn [map strconv.parseUintLoop] in H.
  - now injection H as <-.
  - cbn [forallb] in Hd. apply andb_true_iff in Hd as [Hd Ht].
    apply isDigit_range in Hd.
    destruct (Z.leb_spec 48 (b2z d)); [|lia].
    destruct (Z.leb_spec (b2z d) 57); [|lia]. cbn [andb] in H.
    destruct (strconv.cutoff10 <=? n); [discriminate|].
    destruct (strconv.maxUint64 <? n * 10 + (b2z d - 48)); [discriminate|].
    cbn [digitsValue]. now apply IH.
Qed.

Lemma digits_runes (ds : list byte) :
  forallb isDigit ds = true ->
  Forall (fun r => fmt.indexRune fmt.decimalDigits r = true) (map b2z ds).
Proof.
  induction ds as [|d t IH]; cbn [forallb map]; intros H; [constructor|].
  apply andb_true_iff in H as [Hd Ht]. constructor; [|now apply IH].
  apply indexRune_digits. now apply isDigit_range.
Qed.

(** A number beyond the largest [int] is a range error. *)
Lemma ParseInt_overflow (ds : list byte) :
  ds <> [] -> forallb isDigit ds = true -> maxInt < digitsValue 0 ds ->
  strconv.ParseInt (map b2z ds) = inl strconv_ErrRange.
Proof.
  intros Hne Hd Hv. destruct ds as [|d t]; [congruence|].
  pose proof (digits_runes _ Hd) as Hr. cbn [map] in Hr.
  destruct (strconv.ParseInt (map b2z (d :: t))) as [e|i] eqn:E.
  - cbn [map] in E.
    now rewrite (ParseInt_range [] (b2z d) (map b2z t) e (or_introl eq_refl) Hr E).
  - exfalso. revert E. unfold strconv.ParseInt. cbn [map].
    pose proof Hd as Hd0. cbn [forallb] in Hd0.
    apply andb_true_iff in Hd0 as [Hd0 _]. apply isDigit_range in Hd0.
    destruct (Z.eqb_spec (b2z d) 43); [lia|].
    destruct (Z.eqb_spec (b2z d) 45); [lia|]. cbn [orb].
    unfold strconv.ParseUint.
    change (b2z d :: map b2z t) with (map b2z (d :: t)).
    destruct (strconv.parseUintLoop 0 (map b2z (d :: t))) as [e|un] eqn:Eu.
    + now destruct e.
    + apply parseUintLoop_value in Eu; [|assumption]. subst un.
      cbn [negb andb]. unfold maxInt in Hv.
      destruct (Z.leb_spec (2 ^ 63) (digitsValue 0 (d :: t))); [discriminate | lia].
Qed.

(** A number with the sign [-]. *)
Lemma ParseInt_negative (ds : list byte) :
  ds <> [] -> forallb isDigit ds = true -> digitsValue 0 ds <= 2 ^ 63 ->
  strconv.ParseInt (map b2z ["-"%byte] ++ map b2z ds)
  = inr (- digitsValue 0 ds).
Proof.
  intros Hne Hd Hv. destruct ds as [|d t]; [congruence|].
  cbn [map app]. unfold strconv.ParseInt.
  change (b2z "-"%byte) with 45. cbn [Z.eqb Pos.eqb orb].
  unfold strconv.ParseUint.
  change (b2z d :: map b2z t) with (map b2z (d :: t)).
  rewrite parseUintLoop_digits;
    [| assumption | lia | unfold strconv.maxUint64; lia].
  cbn [negb andb].
  destruct (Z.ltb_spec (2 ^ 63) (digitsValue 0 (d :: t))); [lia | reflexivity].
Qed.

(** ** A Content-Length field with any value *)

Lemma ToLower_id (l : list byte) :
  Forall (fun b => Bytes.toLower b = b) l -> Bytes.ToLower l = l.
Proof.
  unfold Bytes.ToLower. induction 1 as [|b t Hb _ IH]; [reflexivity|].
  cbn [map]. now rewrite Hb, IH.
Qed.

Lemma toLower_blanks (l : list byte) :
  forallb isBlank l = true -> Forall (fun b => Bytes.toLower b = b) l.
Proof.
  rewrite forallb_forall, Forall_forall. intros H b Hb.
  apply toLower_fixed. now rewrite (H b Hb), orb_true_r.
Qed.

Lemma toLower_digits (l : list byte) :
  forallb isDigit l = true -> Forall (fun b => Bytes.toLower b = b) l.
Proof.
  rewrite forallb_forall, Forall_forall. intros H b Hb.
  apply toLower_fixed. now rewrite (H b Hb).
Qed.

Lemma noLF_name (name : list byte) :
  Bytes.ToLower name = bytes "content-length" -> noLF name = true.
Proof. intros H. now rewrite <- noLF_ToLower, H. Qed.

Lemma isLine_fieldLine (name v : list byte) :
  Bytes.ToLower name = bytes "content-length" -> noLF v = true ->
  isLine (fieldLine name v) = true.
Proof.
  intros Hn Hv. unfold fieldLine.
  change (name ++ ":"%byte :: v ++ [LF]) with (name ++ [":"%byte] ++ v ++ [LF]).
  rewrite !app_assoc. apply isLine_intro.
  now rewrite !noLF_app, (noLF_name name Hn), Hv.
Qed.

Lemma ToLower_fieldLine (name v : list byte) :
  Bytes.ToLower name = bytes "content-length" ->
  Bytes.ToLower (fieldLine name v)
  = contentLengthPrefix ++ Bytes.ToLower v ++ [LF].
Proof.
  intros Hn. unfold fieldLine.
  change (name ++ ":"%byte :: v ++ [LF]) with (name ++ [":"%byte] ++ v ++ [LF]).
  unfold Bytes.ToLower in *. rewrite !map_app, Hn. reflexivity.
Qed.

Lemma isContentLength_fieldLine (name v : list byte) :
  Bytes.ToLower name = bytes "content-length" ->
  isContentLength (fieldLine name v) = true.
Proof.
  intros Hn. unfold isContentLength. rewrite ToLower_fieldLine by assumption.
  apply HasPrefix_app.
Qed.

Lemma lengthValue_fieldLine (name v : list byte) :
  Bytes.ToLower name = bytes "content-length" ->
  lengthValue (fieldLine name v) = Bytes.ToLower v ++ [LF].
Proof.
  intros Hn. unfold lengthValue. rewrite ToLower_fieldLine by assumption.
  apply skipn_app_exact.
Qed.

(** [parseStatus] on a header block with a first Content-Length field
    whose value does not scan, and with one whose value scans. *)
Lemma parseStatus_field_error (d1 d2 d3 : byte) (reason : list byte)
    (fs : list (list byte)) (line rest : list byte) (n v : Z) (e : error) :
  isDigit d1 = true -> isDigit d2 = true -> isDigit d3 = true ->
  noLF reason = true ->
  forallb otherHeader fs = true -> forallb fits fs = true ->
  isLine line = true -> fits line = true -> isContentLength line = true ->
  fmt.Sscanf (lengthValue line) (bytes "%d" ++ CRLF) = (n, v, Some e) ->
  parseStatus (statusLine [d1; d2; d3] reason ++ List.concat fs ++ line ++ rest)
  = Ret (0, Some e, rest).
Proof.
  intros H1 H2 H3 Hr Hfs Hfit Hl Hf Hc Hs.
  rewrite parseStatus_statusLine by assumption.
  destruct (otherHeader_split fs Hfs) as [Hh Hn].
  assert (E : readHeaders (S (List.length (List.concat fs ++ line ++ rest)))
                0 false (List.concat fs ++ line ++ rest)
              = Ret (inl e, rest)).
  { apply readHeaders_fuel with (fuel := (List.length fs + 1)%nat).
    - rewrite readHeaders_lines by assumption.
      rewrite readHeaders_length by assumption.
      unfold lengthValue in Hs. now rewrite Hs.
    - pose proof (headerLine_nonempty fs Hh). rewrite length_app. lia. }
  rewrite E. reflexivity.
Qed.

Lemma parseStatus_field_value (d1 d2 d3 : byte) (reason : list byte)
    (fs later : list (list byte)) (line rest : list byte) (v : Z) :
  isDigit d1 = true -> isDigit d2 = true -> isDigit d3 = true ->
  noLF reason = true ->
  forallb otherHeader fs = true -> forallb fits fs = true ->
  isLine line = true -> fits line = true -> isContentLength line = true ->
  fmt.Sscanf (lengthValue line) (bytes "%d" ++ CRLF) = (1, v, None) ->
  forallb headerLine later = true -> forallb fits later = true ->
  parseStatus (statusLine [d1; d2; d3] reason ++ List.concat fs ++ line
               ++ List.concat later ++ CRLF ++ rest)
  = match bufio.Discard v rest with
    | (_, Some e, r3) => Ret (0, Some e, r3)
    | (_, None, r3) => Ret (digitsValue 0 [d1; d2; d3], None, r3)
    end.
Proof.
  intros H1 H2 H3 Hr Hfs Hfit Hl Hf Hc Hs Hlater Hlfit.
  rewrite parseStatus_statusLine by assumption.
  destruct (otherHeader_split fs Hfs) as [Hh Hn].
  assert (E : readHeaders
                (S (List.length (List.concat fs ++ line ++ List.concat later
                                 ++ CRLF ++ rest)))
                0 false
                (List.concat fs ++ line ++ List.concat later ++ CRLF ++ rest)
              = Ret (inr v, rest)).
  { apply readHeaders_fuel
      with (fuel := (List.length fs + S (List.length later + 1))%nat).
    - rewrite readHeaders_lines by assumption.
      rewrite readHeaders_length by assumption.
      unfold lengthValue in Hs. rewrite Hs. cbn [negb Z.eqb Pos.eqb].
      rewrite readHeaders_lines by (assumption || reflexivity).
      apply readHeaders_blank.
    - pose proof (headerLine_nonempty fs Hh) as L1.
      pose proof (headerLine_nonempty later Hlater) as L2.
      destruct (isLine_nonempty line Hl) as (a & t & ->).
      rewrite !length_app. cbn [List.length]. lia. }
  rewrite E. reflexivity.
Qed.

Lemma lengthLine_fieldLine (name pad1 digits pad2 : list byte) :
  lengthLine name pad1 digits pad2
  = fieldLine name (pad1 ++ digits ++ pad2 ++ [CR]).
Proof.
  unfold lengthLine, fieldLine, CRLF. f_equal. f_equal.
  rewrite <- !app_assoc. reflexivity.
Qed.

Lemma fits_hugeWid (line : list byte) :
  fits line = true -> Z.of_nat (List.length line) <= 4096.
Proof.
  unfold fits. intros H. apply Nat.leb_le in H.
  assert (Hb : Z.of_nat bufio.defaultBufSize = 4096) by reflexivity. lia.
Qed.

Lemma matchSpaces1_end (pad2 : list byte) (m : Z) :
  forallb isBlank pad2 = true ->
  Z.of_nat (List.length pad2) + 2 <= m ->
  exists s',
    fmt.matchSpaces 1 false
      (fmt.limit m (utf8.decodeRunes ((pad2 ++ [CR]) ++ [LF]))) = inr s'.
Proof.
  intros Hp Hm.
  rewrite decodeRunes_ascii_all.
  2:{ repeat apply forallb_app_intro; auto using isBlank_isAscii. }
  rewrite limit_all.
  2:{ rewrite length_map, !length_app. cbn [List.length]. lia. }
  rewrite <- app_assoc, map_app. change (map b2z ([CR] ++ [LF])) with [13; 10].
  rewrite matchSpaces_newline by assumption. eauto.
Qed.

Lemma stopsAt_blanks_CR (pad2 : list byte) :
  forallb isBlank pad2 = true -> stopsAt (pad2 ++ [CR]) = true.
Proof.
  destruct pad2 as [|b t]; [reflexivity|].
  cbn [forallb app stopsAt]. rewrite andb_true_iff. intros [Hb _].
  apply isBlank_range in Hb. apply negb_true_iff.
  destruct (isDigit b) eqn:E; [|reflexivity].
  apply isDigit_range in E. lia.
Qed.

Lemma noLF_value (pad1 sg ds pad2 : list byte) :
  forallb isBlank pad1 = true -> noLF sg = true ->
  forallb isDigit ds = true -> forallb isBlank pad2 = true ->
  noLF (pad1 ++ sg ++ ds ++ pad2 ++ [CR]) = true.
Proof.
  intros H1 Hs Hd H2.
  now rewrite !noLF_app, (noLF_blanks _ H1), Hs, (noLF_digits _ Hd),
    (noLF_blanks _ H2).
Qed.

(** The scan of the value [pad1 sg ds pad2 CR LF] of a field. *)
Lemma Sscanf_field (name pad1 sg ds pad2 : list byte) :
  Bytes.ToLower name = bytes "content-length" ->
  forallb isBlank pad1 = true -> isSignOpt sg = true ->
  ds <> [] -> forallb isDigit ds = true -> forallb isBlank pad2 = true ->
  fits (fieldLine name (pad1 ++ sg ++ ds ++ pad2 ++ [CR])) = true ->
  fmt.Sscanf (lengthValue (fieldLine name (pad1 ++ sg ++ ds ++ pad2 ++ [CR])))
    (bytes "%d" ++ CRLF)
  = match strconv.ParseInt (map b2z sg ++ map b2z ds) with
    | inl e => (0, 0, Some e)
    | inr i => (1, i, None)
    end.
Proof.
  intros Hn H1 Hsg Hne Hd H2 Hf.
  rewrite lengthValue_fieldLine by assumption.
  assert (Fs : Forall (fun b => Bytes.toLower b = b) sg).
  { destruct sg as [|c [|c' t]]; [constructor | | discriminate Hsg].
    cbn [isSignOpt] in Hsg. apply orb_true_iff in Hsg as [H | H];
      apply byte_eqb_eq in H; subst; repeat constructor. }
  rewrite ToLower_id.
  2:{ repeat (apply Forall_app; split);
        auto using toLower_blanks, toLower_digits. }
  apply fits_hugeWid in Hf. unfold fieldLine in Hf.
  rewrite !length_app in Hf. cbn [List.length] in Hf.
  rewrite !length_app in Hf. cbn [List.length] in Hf.
  assert (Hh : fmt.hugeWid = 1073741824) by reflexivity.
  replace ((pad1 ++ sg ++ ds ++ pad2 ++ [CR]) ++ [LF])
    with (pad1 ++ sg ++ ds ++ (pad2 ++ [CR]) ++ [LF])
    by now rewrite <- !app_assoc.
  rewrite Sscanf_value_token; try assumption.
  - destruct (strconv.ParseInt _); [reflexivity|].
    destruct (matchSpaces1_end pad2
                (fmt.hugeWid - Z.of_nat (List.length (pad1 ++ sg ++ ds))) H2)
      as (s' & ->); [|reflexivity].
    rewrite !length_app. lia.
  - now apply stopsAt_blanks_CR.
  - rewrite !length_app. lia.
Qed.

Lemma isSignOpt_noLF (sg : list byte) : isSignOpt sg = true -> noLF sg = true.
Proof.
  intros H. destruct (isSignOpt_cases sg H) as [-> | (c & -> & Hc)];
    [reflexivity|].
  cbn [noLF forallb]. rewrite andb_true_r. apply negb_true_iff, byte_eqb_neq.
  intros ->. cbn in Hc. lia.
Qed.

(** X12: a negative Content-Length is scanned as a number, and the parse
    fails when the body is to be skipped, after the header block, with
    bufio.ErrNegativeCount. *)
Theorem parseStatus_negative_length (d1 d2 d3 : byte) (reason : list byte)
    (fs later : list (list byte)) (name pad1 digits pad2 rest : list byte) :
  isDigit d1 = true -> isDigit d2 = true -> isDigit d3 = true ->
  noLF reason = true ->
  forallb otherHeader fs = true -> forallb fits fs = true ->
  Bytes.ToLower name = bytes "content-length" ->
  forallb isBlank pad1 = true -> forallb isBlank pad2 = true ->
  digits <> [] -> forallb isDigit digits = true ->
  0 < digitsValue 0 digits <= 2 ^ 63 ->
  fits (lengthLine name pad1 ("-"%byte :: digits) pad2) = true ->
  forallb headerLine later = true -> forallb fits later = true ->
  parseStatus (statusLine [d1; d2; d3] reason ++ List.concat fs
               ++ lengthLine name pad1 ("-"%byte :: digits) pad2
               ++ List.concat later ++ CRLF ++ rest)
  = Ret (0, Some bufio_ErrNegativeCount, rest).
Proof.
  intros H1 H2 H3 Hr Hfs Hfit Hn Hp1 Hp2 Hne Hd Hv Hf Hl Hlf.
  rewrite lengthLine_fieldLine in *.
  change ("-"%byte :: digits) with (["-"%byte] ++ digits) in *.
  rewrite <- !app_assoc in *.
  rewrite (parseStatus_field_value d1 d2 d3 reason fs later _ rest
             (- digitsValue 0 digits)); try assumption.
  - unfold bufio.Discard.
    destruct (Z.ltb_spec (- digitsValue 0 digits) 0); [reflexivity | lia].
  - apply isLine_fieldLine; [assumption|]. now apply noLF_value.
  - now apply isContentLength_fieldLine.
  - rewrite (Sscanf_field name pad1 ["-"%byte] digits pad2); try assumption;
      [|reflexivity].
    rewrite ParseInt_negative by (assumption || lia). reflexivity.
Qed.

Lemma parseStatus_negative_length_witness :
  parseStatus (statusLine (bytes "200") (bytes "OK")
               ++ List.concat [bytes "Server: Apache" ++ CRLF]
               ++ lengthLine (bytes "Content-Length") [" "%byte] (bytes "-4") []
               ++ List.concat [] ++ CRLF ++ bytes "body")
  = Ret (0, Some bufio_ErrNegativeCount, bytes "body").
Proof.
  refine (parseStatus_negative_length "2"%byte "0"%byte "0"%byte (bytes "OK")
            [bytes "Server: Apache" ++ CRLF] []
            (bytes "Content-Length") [" "%byte] (bytes "4") [] (bytes "body")
            eq_refl eq_refl eq_refl eq_refl eq_refl eq_refl eq_refl eq_refl
            eq_refl _ eq_refl _ eq_refl eq_refl eq_refl).
  - discriminate.
  - vm_compute. split; [reflexivity | discriminate].
Defined.

(** X13: a Content-Length beyond the largest [int] makes [parseStatus] fail
    with the range error of strconv; the reader is left after the line
    of the field. *)
Theorem parseStatus_length_overflow (d1 d2 d3 : byte) (reason : list byte)
    (fs : list (list byte)) (name pad1 digits pad2 rest : list byte) :
  isDigit d1 = true -> isDigit d2 = true -> isDigit d3 = true ->
  noLF reason = true ->
  forallb otherHeader fs = true -> forallb fits fs = true ->
  Bytes.ToLower name = bytes "content-length" ->
  forallb isBlank pad1 = true -> forallb isBlank pad2 = true ->
  digits <> [] -> forallb isDigit digits = true ->
  maxInt < digitsValue 0 digits ->
  fits (lengthLine name pad1 digits pad2) = true ->
  parseStatus (statusLine [d1; d2; d3] reason ++ List.concat fs
               ++ lengthLine name pad1 digits pad2 ++ rest)
  = Ret (0, Some strconv_ErrRange, rest).
Proof.
  intros H1 H2 H3 Hr Hfs Hfit Hn Hp1 Hp2 Hne Hd Hv Hf.
  rewrite lengthLine_fieldLine in *.
  change (pad1 ++ digits ++ pad2 ++ [CR])
    with (pad1 ++ [] ++ digits ++ pad2 ++ [CR]) in *.
  apply (parseStatus_field_error d1 d2 d3 reason fs _ rest 0 0); try assumption.
  - apply isLine_fieldLine; [assumption|]. now apply noLF_value.
  - now apply isContentLength_fieldLine.
  - rewrite (Sscanf_field name pad1 [] digits pad2); try assumption;
      [|reflexivity].
    cbn [map app]. now rewrite ParseInt_overflow.
Qed.

Lemma parseStatus_length_overflow_witness :
  parseStatus (statusLine (bytes "200") (bytes "OK") ++ List.concat []
               ++ lengthLine (bytes "Content-Length") [" "%byte]
                    (bytes "9223372036854775808") []
               ++ CRLF)
  = Ret (0, Some strconv_ErrRange, CRLF).
Proof.
  refine (parseStatus_length_overflow "2"%byte "0"%byte "0"%byte (bytes "OK")
            [] (bytes "Content-Length") [" "%byte]
            (bytes "9223372036854775808") [] CRLF
            eq_refl eq_refl eq_refl eq_refl eq_refl eq_refl eq_refl eq_refl
            eq_refl _ eq_refl _ eq_refl).
  - discriminate.
  - vm_compute. reflexivity.
Defined.

Lemma toLower_visible (b : byte) :
  isVisible b = true -> isDigit b = false ->
  isVisible (Bytes.toLower b) = true /\ isDigit (Bytes.toLower b) = false.
Proof. destruct b; intros H1 H2; try discriminate H1; try discriminate H2; now split. Qed.

Lemma matchSpaces1_text (pad2 : list byte) (x : byte) (s : fmt.input) :
  forallb isBlank pad2 = true -> isVisible x = true ->
  fmt.matchSpaces 1 false (map b2z pad2 ++ b2z x :: s)
  = inl (errorString "newline in format does not match input").
Proof.
  intros Hp Hx. unfold isVisible in Hx.
  apply andb_true_iff in Hx as [Ha Hb]. apply Z.leb_le in Ha, Hb.
  unfold fmt.matchSpaces. cbn [fmt.matchNewlines]. unfold fmt.matchNewline.
  rewrite skipBlanks_blanks by assumption. cbn [fmt.skipBlanks].
  rewrite isSpace_false by lia. cbn [andb].
  destruct (Z.eqb_spec (b2z x) 10); [lia | reflexivity].
Qed.

(** X14: text after the digits of a Content-Length, other than blanks,
    makes [parseStatus] fail: the format wants the end of the line
    there. *)
Theorem parseStatus_length_text (d1 d2 d3 : byte) (reason : list byte)
    (fs : list (list byte)) (name pad1 digits pad2 : list byte) (x : byte)
    (text rest : list byte) :
  isDigit d1 = true -> isDigit d2 = true -> isDigit d3 = true ->
  noLF reason = true ->
  forallb otherHeader fs = true -> forallb fits fs = true ->
  Bytes.ToLower name = bytes "content-length" ->
  forallb isBlank pad1 = true -> forallb isBlank pad2 = true ->
  digits <> [] -> forallb isDigit digits = true ->
  digitsValue 0 digits <= maxInt ->
  isVisible x = true -> isDigit x = false -> noLF text = true ->
  fits (fieldLine name (pad1 ++ digits ++ pad2 ++ x :: text)) = true ->
  parseStatus (statusLine [d1; d2; d3] reason ++ List.concat fs
               ++ fieldLine name (pad1 ++ digits ++ pad2 ++ x :: text) ++ rest)
  = Ret (0, Some (errorString "newline in format does not match input"), rest).
Proof.
  intros H1 H2 H3 Hr Hfs Hfit Hn Hp1 Hp2 Hne Hd Hv Hx Hxd Ht Hf.
  destruct (toLower_visible x Hx Hxd) as [Hx' Hxd'].
  assert (Hxl : noLF [x] = true).
  { cbn [noLF forallb]. rewrite andb_true_r.
    apply negb_true_iff, byte_eqb_neq. intros ->. discriminate Hx. }
  apply (parseStatus_field_error d1 d2 d3 reason fs _ rest 1
           (digitsValue 0 digits)); try assumption.
  - apply isLine_fieldLine; [assumption|].
    change (x :: text) with ([x] ++ text).
    now rewrite !noLF_app, (noLF_blanks _ Hp1), (noLF_digits _ Hd),
      (noLF_blanks _ Hp2), Hxl, Ht.
  - now apply isContentLength_fieldLine.
  - rewrite lengthValue_fieldLine by assumption.
    change (x :: text) with ([x] ++ text).
    unfold Bytes.ToLower. rewrite !map_app.
    fold (Bytes.ToLower pad1) (Bytes.ToLower digits) (Bytes.ToLower pad2)
      (Bytes.ToLower text).
    rewrite (ToLower_id pad1), (ToLower_id digits), (ToLower_id pad2)
      by auto using toLower_blanks, toLower_digits.
    cbn [map].
    apply fits_hugeWid in Hf. unfold fieldLine in Hf.
    rewrite !length_app in Hf. cbn [List.length] in Hf.
    rewrite !length_app in Hf. cbn [List.length] in Hf.
    assert (Hh : fmt.hugeWid = 1073741824) by reflexivity.
    replace ((pad1 ++ digits ++ pad2 ++ [Bytes.toLower x] ++ Bytes.ToLower text)
             ++ [LF])
      with (pad1 ++ [] ++ digits
            ++ (pad2 ++ Bytes.toLower x :: Bytes.ToLower text) ++ [LF])
      by (cbn [app]; now rewrite <- !app_assoc).
    rewrite Sscanf_value_token; try assumption; try reflexivity.
    + cbn [map app]. rewrite ParseInt_digits by assumption.
      replace ((pad2 ++ Bytes.toLower x :: Bytes.ToLower text) ++ [LF])
        with ((pad2 ++ [Bytes.toLower x]) ++ Bytes.ToLower text ++ [LF])
        by (rewrite <- !app_assoc; reflexivity).
      rewrite decodeRunes_ascii.
      2:{ apply forallb_app_intro; [now apply isBlank_isAscii|].
          cbn [forallb]. rewrite andb_true_r. unfold isAscii, isVisible in *.
          apply andb_true_iff in Hx' as [_ Hb]. apply Z.leb_le in Hb.
          apply Z.ltb_lt. lia. }
      rewrite limit_app.
      2:{ rewrite length_map, !length_app. cbn [List.length]. lia. }
      rewrite map_app, <- app_assoc. cbn [map app].
      now rewrite matchSpaces1_text.
    + destruct pad2 as [|b t]; cbn [app stopsAt].
      * now rewrite Hxd'.
      * cbn [forallb] in Hp2. apply andb_true_iff in Hp2 as [Hb _].
        apply isBlank_range in Hb. apply negb_true_iff.
        destruct (isDigit b) eqn:E; [|reflexivity].
        apply isDigit_range in E. lia.
    + rewrite !length_app. cbn [List.length]. lia.
Qed.

Lemma parseStatus_length_text_witness :
  parseStatus (statusLine (bytes "200") (bytes "OK") ++ List.concat []
               ++ fieldLine (bytes "Content-Length")
                    ([" "%byte] ++ bytes "4" ++ [] ++ ","%byte :: bytes " 4" ++ [CR])
               ++ CRLF ++ bytes "body")
  = Ret (0, Some (errorString "newline in format does not match input"),
         CRLF ++ bytes "body").
Proof.
  refine (parseStatus_length_text "2"%byte "0"%byte "0"%byte (bytes "OK") []
            (bytes "Content-Length") [" "%byte] (bytes "4") [] ","%byte
            (bytes " 4" ++ [CR]) (CRLF ++ bytes "body")
            eq_refl eq_refl eq_refl eq_refl eq_refl eq_refl eq_refl eq_refl
            eq_refl _ eq_refl _ eq_refl eq_refl eq_refl eq_refl).
  - discriminate.
  - vm_compute. discriminate.
Defined.

(** ** The status line that the scanner takes *)

(** X15: [parseStatus] takes a status line with any blanks, one at least,
    between [HTTP/1.1] and the code, a code of any number of digits, and
    any text after the code that does not go on with a digit: the
    reason phrase and the carriage return may be missing. *)
Theorem parseStatus_status_line (pad digits text : list byte)
    (fs : list (list byte)) (rest : list byte) :
  pad <> [] -> forallb isBlank pad = true ->
  digits <> [] -> forallb isDigit digits = true ->
  digitsValue 0 digits <= maxInt ->
  stopsAt text = true -> noLF text = true ->
  Z.of_nat (List.length (pad ++ digits)) <= fmt.hugeWid - 8 ->
  forallb otherHeader fs = true -> forallb fits fs = true ->
  parseStatus (bytes "HTTP/1.1" ++ pad ++ digits ++ text ++ [LF]
               ++ List.concat fs ++ CRLF ++ rest)
  = Ret (digitsValue 0 digits, None, rest).
Proof.
  intros Hpn Hp Hne Hd Hv Hs Ht Hlen Hfs Hfit. unfold parseStatus.
  replace (bytes "HTTP/1.1" ++ pad ++ digits ++ text ++ [LF]
           ++ List.concat fs ++ CRLF ++ rest)
    with ((bytes "HTTP/1.1" ++ pad ++ [] ++ digits ++ text ++ [LF])
          ++ List.concat fs ++ CRLF ++ rest)
    by (cbn [app]; now rewrite <- !app_assoc).
  rewrite ReadString_line.
  2:{ cbn [app]. rewrite !app_assoc. apply isLine_intro.
      rewrite !noLF_app, (noLF_blanks _ Hp), (noLF_digits _ Hd), Ht.
      reflexivity. }
  rewrite Sscanf_status_token; try assumption; try reflexivity.
  cbn [map app]. rewrite ParseInt_digits by assumption.
  cbn [negb Z.eqb Pos.eqb].
  rewrite readHeaders_plain_block by (assumption || lia).
  reflexivity.
Qed.

Lemma parseStatus_status_line_witness :
  parseStatus (bytes "HTTP/1.1" ++ [" "%byte; "009"%byte] ++ bytes "20000"
               ++ [] ++ [LF] ++ List.concat [bytes "Server: Apache" ++ CRLF]
               ++ CRLF ++ bytes "next")
  = Ret (20000, None, bytes "next").
Proof.
  refine (parseStatus_status_line [" "%byte; "009"%byte] (bytes "20000") []
            [bytes "Server: Apache" ++ CRLF] (bytes "next")
            _ eq_refl _ eq_refl _ eq_refl eq_refl _ eq_refl eq_refl).
  - discriminate.
  - discriminate.
  - vm_compute. discriminate.
  - vm_compute. discriminate.
Defined.

(** ** Available *)

Lemma eqBytes_refl (a : list byte) : eqBytes a a = true.
Proof.
  induction a as [|x a IH]; [reflexivity|].
  cbn [eqBytes]. now rewrite byte_eqb_refl, IH.
Qed.

Lemma eqBytes_iff (a b : list byte) : eqBytes a b = true <-> a = b.
Proof. split; [apply eqBytes_eq | intros ->; apply eqBytes_refl]. Qed.

Lemma JoinHostPort_nil (port : list byte) :
  net.JoinHostPort [] port = ":"%byte :: port.
Proof. reflexivity. Qed.

(** X16: [Available] panics in one case: the URL parses, its scheme is
    http or https, it names no host, and the dial, then to the port on
    the local system, succeeds; [Supported] then refuses the empty host
    name.  Otherwise it returns. *)
Theorem Available_panics (w : World) (rawurl : list byte) :
  (exists msg, Available w rawurl = Panic msg)
  <-> exists u conn,
        url_Parse w rawurl = inr u /\ url.Hostname u = []
        /\ ((url.Scheme u = bytes "http"
             /\ net_Dial w (bytes "tcp") (":"%byte :: portOr (url.Port u) "80")
                = inr conn)
            \/ (url.Scheme u = bytes "https"
                /\ tls_Dial w (bytes "tcp")
                     (":"%byte :: portOr (url.Port u) "443")
                   = inr conn)).
Proof.
  unfold Available, Dial. split.
  - intros (msg & H). destruct (url_Parse w rawurl) as [e|u]; [discriminate|].
    exists u. cbv zeta in H.
    destruct (eqBytes (url.Scheme u) (bytes "http")) eqn:E1.
    + apply eqBytes_iff in E1.
      destruct (net_Dial w _ _) as [e|conn] eqn:Ed; [discriminate|].
      destruct (url.Hostname u) as [|c t] eqn:Eh.
      * exists conn. rewrite JoinHostPort_nil in Ed. auto.
      * destruct (Supported_total conn (c :: t) ltac:(discriminate)) as (x & Hx).
        congruence.
    + destruct (eqBytes (url.Scheme u) (bytes "https")) eqn:E2; [|discriminate].
      apply eqBytes_iff in E2.
      destruct (tls_Dial w _ _) as [e|conn] eqn:Ed; [discriminate|].
      destruct (url.Hostname u) as [|c t] eqn:Eh.
      * exists conn. rewrite JoinHostPort_nil in Ed. auto.
      * destruct (Supported_total conn (c :: t) ltac:(discriminate)) as (x & Hx).
        congruence.
  - intros (u & conn & -> & Eh & [[Es Ed] | [Es Ed]]); cbv zeta;
      rewrite Es, Eh, !JoinHostPort_nil.
    + rewrite eqBytes_refl, Ed. now exists "host is empty"%string.
    + replace (eqBytes (bytes "https") (bytes "http")) with false by reflexivity.
      rewrite eqBytes_refl, Ed. now exists "host is empty"%string.
Qed.

Lemma Available_panics_witness :
  exists msg, Available localWorld (bytes "http://:8080") = Panic msg.
Proof.
  apply (proj2 (Available_panics localWorld (bytes "http://:8080"))).
  exists {| url.Scheme := bytes "http"; url.Hostname := [];
            url.Port := bytes "8080" |}, (connection []).
  split; [reflexivity|]. split; [reflexivity|].
  left. split; reflexivity.
Defined.



(** ** The burst of requests *)

Lemma Write_buffered (p : list byte) (b : bufio.Writer) :
  bufio.err b = None -> (List.length p <= bufio.Available b)%nat ->
  bufio.Write p b
  = Ret (List.length p, None,
         {| bufio.buf := bufio.buf b ++ p; bufio.err := None;
            bufio.wr := bufio.wr b |}).
Proof.
  intros He Hl. unfold bufio.Write. rewrite writeLoop_done by assumption.
  cbn [bind]. rewrite He, Nat.min_r by assumption.
  now rewrite firstn_all.
Qed.

(** X18: when the two requests of the default prober fit the buffer of the
    writer together, the writer goroutine hands nothing to the
    connection before its flush: both calls of [WriteRequest] return
    nil, the connection is as it was, and the buffer holds the two
    requests, which the flush writes in one piece. *)
Theorem Probe_default_burst (h : optionsProber) (rw : io.ReadWriter) :
  (List.length (requests h) <= bufio.defaultBufSize)%nat ->
  writerGoroutine rw (optionsProber_Prober h)
  = Ret ([(0%N, None); (1%N, None)],
         {| bufio.buf := requests h; bufio.err := None;
            bufio.wr := io.sink rw |},
         [CallWriteRequest 0; CallWriteRequest 1])
  /\ bufio.Flush {| bufio.buf := requests h; bufio.err := None;
                    bufio.wr := io.sink rw |}
     = (let '(n, e, k) := io.Write (requests h) (io.sink rw) in
        match e with
        | Some e1 =>
          (Some e1, {| bufio.buf := skipn n (requests h); bufio.err := Some e1;
                       bufio.wr := k |})
        | None => (None, {| bufio.buf := []; bufio.err := None; bufio.wr := k |})
        end).
Proof.
  intros Hl. unfold requests in *. rewrite length_app in Hl. split.
  - unfold writerGoroutine.
    change (N.to_nat (NumRequests (optionsProber_Prober h))) with 2%nat.
    cbn [writeRequests optionsProber_Prober WriteRequest].
    unfold OptionsProber.WriteRequest at 1.
    rewrite Write_buffered;
      [| reflexivity
       | unfold bufio.Available; cbn [bufio.NewWriter bufio.buf List.length]; lia].
    cbn [bind N.succ]. change (Pos.succ 1) with 2%positive.
    unfold OptionsProber.WriteRequest at 1.
    rewrite Write_buffered;
      [| reflexivity
       | unfold bufio.Available;
         cbn [bufio.NewWriter bufio.buf List.length app]; lia].
    reflexivity.
  - unfold bufio.Flush. cbn [bufio.err bufio.buf bufio.wr].
    destruct (request "*" h ++ request "." h) as [|x t] eqn:E.
    { apply (f_equal (@List.length byte)) in E. rewrite length_app in E.
      unfold request in E. rewrite !length_app in E. cbn in E. lia. }
    destruct (io.Write (x :: t) (io.sink rw)) as [[n [e|]] k] eqn:Ew;
      [reflexivity|].
    apply io_Write_short in Ew. subst n.
    unfold bufio.Buffered. cbn [bufio.buf]. now rewrite Nat.ltb_irrefl.
Qed.

Lemma Probe_default_burst_witness :
  writerGoroutine (connection []) (optionsProber_Prober exampleHost)
  = Ret ([(0%N, None); (1%N, None)],
         {| bufio.buf := requests exampleHost; bufio.err := None;
            bufio.wr := io.sink (connection []) |},
         [CallWriteRequest 0; CallWriteRequest 1]).
Proof.
  refine (proj1 (Probe_default_burst exampleHost (connection []) _)).
  apply Nat.leb_le. vm_compute. reflexivity.
Defined.

(** ** parseStatus takes its bytes from the front *)

Lemma readHeaders_suffix (fuel : nat) :
  forall (cl : Z) (found : bool) (r : bufio.Reader) res r',
  readHeaders fuel cl found r = Ret (res, r') ->
  exists c, r = c ++ r'.
Proof.
  induction fuel as [|fuel IH]; intros cl found r res r' H; [discriminate|].
  cbn [readHeaders] in H.
  destruct (bufio.ReadSlice LF r) as [[line [e1|]] r1] eqn:Es.
  { injection H as _ <-. unfold bufio.ReadSlice in Es.
    destruct (Bytes.IndexByte (firstn bufio.defaultBufSize r) LF);
      [discriminate|].
    destruct (bufio.defaultBufSize <=? List.length r)%nat;
      injection Es as _ _ <-.
    - exists (firstn bufio.defaultBufSize r). symmetry. apply firstn_skipn.
    - exists r. symmetry. apply app_nil_r. }
  destruct (ReadSlice_some _ _ _ Es) as [_ Hr].
  assert (Next : forall cl' found',
            readHeaders fuel cl' found' r1 = Ret (res, r') ->
            exists c, r = c ++ r').
  { intros cl' found' H'. destruct (IH _ _ _ _ _ H') as (c & ->).
    exists (line ++ c). now rewrite Hr, app_assoc. }
  destruct line as [|a t]; [discriminate|].
  destruct ((List.length (a :: t) =? 2)%nat && Byte.eqb a CR
            && Byte.eqb (nth 1 (a :: t) LF) LF).
  { injection H as _ <-. now exists (a :: t). }
  destruct (found || negb (Byte.eqb a byteC) && negb (Byte.eqb a bytec));
    [now apply (Next cl found)|].
  destruct (Bytes.HasPrefix (Bytes.ToLower (a :: t)) contentLengthPrefix);
    [|now apply (Next cl found)].
  destruct (fmt.Sscanf _ _) as [[n v] [e|]].
  { injection H as _ <-. now exists (a :: t). }
  destruct (negb (n =? 1)); [|now apply (Next v true)].
  injection H as _ <-. now exists (a :: t).
Qed.

Lemma Discard_suffix (n k : Z) (r r' : bufio.Reader) (e : option error) :
  bufio.Discard n r = (k, e, r') -> exists c, r = c ++ r'.
Proof.
  unfold bufio.Discard. destruct (n <? 0); [intros [= _ _ <-]; now exists []|].
  destruct (n =? 0); [intros [= _ _ <-]; now exists []|].
  destruct (n <=? Z.of_nat (List.length r)); intros [= _ _ <-].
  - exists (firstn (Z.to_nat n) r). symmetry. apply firstn_skipn.
  - exists r. symmetry. apply app_nil_r.
Qed.

Lemma parseStatus_suffix (r : bufio.Reader) (status : Z) (e : option error) r' :
  parseStatus r = Ret (status, e, r') ->
  exists consumed, r = consumed ++ r' /\ (e = None -> In LF consumed).
Proof.
  unfold parseStatus.
  destruct (bufio.ReadString LF r) as [[line [e1|]] r1] eqn:Es.
  { unfold bufio.ReadString in Es.
    destruct (Bytes.IndexByte r LF); [discriminate|].
    injection Es as _ _ <-. intros [= _ <- <-].
    exists r. rewrite app_nil_r. split; [reflexivity | discriminate]. }
  destruct (ReadString_some _ _ _ Es) as [Hin Hr].
  assert (Stop : forall c, r1 = c ++ r' ->
            exists consumed, r = consumed ++ r' /\ In LF consumed).
  { intros c ->. exists (line ++ c). rewrite Hr, app_assoc.
    split; [reflexivity|]. apply in_or_app. now left. }
  destruct (fmt.Sscanf line (bytes "HTTP/1.1 %d")) as [[n v] [e2|]].
  { intros [= _ <- <-]. exists line. split; [assumption | discriminate]. }
  destruct (negb (n =? 1)).
  { intros [= _ <- <-]. exists line. split; [assumption | discriminate]. }
  destruct (readHeaders (S (List.length r1)) 0 false r1) as [[res r2]|] eqn:Eh;
    cbn [bind]; [|discriminate].
  destruct (readHeaders_suffix _ _ _ _ _ _ Eh) as (c1 & Hc1).
  destruct res as [e3|cl].
  { intros [= _ <- <-]. destruct (Stop c1 Hc1) as (c & Hc & _).
    exists c. split; [assumption | discriminate]. }
  destruct (bufio.Discard cl r2) as [[k oe] r3] eqn:Ed.
  destruct (Discard_suffix _ _ _ _ _ Ed) as (c2 & Hc2).
  assert (Hr3 : r1 = (c1 ++ c2) ++ r3) by (now rewrite Hc1, Hc2, app_assoc).
  destruct oe as [e4|]; intros [= _ <- <-];
    destruct (Stop _ Hr3) as (c & Hc & Hl); exists c; split; auto; discriminate.
Qed.

(** X19: [parseStatus] returns on every stream, without a panic: its loop
    ends, and a line that [ReadSlice] returns without error has the
    byte that the loop looks at.  What it leaves in the reader is the
    end of the stream it was given, and a parse without error has
    consumed a line at least. *)
Theorem parseStatus_consumes (r : bufio.Reader) :
  exists status e r' consumed,
    parseStatus r = Ret (status, e, r')
    /\ r = consumed ++ r'
    /\ (e = None -> In LF consumed).
Proof.
  destruct (parseStatus_total r) as ([[status e] r'] & H).
  destruct (parseStatus_suffix _ _ _ _ H) as (c & Hc & Hl).
  now exists status, e, r', c.
Qed.

Lemma parseStatus_consumes_witness :
  exists status e r' consumed,
    parseStatus (encode response200 ++ bytes "next") = Ret (status, e, r')
    /\ encode response200 ++ bytes "next" = consumed ++ r'
    /\ In LF consumed.
Proof.
  destruct (parseStatus_consumes (encode response200 ++ bytes "next"))
    as (status & e & r' & c & H & Hc & Hl).
  exists status, e, r', c. repeat split; try assumption.
  apply Hl. vm_compute in H. now injection H as _ <- _.
Defined.
